(** * Gryffin adaptive-sampling core: sample selector, random sampler and
      gradient optimizer

    A shallow embedding of
      - [src/gryffin/sample_selector/sample_selector.py]
      - [src/gryffin/random_sampler/random_sampler.py]
      - [src/gryffin/acquisition/gradient_optimizer/gradient_optimizer.py]
    together with the properties claimed about them.

    Conventions of the embedding.
      - A Python/NumPy float is a real number ([R]): the rounding of
        double-precision arithmetic, infinities and NaN are outside the
        model.  The casts to single precision that the sources spell out
        ([.astype(np.float32)]) are in the model: [np.float32] rounds a real
        number to the nearest number with 24 binary digits, a tie to the even
        neighbour, with the subnormal numbers below [2^-126]; the overflow
        of a cast to an infinity is outside the model.  An operation on a
        [float32] array is done in single precision: a Python float that
        meets the array is cast first, and the result is rounded.
      - A 1-D array is a [list R], a 2-D array a list of rows, a 3-D array a
        list of 2-D arrays.  Arrays that NumPy combines element by element
        are taken to have one shape: the element-wise operations below stop
        at the shorter argument where NumPy would refuse to broadcast.
      - A Python exception is a value of [exn]; a computation that may raise
        returns a [result].
      - [while] loops without a bound take a fuel argument and return [None]
        when the fuel runs out.
      - The pseudo-random generator of NumPy is an explicit state that every
        draw threads through. *)

From Stdlib Require Import Reals Lra Lia ZArith.
From stdpp Require Import base option list strings gmap sorting.

Open Scope R_scope.

(** ** Exceptions and results *)

Inductive exn : Set :=
| TypeError
| ValueError
| IndexError
| KeyError
| AttributeError
| UnboundLocalError
| GryffinUnknownSettingsError.

Inductive result (A : Type) : Type :=
| Ok (a : A)
| Raise (e : exn).
Arguments Ok {A} a.
Arguments Raise {A} e.

(** Sequencing: an exception raised by [m] propagates. *)
Definition bindR {A B} (m : result A) (f : A -> result B) : result B :=
  match m with
  | Ok a => f a
  | Raise e => Raise e
  end.

Notation "'let*' x ':=' m 'in' k" := (bindR m (fun x => k))
  (at level 10, x pattern, m at level 100, k at level 200,
   format "'[v' 'let*'  x  ':='  m  'in' '/' k ']'").

Definition mapOk {A B} (f : A -> B) (m : result A) : result B :=
  let* a := m in Ok (f a).

(** [xs[i]] on a Python sequence: [IndexError] out of range. *)
Definition getitem {A} (xs : list A) (i : nat) : result A :=
  match xs !! i with
  | Some x => Ok x
  | None => Raise IndexError
  end.

(** Monadic map over a list, left to right, stopping at the first exception. *)
Fixpoint mapR {A B} (f : A -> result B) (xs : list A) : result (list B) :=
  match xs with
  | [] => Ok []
  | x :: xs' => let* y := f x in let* ys := mapR f xs' in Ok (y :: ys)
  end.

(** ** Real numbers as floats: decidable comparisons *)

#[global] Instance R_eq_dec : EqDecision R := Req_dec_T.
#[global] Instance Rlt_decision (x y : R) : Decision (x < y) := Rlt_dec x y.
#[global] Instance Rgt_decision (x y : R) : Decision (x > y) := Rgt_dec x y.
#[global] Instance Rle_decision (x y : R) : Decision (x <= y) := Rle_dec x y.

Abbreviation vec := (list R).

(** ** The NumPy operations the sources use *)

Module np.

(** Element-wise arithmetic on arrays of equal shape. *)
Definition sub (a b : vec) : vec := zip_with Rminus a b.
Definition mul (a b : vec) : vec := zip_with Rmult a b.
Definition div (a b : vec) : vec := zip_with Rdiv a b.
Definition abs (a : vec) : vec := Rabs <$> a.
Definition minimum (a b : vec) : vec := zip_with Rmin a b.
Definition sum (a : vec) : R := foldr Rplus 0 a.
Definition mean (a : vec) : R := sum a / INR (length a).

(** [np.amin(rows, axis=0)]: the column-wise minimum of a non-empty list
    of rows; a zero-size array has no minimum ([ValueError]). *)
Fixpoint amin_axis0 (rows : list vec) : result vec :=
  match rows with
  | [] => Raise ValueError
  | [r] => Ok r
  | r :: rest => let* m := amin_axis0 rest in Ok (minimum r m)
  end.

(** [np.amin] of a 1-D array. *)
Fixpoint amin (a : vec) : result R :=
  match a with
  | [] => Raise ValueError
  | [x] => Ok x
  | x :: rest => let* m := amin rest in Ok (Rmin x m)
  end.

(** [np.argmax] of a 1-D array: the first index of the largest entry;
    [ValueError] on an empty array.  [argmax_from i best bi a] scans [a],
    whose first element has index [i], keeping the best value [best] seen
    so far and its index [bi]. *)
Fixpoint argmax_from (i : nat) (best : R) (bi : nat) (a : vec) : nat :=
  match a with
  | [] => bi
  | x :: rest =>
      if decide (x > best) then argmax_from (S i) x i rest
      else argmax_from (S i) best bi rest
  end.

Definition argmax (a : vec) : result nat :=
  match a with
  | [] => Raise ValueError
  | x :: rest => Ok (argmax_from 1 x 0 rest)
  end.

(** [a[st:end]] *)
Definition slice {A} (st en : nat) (a : list A) : list A :=
  take (en - st) (drop st a).

(** [np.array_split]: [Nsections] contiguous chunks, the first
    [Ntotal mod Nsections] of them one element longer.
    [div_points] are the cumulative chunk boundaries. *)
Definition section_sizes (Ntotal Nsections : nat) : list nat :=
  replicate (Ntotal mod Nsections) (Ntotal / Nsections + 1)%nat
    ++ replicate (Nsections - Ntotal mod Nsections) (Ntotal / Nsections)%nat.

Fixpoint cumsum (start : nat) (sizes : list nat) : list nat :=
  match sizes with
  | [] => []
  | n :: ns => (start + n)%nat :: cumsum (start + n) ns
  end.

Definition div_points (Ntotal Nsections : nat) : list nat :=
  0%nat :: cumsum 0 (section_sizes Ntotal Nsections).

(** the pairs [(st, end)] of consecutive division points *)
Fixpoint bounds (points : list nat) : list (nat * nat) :=
  match points with
  | st :: ((en :: _) as rest) => (st, en) :: bounds rest
  | _ => []
  end.

(** [np.array_split(ary, Nsections, axis=1)] of a 3-D array given as the
    list of its axis-0 entries; axis 1 has the length of the first entry.
    An array without a second axis and a number of sections that is not
    positive are refused. *)
Definition array_split_axis1 {A} (ary : list (list A)) (Nsections : nat)
  : result (list (list (list A))) :=
  match ary with
  | [] => Raise IndexError
  | row0 :: _ =>
      if decide (Nsections = 0)%nat then Raise ValueError
      else Ok ((fun '(st, en) => slice st en <$> ary)
                 <$> bounds (div_points (length row0) Nsections))
  end.

(** The lexicographic order on rows by which [np.unique(..., axis=0)] sorts. *)
Fixpoint row_leb (a b : vec) : bool :=
  match a, b with
  | [], _ => true
  | _ :: _, [] => false
  | x :: a', y :: b' =>
      if decide (x < y) then true
      else if decide (y < x) then false
      else row_leb a' b'
  end.

(** [np.unique(rows, axis=0)]: the distinct rows, sorted. *)
Definition unique_rows (rows : list vec) : list vec :=
  merge_sort (fun a b => Is_true (row_leb a b)) (remove_dups rows).

(** [int(x)] of a float: its integer part, rounded toward zero. *)
Definition trunc (x : R) : Z :=
  if decide (0 <= x) then Zfloor x else (- Zfloor (- x))%Z.

(** The nearest integer, a tie going to the even neighbour: the rounding of
    IEEE 754 arithmetic. *)
Definition rint (x : R) : Z :=
  let f := Zfloor x in
  if decide (x - IZR f < 1 / 2) then f
  else if decide (x - IZR f > 1 / 2) then (f + 1)%Z
  else if Z.even f then f else (f + 1)%Z.

(** The binary exponent of [x <> 0]: the [e] with [2^(e-1) <= |x| < 2^e]. *)
Definition mag (x : R) : Z := up (ln (Rabs x) / ln 2).

(** The exponent of the last of the 24 binary digits single precision
    keeps of [x]; it does not go below [-149], the exponent of the
    subnormal numbers. *)
Definition float32_exponent (x : R) : Z := Z.max (mag x - 24) (-149).

(** [np.float32(x)], the value of a cast to single precision: [x] rounded
    to the nearest multiple of two to the power [float32_exponent x]. *)
Definition float32 (x : R) : R :=
  let e := float32_exponent x in
  IZR (rint (x * powerRZ 2 (- e))) * powerRZ 2 e.

(** [a.astype(np.float32)] on a 1-D and on a 2-D array *)
Definition astype_float32 (a : vec) : vec := float32 <$> a.
Definition astype_float32_2d (a : list vec) : list vec := astype_float32 <$> a.

(** [x * y] and [x + y] in single precision: what NumPy computes for an
    entry of a [float32] array and a Python float, or another such entry. *)
Definition mul32 (x y : R) : R := float32 (float32 x * float32 y).
Definition add32 (x y : R) : R := float32 (float32 x + float32 y).

End np.

(** [foldlR f s xs]: a [for] loop over [xs] threading the state [s], stopped
    by the first exception. *)
Fixpoint foldlR {S A} (f : S -> A -> result S) (s : S) (xs : list A) : result S :=
  match xs with
  | [] => Ok s
  | x :: xs' => let* s' := f s x in foldlR f s' xs'
  end.

(** ** sample_selector.py *)

Module SampleSelector.

(** The fields of the configuration object the selector reads.
    [parameters] holds [p['type']] of every parameter; [num_cpus_setting]
    is [config.get('num_cpus')]: the string ['all'] or a number. *)
Inductive num_cpus_setting : Set :=
| CpusAll
| CpusInt (n : nat).

Record config : Type := {
  feature_ranges : vec;
  param_lowers : vec;
  param_uppers : vec;
  parameters : list string;
  get_num_cpus : num_cpus_setting
}.

(** The attributes of a [SampleSelector] instance.  [all_options] is [None]
    (the default of the constructor) or the 2-D array of remaining options. *)
Record self : Type := {
  self_config : config;
  all_options : option (list vec);
  num_cpus : nat
}.

(** [SampleSelector.__init__]; [cpu_count] is what
    [multiprocessing.cpu_count()] returns on the machine.  The verbosity of
    the logger is left out. *)
Definition __init__ (cpu_count : nat) (cfg : config) (all_options : option (list vec)) : self :=
  {| self_config := cfg;
     all_options := all_options;
     num_cpus := match get_num_cpus cfg with
                 | CpusAll => cpu_count
                 | CpusInt n => n
                 end |}.

(** [SampleSelector.compute_exp_objs] (static).  [return_dict] is [Some d]
    for a [DictProxy] and [None] for the default; the result pairs the
    returned array with the dictionary after the call. *)
Definition compute_exp_objs (proposals : list (list vec)) (eval_acquisition : vec -> nat -> R)
    (sampling_param_idx return_index : nat) (return_dict : option (gmap nat vec))
  : result (vec * option (gmap nat vec)) :=
  let* samples := getitem proposals sampling_param_idx in
  let exp_objs := (fun sample => exp (- eval_acquisition sample sampling_param_idx)) <$> samples in
  Ok (exp_objs, (fun d => <[return_index := exp_objs]> d) <$> return_dict).

(** One worker process: it runs [compute_exp_objs] on its split and writes
    into the shared dictionary; an exception in the child process ends the
    child without a write and is not propagated to the parent. *)
Definition worker (eval_acquisition : vec -> nat -> R) (sampling_param_idx : nat)
    (return_dict : gmap nat vec) (job : nat * list (list vec)) : gmap nat vec :=
  match compute_exp_objs job.2 eval_acquisition sampling_param_idx job.1 (Some return_dict) with
  | Ok (_, Some d) => d
  | _ => return_dict
  end.

(** The parallel branch for one sampling parameter.  The processes are
    started in the order of [enumerate(proposals_splits)], run concurrently
    and are all joined; [schedule] is the order in which they happen to
    write their results. *)
Definition parallel_exp_objs (schedule : list (nat * list (list vec)) -> list (nat * list (list vec)))
    (num_cpus : nat) (proposals : list (list vec)) (eval_acquisition : vec -> nat -> R)
    (sampling_param_idx : nat) : result vec :=
  let* proposals_splits := np.array_split_axis1 proposals num_cpus in
  let return_dict :=
    foldl (worker eval_acquisition sampling_param_idx) ∅
          (schedule (imap pair proposals_splits)) in
  let* chunks := mapR (fun idx => match return_dict !! idx with
                            | Some chunk => Ok chunk
                            | None => Raise KeyError
                            end)
                (seq 0 (length proposals_splits)) in
  Ok (concat chunks).

(** [SampleSelector._compute_exp_objs] *)
Definition _compute_exp_objs (schedule : list (nat * list (list vec)) -> list (nat * list (list vec)))
    (num_cpus : nat) (proposals : list (list vec)) (eval_acquisition : vec -> nat -> R)
    (sampling_param_values : list R) : result (list vec) :=
  mapR (fun sampling_param_idx =>
          if decide (1 < num_cpus)%nat then
            parallel_exp_objs schedule num_cpus proposals eval_acquisition sampling_param_idx
          else
            mapOk fst (compute_exp_objs proposals eval_acquisition sampling_param_idx 0 None))
       (seq 0 (length sampling_param_values)).

(** [(x - param_lowers) / (param_uppers - param_lowers)] *)
Definition normalise (cfg : config) (x : vec) : vec :=
  np.div (np.sub x (param_lowers cfg)) (np.sub (param_uppers cfg) (param_lowers cfg)).

(** [np.sum((obs_params_norm - batch_proposal)**2, axis=1)] *)
Definition sq_distances (obs_params_norm : list vec) (batch_proposal : vec) : vec :=
  (fun o => np.sum ((fun d => d ^ 2) <$> np.sub o batch_proposal)) <$> obs_params_norm.

(** [exp_objs.shape[1]] *)
Definition shape1 (exp_objs : list vec) : result nat :=
  match exp_objs with
  | [] => Raise IndexError
  | row :: _ => Ok (length row)
  end.

(** One round of the first loop of [_select]: the rewards of the proposals of
    [sampling_param_idx] that lie within [1e-8] (squared, normalised
    distance) of an observation are set to zero.  [np.amin(distances,
    axis=1)] raises on an array without a second axis or with an empty
    one. *)
Definition zero_identical (obs_params_norm : list vec) (proposals_norm : list (list vec))
    (exp_objs : list vec) (sampling_param_idx : nat) : result (list vec) :=
  let* rows := getitem proposals_norm sampling_param_idx in
  let* n := shape1 exp_objs in
  let batch_proposals := take n rows in
  let distances := sq_distances obs_params_norm <$> batch_proposals in
  let* min_distances :=
    match distances with
    | [] => Raise ValueError
    | _ => mapR np.amin distances
    end in
  let* row := getitem exp_objs sampling_param_idx in
  let row' := imap (fun i e => match min_distances !! i with
                               | Some d => if decide (d < 1 / 10 ^ 8) then 0 else e
                               | None => e
                               end) row in
  Ok (<[sampling_param_idx := row']> exp_objs).

(** The diversity factor of one proposal (the body of the innermost loop of
    [_select], up to the assignment to [div_crits[proposal_index]]). *)
Definition div_crit (feature_ranges char_dists : vec) (obs_params selected_samples : list vec)
    (proposal : vec) : result R :=
  let* obs_min_distance :=
    np.amin_axis0 ((fun x => np.abs (np.sub proposal x)) <$> obs_params) in
  let* min_distance :=
    if decide (0 < length selected_samples)%nat then
      let* min_distance :=
        np.amin_axis0 ((fun x => np.abs (np.sub proposal x)) <$> selected_samples) in
      Ok (np.minimum min_distance obs_min_distance)
    else Ok obs_min_distance in
  Ok (Rmin 1 (np.mean (exp <$> np.div ((fun d => 2 * d) <$> np.sub min_distance char_dists)
                                       feature_ranges))).

(** The body of the two nested selection loops of [_select]; the state is
    [(exp_objs, selected_samples)]. *)
Definition select_one (cfg : config) (char_dists : vec) (proposals : list (list vec)) (obs_params : list vec)
    (st : list vec * list vec) (sampling_param_idx : nat) : result (list vec * list vec) :=
  let '(exp_objs, selected_samples) := st in
  let* batch_proposals := getitem proposals sampling_param_idx in
  let* div_crits :=
    mapR (div_crit (feature_ranges cfg) char_dists obs_params selected_samples) batch_proposals in
  let* rewards := getitem exp_objs sampling_param_idx in
  let reweighted_rewards := np.mul rewards div_crits in
  let* largest_reward_index := np.argmax reweighted_rewards in
  let* new_sample := getitem batch_proposals largest_reward_index in
  Ok (<[sampling_param_idx := <[largest_reward_index := 0]> rewards]> exp_objs,
      selected_samples ++ [new_sample]).

(** [SampleSelector._select] *)
Definition _select (schedule : list (nat * list (list vec)) -> list (nat * list (list vec)))
    (slf : self) (num_batches : nat) (proposals : list (list vec))
    (eval_acquisition : vec -> nat -> R) (sampling_param_values : list R)
    (obs_params : list vec) : result (list vec) :=
  let cfg := self_config slf in
  let num_obs := length obs_params in
  let char_dists := (fun r => r / sqrt (INR num_obs)) <$> feature_ranges cfg in
  let* exp_objs :=
    _compute_exp_objs schedule (num_cpus slf) proposals eval_acquisition sampling_param_values in
  let obs_params_norm := normalise cfg <$> obs_params in
  let proposals_norm := (fun rows : list vec => normalise cfg <$> rows) <$> proposals in
  let* exp_objs :=
    foldlR (zero_identical obs_params_norm proposals_norm) exp_objs
           (seq 0 (length sampling_param_values)) in
  let* st :=
    foldlR (fun st (batch_idx : nat) =>
              foldlR (select_one cfg char_dists proposals obs_params) st
                     (seq 0 (length sampling_param_values)))
           (exp_objs, []) (seq 0 num_batches) in
  Ok st.2.

(** [np.delete(all_options, np.where(np.all(all_options == sample, axis=1))[0], axis=0)] *)
Definition delete_rows (all_options : list vec) (sample : vec) : list vec :=
  filter (fun row => row <> sample) all_options.

Section Select.

(** The generator state and [np.random.permutation(n)], the source of
    [np.random.choice(..., replace=False)]. *)
Variable rng : Type.
Variable permutation : nat -> rng -> list nat * rng.

(** [np.random.choice(a, size=size, replace=False)] for an integer [a]: the
    first [size] entries of a permutation of [0 .. a - 1]; a negative size, an
    empty population to draw from and a size above the population are
    refused. *)
Definition random_choice (a : nat) (size : Z) (g : rng) : result (list nat * rng) :=
  if decide (size < 0)%Z then Raise ValueError
  else if decide (a = 0%nat /\ size <> 0%Z) then Raise ValueError
  else if decide (Z.of_nat a < size)%Z then Raise ValueError
  else let '(perm, g') := permutation a g in Ok (take (Z.to_nat size) perm, g').

(** [SampleSelector.select].  The status line and the log message do not
    take part in the result and are left out.  The result carries the
    instance with its updated [all_options] and the generator state. *)
Definition select (schedule : list (nat * list (list vec)) -> list (nat * list (list vec)))
    (slf : self) (num_batches : nat) (proposals : list (list vec))
    (eval_acquisition : vec -> nat -> R) (sampling_param_values : list R)
    (obs_params : list vec) (g : rng) : result (list vec * self * rng) :=
  let* samples :=
    _select schedule slf num_batches proposals eval_acquisition sampling_param_values obs_params in
  (* len(self.all_options) *)
  let* options := match all_options slf with
                  | None => Raise TypeError
                  | Some options => Ok options
                  end in
  let '(is_batch_duplicate, unique_samples) :=
    if decide (length options < length sampling_param_values)%nat then (false, samples)
    else let unique_samples := np.unique_rows samples in
         (bool_decide (length unique_samples <> length sampling_param_values), unique_samples) in
  let options :=
    if forallb (String.eqb "categorical") (parameters (self_config slf))
    then foldl delete_rows options unique_samples
    else options in
  if is_batch_duplicate then
    let missing_size :=
      (Z.of_nat (length sampling_param_values) - Z.of_nat (length unique_samples))%Z in
    let* (indices, g') := random_choice (length options) missing_size g in
    let* missing_samples := mapR (getitem options) indices in
    let options := foldl delete_rows options missing_samples in
    Ok (unique_samples ++ missing_samples,
        {| self_config := self_config slf; all_options := Some options; num_cpus := num_cpus slf |},
        g')
  else
    Ok (unique_samples,
        {| self_config := self_config slf; all_options := Some options; num_cpus := num_cpus slf |},
        g).

End Select.

Arguments random_choice {rng} permutation a size g.
Arguments select {rng} permutation schedule slf num_batches proposals eval_acquisition
  sampling_param_values obs_params g.

End SampleSelector.

(** ** gryffin.utilities *)

(** Modelled from the spec: the class [GryffinUnknownSettingsError] of
    [gryffin.utilities], which the sources import and instantiate but which
    is not among them.  The spec describes the call sites as building "an
    error object without raising it": instantiating the class returns
    normally and has no effect on the caller. *)
Definition new_GryffinUnknownSettingsError (message : string) : result unit := Ok tt.

(** The Python objects a feasibility predicate can return. *)
Inductive pyobj : Type :=
| PyBool (b : bool)
| PyNone
| PyInt (n : Z)
| PyFloat (x : R)
| PyStr (s : string)
| NumpyBool (b : bool).

(** [v is True]: identity with the singleton [True]. *)
Definition is_True (v : pyobj) : bool :=
  match v with
  | PyBool true => true
  | _ => false
  end.

(** [bool(v)]: the truth value of an object. *)
Definition truthy (v : pyobj) : bool :=
  match v with
  | PyBool b => b
  | PyNone => false
  | PyInt n => negb (n =? 0)%Z
  | PyFloat x => bool_decide (x <> 0)
  | PyStr s => match s with EmptyString => false | String _ _ => true end
  | NumpyBool b => b
  end.

#[global] Instance pyobj_eq_dec : EqDecision pyobj.
Proof. solve_decision. Defined.

(** ** random_sampler.py *)

Module RandomSampler.

(** [param_settings['specifics']]: a dictionary with the keys ['low'] and
    ['high'] or the key ['options']; a missing key is [None] here. *)
Record specifics : Type := {
  low : option R;
  high : option R;
  options : option (list string)
}.

Record param_settings : Type := {
  type : string;
  specs : specifics
}.

Definition specs_get {A} (field : option A) : result A :=
  match field with
  | Some x => Ok x
  | None => Raise KeyError
  end.

(** [np.concatenate(arrays, axis=1)] of arrays with one row per sample. *)
Fixpoint concatenate_axis1 (arrays : list (list vec)) : result (list vec) :=
  match arrays with
  | [] => Raise ValueError
  | [a] => Ok a
  | a :: rest => let* r := concatenate_axis1 rest in Ok (zip_with app a r)
  end.

Section Sampler.

(** The generator of [np.random]: [random_sample] is a draw from [[0, 1)],
    [random_int bound] an integer draw from [[0, bound)]. *)
Variable rng : Type.
Variable random_sample : rng -> R * rng.
Variable random_int : R -> rng -> R * rng.

(** The named-field form of a sample handed to the feasibility predicate, and
    [sample_arrays_to_dicts] of [gryffin.utilities] applied to the parameter
    names, options and types of the configuration. *)
Variable param_dict : Type.

Record config : Type := {
  parameters : list param_settings;
  sample_arrays_to_dicts : vec -> param_dict
}.

Record self : Type := {
  self_config : config;
  known_constraints : option (param_dict -> pyobj)
}.

(** [RandomSampler.__init__]; the verbosity of the logger is left out. *)
Definition __init__ (cfg : config) (known_constraints : option (param_dict -> pyobj)) : self :=
  {| self_config := cfg; known_constraints := known_constraints |}.

(** An array of shape [(num, 1)] filled by [num] successive draws. *)
Fixpoint draw_column (num : nat) (draw1 : rng -> R * rng) (g : rng) : list vec * rng :=
  match num with
  | O => ([], g)
  | S num' =>
      let '(x, g1) := draw1 g in
      let '(col, g2) := draw_column num' draw1 g1 in
      ([x] :: col, g2)
  end.

(** [np.random.uniform(low, high)] *)
Definition uniform (low high : R) (g : rng) : R * rng :=
  let '(u, g') := random_sample g in (low + (high - low) * u, g').

(** [RandomSampler._draw_categorical]; [np.random.choice] refuses an empty
    population when samples are to be taken. *)
Definition _draw_categorical (num_options : nat) (num : nat) (g : rng) : result (list vec * rng) :=
  if decide (num_options = 0 /\ num <> 0)%nat then Raise ValueError
  else
    let '(drawn, g') := draw_column num (random_int (INR num_options)) g in
    Ok (np.astype_float32_2d drawn, g').

(** [RandomSampler._draw_continuous] *)
Definition _draw_continuous (low high : R) (num : nat) (g : rng) : result (list vec * rng) :=
  let '(drawn, g') := draw_column num (uniform low high) g in
  Ok (np.astype_float32_2d drawn, g').

(** [RandomSampler._draw_discrete].  [np.random.randint(low=0, high=h)]
    takes the integer part of a float [h]; it refuses a bound that is not
    positive ("low >= high") and one beyond the 64-bit integers ("high is
    out of bounds"). *)
Definition _draw_discrete (low high : R) (num : nat) (g : rng) : result (list vec * rng) :=
  let bound := np.trunc (high - low) in
  if decide (bound <= 0)%Z then Raise ValueError
  else if decide (2 ^ 63 < bound)%Z then Raise ValueError
  else
    let '(drawn, g') := draw_column num (random_int (IZR bound)) g in
    Ok (np.astype_float32_2d drawn, g').

(** [RandomSampler._draw_single_parameter].  In the last branch no name
    [sampled_values] was bound when the [return] reads it. *)
Definition _draw_single_parameter (num : nat) (param_type : string) (specs : specifics) (g : rng)
  : result (list vec * rng) :=
  if String.eqb param_type "continuous" then
    let* lo := specs_get (low specs) in
    let* hi := specs_get (high specs) in
    _draw_continuous lo hi num g
  else if String.eqb param_type "categorical" then
    let* opts := specs_get (options specs) in
    _draw_categorical (length opts) num g
  else if String.eqb param_type "discrete" then
    let* lo := specs_get (low specs) in
    let* hi := specs_get (high specs) in
    _draw_discrete lo hi num g
  else
    let* _ := new_GryffinUnknownSettingsError "cannot understand parameter type" in
    Raise UnboundLocalError.

(** [RandomSampler._fast_draw] *)
Definition _fast_draw (slf : self) (num : nat) (g : rng) : result (list vec * rng) :=
  let* (samples, g') :=
    foldlR (fun '(samples, g) param_settings =>
              let* (param_samples, g') :=
                _draw_single_parameter num (type param_settings) (specs param_settings) g in
              Ok (samples ++ [param_samples], g'))
           ([], g) (parameters (self_config slf)) in
  let* samples := concatenate_axis1 samples in
  Ok (samples, g').

(** The [for] loop in the body of the [while] loop of [_slow_draw]: one
    candidate, one value per parameter. *)
Definition draw_candidate (slf : self) (num : nat) (g : rng) : result (vec * rng) :=
  foldlR (fun '(sample, g) param_settings =>
            let* (column, g') :=
              _draw_single_parameter num (type param_settings) (specs param_settings) g in
            let* param_sample := getitem column 0 in
            let* x := getitem param_sample 0 in
            Ok (sample ++ [x], g'))
         ([], g) (parameters (self_config slf)).

(** The [while] loop of [RandomSampler._slow_draw], with the list [samples]
    collected so far. *)
Fixpoint _slow_draw_loop (fuel : nat) (slf : self) (constraints : param_dict -> pyobj)
    (num : nat) (samples : list vec) (g : rng) : option (result (list vec * rng)) :=
  if decide (length samples < num)%nat then
    match fuel with
    | O => None
    | S fuel' =>
        match draw_candidate slf num g with
        | Raise e => Some (Raise e)
        | Ok (sample, g') =>
            let param := sample_arrays_to_dicts (self_config slf) sample in
            let feasible := constraints param in
            if is_True feasible
            then _slow_draw_loop fuel' slf constraints num (samples ++ [sample]) g'
            else _slow_draw_loop fuel' slf constraints num samples g'
        end
    end
  else Some (Ok (samples, g)).

(** [RandomSampler._slow_draw]; calling [self.known_constraints] when it is
    [None] is a [TypeError]. *)
Definition _slow_draw (fuel : nat) (slf : self) (num : nat) (g : rng)
  : option (result (list vec * rng)) :=
  match known_constraints slf with
  | Some constraints => _slow_draw_loop fuel slf constraints num [] g
  | None => if decide (0 < num)%nat
            then match draw_candidate slf num g with
                 | Raise e => Some (Raise e)
                 | Ok _ => Some (Raise TypeError)
                 end
            else Some (Ok ([], g))
  end.

(** [RandomSampler.draw] *)
Definition draw (fuel : nat) (slf : self) (num : nat) (g : rng)
  : option (result (list vec * rng)) :=
  match known_constraints slf with
  | None => Some (_fast_draw slf num g)
  | Some _ => _slow_draw fuel slf num g
  end.

(** [np.where(a < bound, bound, a)] and [np.where(a > bound, bound, a)] on
    an array of shape [(num, 1)] *)
Definition where_lt (bound : R) (a : list vec) : list vec :=
  (fun row : vec => (fun x => if decide (x < bound) then bound else x) <$> row) <$> a.
Definition where_gt (bound : R) (a : list vec) : list vec :=
  (fun row : vec => (fun x => if decide (x > bound) then bound else x) <$> row) <$> a.

(** [RandomSampler._perturb_single_parameter].  [sampled_values] is a
    [float32] array, and so is all that is computed from it: the Python
    floats [high - low], [ref_value], [specs['low']] and [specs['high']] are
    cast to single precision where they meet it.  The array of ones of the
    second branch is a [float32] array as well. *)
Definition _perturb_single_parameter (ref_value : R) (num : nat) (param_type : string)
    (specs : specifics) (scale : R) (g : rng) : result (list vec * rng) :=
  if String.eqb param_type "continuous" then
    let* (sampled_values, g') := _draw_continuous (- scale) scale num g in
    let* hi := specs_get (high specs) in
    let* lo := specs_get (low specs) in
    let sampled_values :=
      (fun row : vec => (fun x => np.mul32 x (hi - lo)) <$> row) <$> sampled_values in
    let perturbed_sample :=
      (fun row : vec => (fun x => np.add32 ref_value x) <$> row) <$> sampled_values in
    let* lo := specs_get (low specs) in
    let perturbed_sample := where_lt (np.float32 lo) perturbed_sample in
    let* hi := specs_get (high specs) in
    let perturbed_sample := where_gt (np.float32 hi) perturbed_sample in
    Ok (perturbed_sample, g')
  else if String.eqb param_type "categorical" || String.eqb param_type "discrete" then
    Ok (replicate num [np.mul32 ref_value (np.float32 1)], g)
  else
    let* _ := new_GryffinUnknownSettingsError "did not understand settings" in
    Raise UnboundLocalError.

(** [RandomSampler._fast_perturb] *)
Definition _fast_perturb (slf : self) (ref_sample : vec) (num : nat) (scale : R) (g : rng)
  : result (list vec * rng) :=
  let* (perturbed_samples, g') :=
    foldlR (fun '(perturbed_samples, g) '(param_index, param_settings) =>
              let* ref_value := getitem ref_sample param_index in
              let* (perturbed_param_samples, g') :=
                _perturb_single_parameter ref_value num (type param_settings)
                                          (specs param_settings) scale g in
              Ok (perturbed_samples ++ [perturbed_param_samples], g'))
           ([], g) (imap pair (parameters (self_config slf))) in
  let* perturbed_samples := concatenate_axis1 perturbed_samples in
  Ok (perturbed_samples, g').

(** The [for] loop in the body of the [while] loop of [_slow_perturb]. *)
Definition perturb_candidate (slf : self) (ref_sample : vec) (scale : R) (g : rng)
  : result (vec * rng) :=
  foldlR (fun '(perturbed_sample, g) '(param_index, param_settings) =>
            let* ref_value := getitem ref_sample param_index in
            let* (column, g') :=
              _perturb_single_parameter ref_value 1 (type param_settings)
                                        (specs param_settings) scale g in
            let* perturbed_param := getitem column 0 in
            let* x := getitem perturbed_param 0 in
            Ok (perturbed_sample ++ [x], g'))
         ([], g) (imap pair (parameters (self_config slf))).

(** The [while] loop of [RandomSampler._slow_perturb]. *)
Fixpoint _slow_perturb_loop (fuel : nat) (slf : self) (constraints : param_dict -> pyobj)
    (ref_sample : vec) (num : nat) (scale : R) (perturbed_samples : list vec) (g : rng)
  : option (result (list vec * rng)) :=
  if decide (length perturbed_samples < num)%nat then
    match fuel with
    | O => None
    | S fuel' =>
        match perturb_candidate slf ref_sample scale g with
        | Raise e => Some (Raise e)
        | Ok (perturbed_sample, g') =>
            let param := sample_arrays_to_dicts (self_config slf) perturbed_sample in
            let feasible := constraints param in
            if is_True feasible
            then _slow_perturb_loop fuel' slf constraints ref_sample num scale
                                    (perturbed_samples ++ [perturbed_sample]) g'
            else _slow_perturb_loop fuel' slf constraints ref_sample num scale
                                    perturbed_samples g'
        end
    end
  else Some (Ok (perturbed_samples, g)).

(** [RandomSampler._slow_perturb] *)
Definition _slow_perturb (fuel : nat) (slf : self) (ref_sample : vec) (num : nat) (scale : R)
    (g : rng) : option (result (list vec * rng)) :=
  match known_constraints slf with
  | Some constraints => _slow_perturb_loop fuel slf constraints ref_sample num scale [] g
  | None => if decide (0 < num)%nat
            then match perturb_candidate slf ref_sample scale g with
                 | Raise e => Some (Raise e)
                 | Ok _ => Some (Raise TypeError)
                 end
            else Some (Ok ([], g))
  end.

(** [RandomSampler.perturb] *)
Definition perturb (fuel : nat) (slf : self) (ref_sample : vec) (num : nat) (scale : R)
    (g : rng) : option (result (list vec * rng)) :=
  match known_constraints slf with
  | None => Some (_fast_perturb slf ref_sample num scale g)
  | Some _ => _slow_perturb fuel slf ref_sample num scale g
  end.

End Sampler.

Arguments parameters {param_dict} c.
Arguments sample_arrays_to_dicts {param_dict} c sample.
Arguments self_config {param_dict} s.
Arguments known_constraints {param_dict} s.
Arguments __init__ {param_dict} cfg known_constraints.
Arguments draw_column {rng} num draw1 g.
Arguments uniform {rng} random_sample low high g.
Arguments _draw_categorical {rng} random_int num_options num g.
Arguments _draw_continuous {rng} random_sample low high num g.
Arguments _draw_discrete {rng} random_int low high num g.
Arguments _draw_single_parameter {rng} random_sample random_int num param_type specs g.
Arguments _fast_draw {rng} random_sample random_int {param_dict} slf num g.
Arguments draw_candidate {rng} random_sample random_int {param_dict} slf num g.
Arguments _slow_draw_loop {rng} random_sample random_int {param_dict}
  fuel slf constraints num samples g.
Arguments _slow_draw {rng} random_sample random_int {param_dict} fuel slf num g.
Arguments draw {rng} random_sample random_int {param_dict} fuel slf num g.
Arguments _perturb_single_parameter {rng} random_sample ref_value num param_type specs scale g.
Arguments _fast_perturb {rng} random_sample {param_dict} slf ref_sample num scale g.
Arguments perturb_candidate {rng} random_sample {param_dict} slf ref_sample scale g.
Arguments _slow_perturb_loop {rng} random_sample {param_dict}
  fuel slf constraints ref_sample num scale perturbed_samples g.
Arguments _slow_perturb {rng} random_sample {param_dict} fuel slf ref_sample num scale g.
Arguments perturb {rng} random_sample {param_dict} fuel slf ref_sample num scale g.

(** *** [normal_samples] *)

(** The names the class [RandomSampler] itself defines: its methods and the
    attributes its constructor assigns. *)
Definition own_attributes : list string :=
  ["__init__"; "draw"; "perturb"; "_fast_draw"; "_slow_draw"; "_draw_single_parameter";
   "_fast_perturb"; "_slow_perturb"; "_perturb_single_parameter"; "normal_samples";
   "_draw_categorical"; "_draw_continuous"; "_draw_discrete";
   "config"; "known_constraints"].

(** The argument [loc] of [normal_samples]: the float [0.] by default, an
    array with one entry per parameter otherwise. *)
Inductive loc_arg : Type :=
| LocFloat (x : R)
| LocArray (a : vec).

(** [loc[param_index]]: a float cannot be indexed. *)
Definition loc_getitem (loc : loc_arg) (param_index : nat) : result R :=
  match loc with
  | LocFloat _ => Raise TypeError
  | LocArray a => getitem a param_index
  end.

Section NormalSamples.

(** [standard_normal] is a draw from the standard normal distribution.  The
    attributes [categorical_sampler] and [discrete_sampler] are assigned
    nowhere in the class: [Logger_attributes] are the attribute names an
    instance inherits from the base class [Logger], which is not among the
    sources, and [Logger_categorical_draw] and [Logger_discrete_draw] are
    what the [draw] methods of inherited attributes of these names would do,
    should the base class provide them. *)
Variable rng : Type.
Variable standard_normal : rng -> R * rng.
Variable Logger_attributes : list string.
Variable Logger_categorical_draw : nat -> nat -> rng -> result (list vec * rng).
Variable Logger_discrete_draw : R -> R -> nat -> rng -> result (list vec * rng).
Context {param_dict : Type}.

(** Reading [self.name]: found in the class or in its base, else
    [AttributeError]. *)
Definition getattr (name : string) : result unit :=
  if decide (name ∈ own_attributes ++ Logger_attributes) then Ok tt
  else Raise AttributeError.

(** [np.random.normal(loc, scale)] *)
Definition normal (loc scale : R) (g : rng) : R * rng :=
  let '(z, g') := standard_normal g in (loc + scale * z, g').

(** [np.random.normal(0., scale, (num, 1))]; a negative scale is refused. *)
Definition random_normal (scale : R) (num : nat) (g : rng) : result (list vec * rng) :=
  if decide (scale < 0) then Raise ValueError
  else Ok (draw_column num (normal 0 scale) g).

(** The body of the loop of [normal_samples].  The state holds the list
    [samples], the local variable [sampled_values], which is unbound
    ([None]) until a branch assigns it and keeps its value from one
    iteration to the next, and the generator. *)
Definition normal_samples_step (loc : loc_arg) (scale : R) (num : nat)
    (st : list (list vec) * option (list vec) * rng) (item : nat * param_settings)
  : result (list (list vec) * option (list vec) * rng) :=
  let '(samples, sampled_values, g) := st in
  let '(param_index, param_settings) := item in
  let param_type := type param_settings in
  let specs := specs param_settings in
  let* (sampled_values, g) :=
    if String.eqb param_type "continuous" then
      let* hi := specs_get (high specs) in
      let* lo := specs_get (low specs) in
      let param_range := hi - lo in
      let* (drawn, g') := random_normal (scale * param_range) num g in
      let* l := loc_getitem loc param_index in
      Ok (Some ((fun row : vec => (fun x => x + l) <$> row) <$> drawn), g')
    else if String.eqb param_type "categorical" then
      let* _ := getattr "categorical_sampler" in
      let* opts := specs_get (options specs) in
      let* (drawn, g') := Logger_categorical_draw (length opts) num g in
      Ok (Some drawn, g')
    else if String.eqb param_type "discrete" then
      let* _ := getattr "discrete_sampler" in
      let* lo := specs_get (low specs) in
      let* hi := specs_get (high specs) in
      let* (drawn, g') := Logger_discrete_draw lo hi num g in
      Ok (Some drawn, g')
    else
      let* _ := new_GryffinUnknownSettingsError "cannot understand parameter type" in
      Ok (sampled_values, g) in
  (* samples.append(sampled_values) *)
  match sampled_values with
  | None => Raise UnboundLocalError
  | Some values => Ok (samples ++ [values], sampled_values, g)
  end.

(** [RandomSampler.normal_samples] *)
Definition normal_samples (slf : self param_dict) (loc : loc_arg) (scale : R) (num : nat) (g : rng)
  : result (list vec * rng) :=
  let* (samples, _, g') :=
    foldlR (normal_samples_step loc scale num) ([], None, g)
           (imap pair (parameters (self_config slf))) in
  let* samples := concatenate_axis1 samples in
  Ok (samples, g').

End NormalSamples.

Arguments normal {rng} standard_normal loc scale g.
Arguments random_normal {rng} standard_normal scale num g.
Arguments normal_samples_step {rng} standard_normal Logger_attributes Logger_categorical_draw
  Logger_discrete_draw loc scale num st item.
Arguments normal_samples {rng} standard_normal Logger_attributes Logger_categorical_draw
  Logger_discrete_draw {param_dict} slf loc scale num g.

End RandomSampler.

(** ** gradient_optimizer.py *)

Module GradientOptimizer.

Record config : Type := {
  num_features : nat;
  feature_types : list string;
  feature_names : list string;
  feature_lowers : vec;
  feature_uppers : vec
}.

(** The attributes of a [GradientOptimizer] instance set by [__init__]; the
    three sub-optimizers [opt_con], [opt_dis] and [opt_cat] are carried as
    one state, see below. *)
Record self : Type := {
  self_config : config;
  pos_continuous : list bool;
  pos_categories : list bool;
  pos_discrete : list bool
}.

(** The names the class [GradientOptimizer] itself defines: its methods and
    the attributes its constructor assigns. *)
Definition own_attributes : list string :=
  ["__init__"; "_within_bounds"; "_optimize_continuous"; "_optimize_discrete";
   "_optimize_categorical"; "set_func"; "optimize";
   "config"; "pos_continuous"; "pos_categories"; "pos_discrete";
   "opt_con"; "opt_dis"; "opt_cat"].

(** [a[i] = x] on a NumPy array: [IndexError] out of range. *)
Definition setitem {A} (a : list A) (i : nat) (x : A) : result (list A) :=
  if decide (i < length a)%nat then Ok (<[i := x]> a) else Raise IndexError.

(** [np.any] of a boolean array *)
Definition any (a : list bool) : bool := existsb (fun b : bool => b) a.

Section Optimizer.

(** The base class [Logger] of [gryffin.utilities] is not among the sources:
    [Logger_attributes] are the attribute names an instance inherits from it,
    and [Logger_within_bounds] is what calling an inherited attribute
    [within_bounds] would do, should the base class provide one. *)
Variable Logger_attributes : list string.
Variable Logger_within_bounds : vec -> result bool.

(** The classes [AdamOptimizer], [NaiveDiscreteOptimizer] and
    [NaiveCategoricalOptimizer] of the package are not among the sources:
    [opt_state] is the joint internal state of the three instances and
    [*_get_update] are their [get_update] methods, for the function bound
    by [set_func]. *)
Variable opt_state : Type.
Variable opt_con_get_update : vec -> opt_state -> vec * opt_state.
Variable opt_dis_get_update : vec -> opt_state -> vec * opt_state.
Variable opt_cat_get_update : vec -> opt_state -> vec * opt_state.

(** Reading [self.name]: found in the class or in its base, else
    [AttributeError]. *)
Definition getattr (name : string) : result unit :=
  if decide (name ∈ own_attributes ++ Logger_attributes) then Ok tt
  else Raise AttributeError.

(** The body of the loop of [GradientOptimizer.__init__]. *)
Definition parse_position (cfg : config) (pos : list bool * list bool * list bool)
    (feature : nat * string) : result (list bool * list bool * list bool) :=
  let '(pos_continuous, pos_categories, pos_discrete) := pos in
  let '(feature_index, feature_type) := feature in
  if String.eqb feature_type "continuous" then
    let* pos_continuous := setitem pos_continuous feature_index true in
    Ok (pos_continuous, pos_categories, pos_discrete)
  else if String.eqb feature_type "categorical" then
    let* pos_categories := setitem pos_categories feature_index true in
    Ok (pos_continuous, pos_categories, pos_discrete)
  else if String.eqb feature_type "discrete" then
    let* pos_discrete := setitem pos_discrete feature_index true in
    Ok (pos_continuous, pos_categories, pos_discrete)
  else
    let* feature_name := getitem (feature_names cfg) feature_index in
    let* _ := getattr "template" in
    let* _ := new_GryffinUnknownSettingsError "did not understand parameter type" in
    Ok (pos_continuous, pos_categories, pos_discrete).

(** [GradientOptimizer.__init__], up to the creation of the three
    sub-optimizers. *)
Definition __init__ (cfg : config) : result self :=
  let* (pos_continuous, pos_categories, pos_discrete) :=
    foldlR (parse_position cfg)
           (replicate (num_features cfg) false,
            replicate (num_features cfg) false,
            replicate (num_features cfg) false)
           (imap pair (feature_types cfg)) in
  Ok {| self_config := cfg;
        pos_continuous := pos_continuous;
        pos_categories := pos_categories;
        pos_discrete := pos_discrete |}.

(** [GradientOptimizer._within_bounds] *)
Definition _within_bounds (slf : self) (sample : vec) : bool :=
  negb (any (zip_with (fun x l => bool_decide (x < l)) sample (feature_lowers (self_config slf)))
        || any (zip_with (fun x u => bool_decide (x > u)) sample (feature_uppers (self_config slf)))).

(** Calling [self.within_bounds(sample)]: the class defines
    [_within_bounds] but no attribute of this name. *)
Definition call_within_bounds (slf : self) (sample : vec) : result bool :=
  if decide ("within_bounds" ∈ own_attributes) then Ok (_within_bounds slf sample)
  else if decide ("within_bounds" ∈ Logger_attributes) then Logger_within_bounds sample
  else Raise AttributeError.

(** [GradientOptimizer._optimize_continuous] *)
Definition _optimize_continuous (slf : self) (sample : vec) (st : opt_state)
  : result (vec * opt_state) :=
  let '(proposal, st') := opt_con_get_update sample st in
  let* within := call_within_bounds slf proposal in
  if within then Ok (proposal, st') else Ok (sample, st').

(** [GradientOptimizer._optimize_discrete] *)
Definition _optimize_discrete (slf : self) (sample : vec) (st : opt_state)
  : result (vec * opt_state) :=
  Ok (opt_dis_get_update sample st).

(** [GradientOptimizer._optimize_categorical] *)
Definition _optimize_categorical (slf : self) (sample : vec) (st : opt_state)
  : result (vec * opt_state) :=
  Ok (opt_cat_get_update sample st).

(** [np.linalg.norm(a - b)] *)
Definition norm_diff (a b : vec) : R :=
  sqrt (np.sum ((fun d => d ^ 2) <$> np.sub a b)).

(** One pass through the body of the [for] loop of [optimize], up to the
    convergence check. *)
Definition optimize_step (slf : self) (optimized : vec) (st : opt_state)
  : result (vec * opt_state) :=
  let* (optimized, st) :=
    if any (pos_continuous slf) then _optimize_continuous slf optimized st
    else Ok (optimized, st) in
  let* (optimized, st) :=
    if any (pos_categories slf) then _optimize_categorical slf optimized st
    else Ok (optimized, st) in
  let* (optimized, st) :=
    if any (pos_discrete slf) then _optimize_discrete slf optimized st
    else Ok (optimized, st) in
  Ok (optimized, st).

(** The [for num_iter in range(max_iter)] loop of [optimize]; [remaining]
    counts the iterations still to run.  The result carries the number of
    iterations that were completed. *)
Fixpoint optimize_loop (slf : self) (remaining : nat) (done_iter : nat)
    (sample_copy optimized : vec) (st : opt_state) : result (vec * opt_state * nat) :=
  match remaining with
  | O => Ok (optimized, st, done_iter)
  | S remaining' =>
      let* (optimized, st) := optimize_step slf optimized st in
      if any (pos_continuous slf) && bool_decide (norm_diff sample_copy optimized < 1 / 10 ^ 7)
      then Ok (optimized, st, S done_iter)
      else optimize_loop slf remaining' (S done_iter) optimized optimized st
  end.

(** [GradientOptimizer.optimize].  Besides the vector the method returns,
    the result carries the state of the sub-optimizers and the number of
    iterations of the loop. *)
Definition optimize (slf : self) (sample : vec) (max_iter : nat) (st : opt_state)
  : result (vec * opt_state * nat) :=
  let sample :=
    if negb (_within_bounds slf sample) then
      let sample := zip_with (fun x l => if decide (x < l) then l else x)
                             sample (feature_lowers (self_config slf)) in
      let sample := zip_with (fun x u => if decide (x > u) then u else x)
                             sample (feature_uppers (self_config slf)) in
      let sample := np.astype_float32 sample in
      sample
    else sample in
  optimize_loop slf max_iter 0 sample sample st.

End Optimizer.

Arguments _optimize_continuous Logger_attributes Logger_within_bounds {opt_state}
  opt_con_get_update slf sample st.
Arguments _optimize_discrete {opt_state} opt_dis_get_update slf sample st.
Arguments _optimize_categorical {opt_state} opt_cat_get_update slf sample st.
Arguments optimize_step Logger_attributes Logger_within_bounds {opt_state}
  opt_con_get_update opt_dis_get_update opt_cat_get_update slf optimized st.
Arguments optimize_loop Logger_attributes Logger_within_bounds {opt_state}
  opt_con_get_update opt_dis_get_update opt_cat_get_update
  slf remaining done_iter sample_copy optimized st.
Arguments optimize Logger_attributes Logger_within_bounds {opt_state}
  opt_con_get_update opt_dis_get_update opt_cat_get_update slf sample max_iter st.

(** *** [set_func] *)

(** [a[mask]] with a boolean array [mask]: the entries of [a] at the
    positions where [mask] holds; the lengths must agree. *)
Fixpoint select_mask {A} (a : list A) (mask : list bool) : list A :=
  match a, mask with
  | x :: a', b :: mask' => if b then x :: select_mask a' mask' else select_mask a' mask'
  | _, _ => []
  end.

Definition mask_index {A} (a : list A) (mask : list bool) : result (list A) :=
  if decide (length mask = length a) then Ok (select_mask a mask) else Raise IndexError.

(** The body of the loop over [ignores] in [set_func]; the state holds the
    three copies of the masks. *)
Definition ignore_step (pos : list bool * list bool * list bool) (item : nat * bool)
  : result (list bool * list bool * list bool) :=
  let '(pos_continuous, pos_discrete, pos_categories) := pos in
  let '(ignore_index, ignore) := item in
  if ignore then
    let* pos_continuous := setitem pos_continuous ignore_index false in
    let* pos_discrete := setitem pos_discrete ignore_index false in
    let* pos_categories := setitem pos_categories ignore_index false in
    Ok (pos_continuous, pos_discrete, pos_categories)
  else Ok (pos_continuous, pos_discrete, pos_categories).

(** What [set_func] hands to the [set_func] methods of its three
    sub-optimizers, besides the kernel. *)
Record set_func_calls : Type := {
  con_pos : list nat;
  dis_pos : list nat;
  dis_highest : vec;
  cat_pos : list nat;
  cat_highest : vec
}.

(** [GradientOptimizer.set_func], up to the three calls it ends with: the
    result holds their arguments.  [feature_sizes] is
    [self.config.feature_sizes], an array of the configuration that no
    other method reads; [ignores] is [None] by default. *)
Definition set_func (slf : self) (feature_sizes : vec) (ignores : option (list bool))
  : result set_func_calls :=
  let copies := (pos_continuous slf, pos_discrete slf, pos_categories slf) in
  let* (copy_continuous, copy_discrete, copy_categories) :=
    match ignores with
    | None => Ok copies
    | Some ignores => foldlR ignore_step copies (imap pair ignores)
    end in
  let arange := seq 0 (num_features (self_config slf)) in
  let* con_pos := mask_index arange copy_continuous in
  let* dis_pos := mask_index arange copy_discrete in
  let* dis_highest := mask_index feature_sizes (pos_discrete slf) in
  let* cat_pos := mask_index arange copy_categories in
  let* cat_highest := mask_index feature_sizes (pos_categories slf) in
  Ok {| con_pos := con_pos; dis_pos := dis_pos; dis_highest := dis_highest;
        cat_pos := cat_pos; cat_highest := cat_highest |}.

End GradientOptimizer.

(** * Vocabulary of the properties *)

(** ** Selector *)

Module SelectorSpec.

(** A 3-D array has the same number of rows in each of its axis-0 entries. *)
Definition rectangular {A} (ary : list (list A)) : Prop :=
  exists n, Forall (fun row => length row = n) ary.

(** The rewards of the candidates of one strategy. *)
Definition rewards (eval_acquisition : vec -> nat -> R) (sampling_param_idx : nat)
    (samples : list vec) : vec :=
  (fun sample => exp (- eval_acquisition sample sampling_param_idx)) <$> samples.

(** What a worker that is handed [split] leaves in the dictionary. *)
Definition chunk_of (eval_acquisition : vec -> nat -> R) (sampling_param_idx : nat)
    (split : list (list vec)) : vec :=
  rewards eval_acquisition sampling_param_idx (default [] (split !! sampling_param_idx)).

(** [v] is the smallest absolute distance, in feature [j], from [proposal]
    to a point of [points], and it is attained. *)
Definition per_feature_min_distance (proposal : vec) (points : list vec) (j : nat) (v : R) : Prop :=
  (exists x p xj, x ∈ points /\ proposal !! j = Some p /\ x !! j = Some xj /\ v = Rabs (p - xj))
  /\ (forall x p xj, x ∈ points -> proposal !! j = Some p -> x !! j = Some xj -> v <= Rabs (p - xj)).



(** The order of the rows of [np.unique]. *)
Definition row_le (a b : vec) : Prop := Is_true (np.row_leb a b).

(** A candidate that lies, in the normalised parameters, within a squared
    distance of [1e-8] of an observed sample. *)
Definition observed_already (cfg : SampleSelector.config) (obs_params : list vec)
    (proposal : vec) : Prop :=
  exists o, o ∈ obs_params
    /\ np.sum ((fun d => d ^ 2)
                 <$> np.sub (SampleSelector.normalise cfg o) (SampleSelector.normalise cfg proposal))
       < 1 / 10 ^ 8.

(** Acquisition values for which [np.exp] neither overflows nor rounds a
    reward to zero in double precision. *)
Definition moderate_acquisition (eval_acquisition : vec -> nat -> R) : Prop :=
  forall sample sampling_param_idx, Rabs (eval_acquisition sample sampling_param_idx) <= 700.

(** Arrays of the shapes the selector works on: [d] features with positive
    ranges and lower bounds below the upper bounds, [n] candidates for
    every strategy, at least one observation. *)
Definition well_shaped (cfg : SampleSelector.config) (d n : nat)
    (proposals : list (list vec)) (obs_params : list vec) : Prop :=
  (0 < d)%nat /\ (0 < n)%nat
  /\ length (SampleSelector.feature_ranges cfg) = d
  /\ Forall (fun r => 0 < r) (SampleSelector.feature_ranges cfg)
  /\ Forall2 Rlt (SampleSelector.param_lowers cfg) (SampleSelector.param_uppers cfg)
  /\ length (SampleSelector.param_lowers cfg) = d
  /\ Forall (fun batch_proposals : list vec =>
               length batch_proposals = n /\ Forall (fun x => length x = d) batch_proposals)
            proposals
  /\ obs_params <> []
  /\ Forall (fun o => length o = d) obs_params.

End SelectorSpec.

(** ** Sampler *)

Module SamplerSpec.
Import RandomSampler.

(** A parameter of a well-formed configuration: a known type with the
    specifics this type needs, from which NumPy can draw: at least one
    option for a categorical parameter, and for a discrete one a width
    [high - low] whose integer part is positive and within the 64-bit
    integers. *)
Definition valid_param (p : param_settings) : Prop :=
  (type p = "continuous"%string
   /\ is_Some (low (specs p)) /\ is_Some (high (specs p)))
  \/ (type p = "categorical"%string
      /\ exists opts, options (specs p) = Some opts /\ opts <> [])
  \/ (type p = "discrete"%string
      /\ exists lo hi, low (specs p) = Some lo /\ high (specs p) = Some hi
                       /\ (0 < np.trunc (hi - lo) <= 2 ^ 63)%Z).

(** A parameter [perturb] can handle: a continuous one with its bounds, a
    categorical or a discrete one. *)
Definition perturbable (p : param_settings) : Prop :=
  (type p = "continuous"%string /\ is_Some (low (specs p)) /\ is_Some (high (specs p)))
  \/ type p = "categorical"%string
  \/ type p = "discrete"%string.

(** [x] moved to the lower bound when below it, then to the upper bound
    when above it. *)
Definition clip (lo hi x : R) : R :=
  let y := if decide (x < lo) then lo else x in
  if decide (y > hi) then hi else y.

(** What holds of the entry [r] a returned vector has for the parameter
    [p], where the reference has [x]: a categorical or discrete entry is the
    reference entry in single precision, and with [scale = 0] a continuous
    entry is the reference entry in single precision, clipped to the bounds
    in single precision. *)
Definition entry_kept (scale : R) (p : param_settings) (x r : R) : Prop :=
  (type p <> "continuous"%string -> r = np.float32 x)
  /\ (type p = "continuous"%string -> scale = 0 ->
      forall lo hi, low (specs p) = Some lo -> high (specs p) = Some hi ->
        r = clip (np.float32 lo) (np.float32 hi) (np.float32 x)).

Definition entries_kept (params : list param_settings) (ref_sample : vec) (scale : R)
    (row : vec) : Prop :=
  length row = length params
  /\ forall j p x r, params !! j = Some p -> ref_sample !! j = Some x -> row !! j = Some r ->
       entry_kept scale p x r.

(** An index below [bound], as a number in single precision; up to [2^24]
    every index is such a number. *)
Definition index_below (bound : Z) (x : R) : Prop :=
  exists k : Z, (0 <= k < bound)%Z /\ x = np.float32 (IZR k)
                /\ ((bound <= 2 ^ 24)%Z -> x = IZR k).

(** Where a drawn entry of the parameter [p] lies: between the two bounds
    of a continuous parameter, cast to single precision like the entry;
    among the indices of the options of a categorical parameter; and,
    counted from zero and not from ['low'], below the integer part of the
    width of a discrete parameter. *)
Definition in_range (p : param_settings) (x : R) : Prop :=
  (type p = "continuous"%string ->
   forall lo hi, low (specs p) = Some lo -> high (specs p) = Some hi ->
                 np.float32 (Rmin lo hi) <= x <= np.float32 (Rmax lo hi))
  /\ (type p = "categorical"%string ->
      forall opts, options (specs p) = Some opts -> index_below (Z.of_nat (length opts)) x)
  /\ (type p = "discrete"%string ->
      forall lo hi, low (specs p) = Some lo -> high (specs p) = Some hi ->
                    index_below (np.trunc (hi - lo)) x).

(** An entry of a continuous parameter with ordered bounds lies within the
    bounds as the perturbation sees them, in single precision. *)
Definition within_bounds (p : param_settings) (r : R) : Prop :=
  type p = "continuous"%string ->
  forall lo hi, low (specs p) = Some lo -> high (specs p) = Some hi -> lo <= hi ->
                np.float32 lo <= r <= np.float32 hi.

(** The candidates of the first [k] rounds of a rejection loop that draws
    them with [candidate], and the generator after these rounds. *)
Fixpoint rounds {rng : Type} (candidate : rng -> result (vec * rng)) (k : nat) (g : rng)
  : result (list vec * rng) :=
  match k with
  | O => Ok ([], g)
  | S k' =>
      let* (sample, g1) := candidate g in
      let* (rest, g2) := rounds candidate k' g1 in
      Ok (sample :: rest, g2)
  end.

(** Those of the candidates on which the feasibility predicate returned the
    object [True]. *)
Definition accepted {param_dict : Type} (cfg : config param_dict)
    (constraints : param_dict -> pyobj) (candidates : list vec) : list vec :=
  filter (fun sample => constraints (sample_arrays_to_dicts cfg sample) = PyBool true)
         candidates.

(** The parameter types the sampler knows. *)
Definition known_type (param_type : string) : Prop :=
  param_type = "continuous"%string \/ param_type = "categorical"%string
  \/ param_type = "discrete"%string.

(** A continuous parameter [normal_samples] can draw for with the given
    scale: NumPy refuses a negative standard deviation. *)
Definition drawable (scale : R) (p : param_settings) : Prop :=
  type p = "continuous"%string
  /\ exists lo hi, low (specs p) = Some lo /\ high (specs p) = Some hi /\ 0 <= scale * (hi - lo).

(** An array of shape [(num, 1)] all of whose entries satisfy [P]. *)
Definition column_of (P : R -> Prop) (num : nat) (col : list vec) : Prop :=
  length col = num /\ Forall (fun row => exists x, row = [x] /\ P x) col.

End SamplerSpec.

(** ** Optimizer *)

Module OptimizerSpec.
Import GradientOptimizer.

(** The feature at index [i] is among those [set_func] is told to
    ignore. *)
Definition ignored (ignores : list bool) (i : nat) : Prop := ignores !! i = Some true.

(** The number of entries a boolean mask selects. *)
Definition count_true (mask : list bool) : nat := length (filter (fun b => b = true) mask).

(** The bounds of the configuration are ordered and as many as the entries
    of the sample. *)
Definition ordered_bounds (cfg : config) (sample : vec) : Prop :=
  length (feature_lowers cfg) = length sample
  /\ length (feature_uppers cfg) = length sample
  /\ forall i l u, feature_lowers cfg !! i = Some l -> feature_uppers cfg !! i = Some u -> l <= u.

(** The bounds of the configuration are numbers in single precision. *)
Definition float32_bounds (cfg : config) : Prop :=
  Forall (fun l => np.float32 l = l) (feature_lowers cfg)
  /\ Forall (fun u => np.float32 u = u) (feature_uppers cfg).

End OptimizerSpec.

(** * Concrete inputs *)

Module SelectorExamples.
Import SampleSelector.


(** A fully categorical space of one feature with the options 0, 1 and 2. *)
Definition categorical_config : config :=
  {| feature_ranges := [2]; param_lowers := [0]; param_uppers := [2];
     parameters := ["categorical"%string]; get_num_cpus := CpusInt 1 |}.

Definition categorical_selector : self :=
  __init__ 8 categorical_config (Some [[0]; [1]; [2]]).

(** Two strategies with one candidate each, and the values of their
    sampling parameter. *)
Definition one_candidate_each : list (list vec) := [[[0]]; [[1]]].
Definition two_strategies : list R := [-1; 1].

(** The same candidates with the strategies exchanged, one strategy with
    the two candidates, and a generator without state whose permutations
    are the identity. *)
Definition swapped_candidates : list (list vec) := [[[1]]; [[0]]].
Definition two_candidates : list (list vec) := [[[0]; [1]]].
(** One strategy with three candidates, of which the second and the third
    lie equally far from the observation [[2]], and one strategy whose
    first candidate is that observation. *)
Definition three_candidates : list (list vec) := [[[1]; [0]; [4]]].
Definition observed_first : list (list vec) := [[[2]; [0]]].
Definition identity_permutation (n : nat) (g : unit) : list nat * unit := (seq 0 n, g).

(** A space with a continuous and a discrete feature. *)
Definition mixed_config : config :=
  {| feature_ranges := [1; 4]; param_lowers := [0; 0]; param_uppers := [1; 4];
     parameters := ["continuous"%string; "discrete"%string]; get_num_cpus := CpusInt 1 |}.

End SelectorExamples.

Module SamplerExamples.
Import RandomSampler.

(** A sampler over one continuous parameter on [[0, 1]] whose generator
    yields 3/4 first and 1/4 from then on; the state of the generator counts
    the draws.  The feasibility predicate sees the sample itself. *)
Definition example_random_sample (g : nat) : R * nat :=
  (match g with O => 3 / 4 | S _ => 1 / 4 end, S g).
Definition example_random_int (bound : R) (g : nat) : R * nat := (0, S g).

Definition unit_interval : param_settings :=
  {| type := "continuous";
     specs := {| low := Some 0; high := Some 1; options := None |} |}.

Definition example_config : config vec :=
  {| parameters := [unit_interval]; sample_arrays_to_dicts := fun sample => sample |}.

(** feasible: the lower half of the interval *)
Definition lower_half (param : vec) : pyobj := PyBool (bool_decide (np.sum param < 1 / 2)).
(** the same region, reported as a NumPy boolean *)
Definition lower_half_numpy (param : vec) : pyobj := NumpyBool (bool_decide (np.sum param < 1 / 2)).

(** A configuration with a parameter of each type: a continuous one on
    [[0, 1]], a categorical one with three options and a discrete one on
    [[5, 10]]. *)
Definition three_options : param_settings :=
  {| type := "categorical";
     specs := {| low := None; high := None; options := Some ["A"; "B"; "C"]%string |} |}.
Definition five_to_ten : param_settings :=
  {| type := "discrete";
     specs := {| low := Some 5; high := Some 10; options := None |} |}.

Definition mixed_config : config vec :=
  {| parameters := [unit_interval; three_options; five_to_ten];
     sample_arrays_to_dicts := fun sample => sample |}.
Definition mixed_sampler : self vec := __init__ mixed_config None.

(** Configurations with a parameter of the unknown type ['ordinal'], alone
    and after the unit interval, and one that starts with the categorical
    parameter. *)
Definition ordinal_param : param_settings :=
  {| type := "ordinal";
     specs := {| low := Some 0; high := Some 1; options := None |} |}.
Definition ordinal_first_sampler : self vec :=
  __init__ {| parameters := [ordinal_param]; sample_arrays_to_dicts := fun sample => sample |}
           None.
Definition ordinal_second_sampler : self vec :=
  __init__ {| parameters := [unit_interval; ordinal_param];
              sample_arrays_to_dicts := fun sample => sample |} None.
Definition categorical_first_sampler : self vec :=
  __init__ {| parameters := [three_options; unit_interval];
              sample_arrays_to_dicts := fun sample => sample |} None.

(** A normal generator that always yields one standard deviation, and the
    [draw] methods of samplers a logger does not have. *)
Definition example_standard_normal (g : nat) : R * nat := (1, S g).
Definition no_categorical_draw (num_options num : nat) (g : nat) : result (list vec * nat) :=
  Raise AttributeError.
Definition no_discrete_draw (low high : R) (num : nat) (g : nat) : result (list vec * nat) :=
  Raise AttributeError.

(** A sampler over one continuous parameter on [[0, 0.3]]. *)
Definition three_tenths_interval : param_settings :=
  {| type := "continuous";
     specs := {| low := Some 0; high := Some (3 / 10); options := None |} |}.
Definition three_tenths_sampler : self vec :=
  __init__ {| parameters := [three_tenths_interval];
              sample_arrays_to_dicts := fun sample => sample |} None.

(** A sampler over one discrete parameter with [2^25] values. *)
Definition wide_discrete : param_settings :=
  {| type := "discrete";
     specs := {| low := Some 0; high := Some 33554432; options := None |} |}.
Definition wide_discrete_sampler : self vec :=
  __init__ {| parameters := [wide_discrete]; sample_arrays_to_dicts := fun sample => sample |}
           None.

(** feasible: every sample *)
Definition everywhere (param : vec) : pyobj := PyBool true.
(** the same, reported as a NumPy boolean *)
Definition everywhere_numpy (param : vec) : pyobj := NumpyBool true.
Definition accepting_sampler : self vec := __init__ example_config (Some everywhere).
Definition accepting_sampler_numpy : self vec := __init__ example_config (Some everywhere_numpy).

Definition example_sampler : self vec := __init__ example_config (Some lower_half).
Definition example_sampler_numpy : self vec := __init__ example_config (Some lower_half_numpy).
Definition unconstrained_sampler : self vec := __init__ example_config None.

End SamplerExamples.

Module OptimizerExamples.
Import GradientOptimizer.

(** A space with one continuous feature on [[0, 1]], and one with a single
    feature of a type the optimizer does not know. *)
Definition continuous_config : config :=
  {| num_features := 1; feature_types := ["continuous"%string];
     feature_names := ["x0"%string]; feature_lowers := [0]; feature_uppers := [1] |}.
Definition continuous_optimizer : self :=
  {| self_config := continuous_config; pos_continuous := [true];
     pos_categories := [false]; pos_discrete := [false] |}.

(** One continuous feature on [[0, 0.3]]. *)
Definition three_tenths_config : config :=
  {| num_features := 1; feature_types := ["continuous"%string];
     feature_names := ["x0"%string]; feature_lowers := [0]; feature_uppers := [3 / 10] |}.
Definition three_tenths_optimizer : self :=
  {| self_config := three_tenths_config; pos_continuous := [true];
     pos_categories := [false]; pos_discrete := [false] |}.

Definition ordinal_config : config :=
  {| num_features := 1; feature_types := ["ordinal"%string];
     feature_names := ["x0"%string]; feature_lowers := [0]; feature_uppers := [1] |}.
Definition ordinal_optimizer : self :=
  {| self_config := ordinal_config; pos_continuous := [false];
     pos_categories := [false]; pos_discrete := [false] |}.

(** A space with a continuous, a categorical and a discrete feature, the
    same with a feature of the unknown type ['ordinal'] among them, and a
    configuration that lists two feature types for one feature. *)
Definition three_features_config : config :=
  {| num_features := 3;
     feature_types := ["continuous"; "categorical"; "discrete"]%string;
     feature_names := ["x0"; "x1"; "x2"]%string;
     feature_lowers := [0; 0; 0]; feature_uppers := [1; 2; 4] |}.
Definition three_features_optimizer : self :=
  {| self_config := three_features_config; pos_continuous := [true; false; false];
     pos_categories := [false; true; false]; pos_discrete := [false; false; true] |}.
Definition four_features_config : config :=
  {| num_features := 4;
     feature_types := ["continuous"; "ordinal"; "categorical"; "discrete"]%string;
     feature_names := ["x0"; "x1"; "x2"; "x3"]%string;
     feature_lowers := [0; 0; 0; 0]; feature_uppers := [1; 1; 2; 4] |}.
Definition overfull_config : config :=
  {| num_features := 1; feature_types := ["continuous"; "discrete"]%string;
     feature_names := ["x0"; "x1"]%string; feature_lowers := [0]; feature_uppers := [1] |}.

(** Attribute names of a logger: what the sources use of their base class. *)
Definition logger_attributes : list string :=
  ["verbosity"; "console"; "log"]%string.
(** The same for a logger that also stores its name as [template]. *)
Definition logger_attributes_with_template : list string :=
  ["template"; "verbosity"; "console"; "log"]%string.

(** A continuous update that moves the sample by one tenth, and updates that
    leave the sample as it is. *)
Definition step_tenth (sample : vec) (st : unit) : vec * unit :=
  ((fun x => x + 1 / 10) <$> sample, st).
Definition no_update (sample : vec) (st : unit) : vec * unit := (sample, st).

End OptimizerExamples.

(** * Properties *)

(** ** Single precision *)

Section Binary.

Lemma pow2_pos (e : Z) : 0 < powerRZ 2 e.
Proof. apply powerRZ_lt. lra. Qed.

Lemma pow2_add (a b : Z) : powerRZ 2 (a + b) = powerRZ 2 a * powerRZ 2 b.
Proof. apply powerRZ_add. lra. Qed.

Lemma pow2_opp (a : Z) : powerRZ 2 (- a) = / powerRZ 2 a.
Proof. apply powerRZ_neg'. Qed.

Lemma pow2_cancel (a : Z) : powerRZ 2 (- a) * powerRZ 2 a = 1.
Proof. rewrite <- pow2_add. by replace (- a + a)%Z with 0%Z by lia. Qed.

Lemma pow2_IZR (n : Z) : (0 <= n)%Z -> powerRZ 2 n = IZR (2 ^ n).
Proof.
  intros Hn. rewrite <- (Z2Nat.id n) by done.
  rewrite <- pow_powerRZ. by rewrite pow_IZR.
Qed.

Lemma pow2_ge_1 (n : Z) : (0 <= n)%Z -> 1 <= powerRZ 2 n.
Proof.
  intros Hn. rewrite pow2_IZR by done. apply IZR_le.
  pose proof (Z.pow_pos_nonneg 2 n). lia.
Qed.

Lemma pow2_le (a b : Z) : (a <= b)%Z -> powerRZ 2 a <= powerRZ 2 b.
Proof.
  intros Hab. replace b with (a + (b - a))%Z by lia. rewrite pow2_add.
  pose proof (pow2_pos a). pose proof (pow2_ge_1 (b - a) ltac:(lia)). nra.
Qed.

Lemma pow2_lt (a b : Z) : (a < b)%Z -> powerRZ 2 a < powerRZ 2 b.
Proof.
  intros Hab. replace b with (a + 1 + (b - a - 1))%Z by lia.
  rewrite (pow2_add (a + 1)), (pow2_add a).
  pose proof (pow2_pos a). pose proof (pow2_ge_1 (b - a - 1) ltac:(lia)).
  rewrite (powerRZ_1 2 : powerRZ 2 1 = 2).
  generalize dependent (powerRZ 2 (b - a - 1)). generalize dependent (powerRZ 2 a).
  intros P HP S HS. nra.
Qed.

Lemma pow2_lt_inv (a b : Z) : powerRZ 2 a < powerRZ 2 b -> (a < b)%Z.
Proof.
  intros Hlt. destruct (Z.lt_ge_cases a b) as [|Hge]; [done|].
  apply pow2_le in Hge. lra.
Qed.

(** *** Rounding to the nearest integer *)

Lemma rint_IZR (n : Z) : np.rint (IZR n) = n.
Proof.
  unfold np.rint. rewrite ZfloorZ. rewrite decide_True; [done|lra].
Qed.

Lemma rint_bounds (x : R) : (Zfloor x <= np.rint x <= Zfloor x + 1)%Z.
Proof. unfold np.rint. repeat case_decide; try destruct (Z.even _); lia. Qed.

Lemma rint_le (x y : R) : x <= y -> (np.rint x <= np.rint y)%Z.
Proof.
  intros Hxy. pose proof (Zfloor_le x y Hxy) as Hf.
  destruct (Z.eq_dec (Zfloor x) (Zfloor y)) as [Heq|Hne].
  - unfold np.rint. rewrite <- Heq.
    repeat case_decide; try destruct (Z.even _); try lia; lra.
  - pose proof (rint_bounds x). pose proof (rint_bounds y). lia.
Qed.

Lemma rint_near (x : R) (n : Z) : IZR n - 1 / 2 < x < IZR n + 1 / 2 -> np.rint x = n.
Proof.
  intros [Hl Hu]. unfold np.rint.
  destruct (Rle_lt_dec (IZR n) x) as [Hge|Hlt].
  - rewrite (Zfloor_eq n x) by lra. rewrite decide_True; [done|lra].
  - rewrite (Zfloor_eq (n - 1) x) by (rewrite minus_IZR; lra).
    rewrite minus_IZR. rewrite decide_False by lra. rewrite decide_True by lra. lia.
Qed.

Lemma rint_opp (x : R) : np.rint (- x) = (- np.rint x)%Z.
Proof.
  pose proof (Zfloor_bound x) as [Hl Hu].
  destruct (Req_dec_T x (IZR (Zfloor x))) as [Heq|Hne].
  - rewrite Heq, <- opp_IZR, !rint_IZR. done.
  - assert (Hf : Zfloor (- x) = (- Zfloor x - 1)%Z).
    { apply Zfloor_eq. rewrite minus_IZR, opp_IZR. lra. }
    unfold np.rint. rewrite Hf, minus_IZR, opp_IZR.
    replace (- Zfloor x - 1)%Z with (- (Zfloor x + 1))%Z by lia.
    rewrite Z.even_opp.
    replace (Zfloor x + 1)%Z with (Z.succ (Zfloor x)) by lia.
    rewrite Z.even_succ, <- Z.negb_even.
    repeat case_decide; try destruct (Z.even (Zfloor x)); cbn; try lia; lra.
Qed.

Lemma rint_tie (n : Z) : np.rint (IZR n + 1 / 2) = if Z.even n then n else (n + 1)%Z.
Proof.
  unfold np.rint. rewrite (Zfloor_eq n) by lra.
  rewrite decide_False by lra. by rewrite decide_False by lra.
Qed.

(** *** The binary exponent *)

Lemma ln2_pos : 0 < ln 2.
Proof. pose proof ln_lt_2. lra. Qed.

Lemma pow2_exp (e : Z) : powerRZ 2 e = exp (IZR e * ln 2).
Proof. rewrite powerRZ_Rpower by lra. done. Qed.

Lemma mag_spec (x : R) : x <> 0 -> powerRZ 2 (np.mag x - 1) <= Rabs x < powerRZ 2 (np.mag x).
Proof.
  intros Hx. unfold np.mag.
  set (L := ln (Rabs x) / ln 2).
  pose proof (archimed L) as [Hup1 Hup2].
  pose proof ln2_pos as Hln2.
  assert (Habs : 0 < Rabs x) by by apply Rabs_pos_lt.
  assert (HL : L * ln 2 = ln (Rabs x)) by (unfold L; field; lra).
  rewrite !pow2_exp, minus_IZR.
  rewrite <- (exp_ln (Rabs x)) at 1 2 by done. rewrite <- HL.
  split.
  - destruct (Req_dec_T ((IZR (up L) - 1) * ln 2) (L * ln 2)) as [->|Hne]; [lra|].
    left. apply exp_increasing. nra.
  - apply exp_increasing. nra.
Qed.

Lemma mag_unique (x : R) (e : Z) :
  powerRZ 2 (e - 1) <= Rabs x < powerRZ 2 e -> np.mag x = e.
Proof.
  intros [Hl Hu].
  assert (Hx : x <> 0).
  { intros ->. rewrite Rabs_R0 in Hl. pose proof (pow2_pos (e - 1)). lra. }
  destruct (mag_spec x Hx) as [Hl' Hu'].
  assert (e - 1 < np.mag x)%Z by (apply pow2_lt_inv; lra).
  assert (np.mag x - 1 < e)%Z by (apply pow2_lt_inv; lra).
  lia.
Qed.

Lemma mag_opp (x : R) : np.mag (- x) = np.mag x.
Proof. unfold np.mag. by rewrite Rabs_Ropp. Qed.

Lemma mag_le (x y : R) : 0 < x -> x <= y -> (np.mag x <= np.mag y)%Z.
Proof.
  intros Hx Hxy.
  destruct (mag_spec x ltac:(lra)) as [Hl _]. destruct (mag_spec y ltac:(lra)) as [_ Hu].
  rewrite Rabs_pos_eq in Hl, Hu by lra.
  assert (np.mag x - 1 < np.mag y)%Z by (apply pow2_lt_inv; lra). lia.
Qed.

(** *** Rounding to single precision *)

Lemma float32_0 : np.float32 0 = 0.
Proof. unfold np.float32. rewrite Rmult_0_l, rint_IZR. lra. Qed.

Lemma float32_opp (x : R) : np.float32 (- x) = - np.float32 x.
Proof.
  unfold np.float32, np.float32_exponent. rewrite mag_opp.
  rewrite <- Ropp_mult_distr_l, rint_opp, opp_IZR. lra.
Qed.

Lemma float32_nonneg (x : R) : 0 <= x -> 0 <= np.float32 x.
Proof.
  intros Hx. unfold np.float32. set (e := np.float32_exponent x).
  pose proof (pow2_pos e). pose proof (pow2_pos (- e)).
  assert (0 <= np.rint (x * powerRZ 2 (- e)))%Z.
  { rewrite <- (rint_IZR 0). apply rint_le. nra. }
  apply IZR_le in H1. nra.
Qed.

(** A number with at most 24 binary digits above the smallest exponent is
    left as it is. *)
Lemma float32_representable (m e : Z) :
  (Z.abs m < 2 ^ 24)%Z -> (-149 <= e)%Z ->
  np.float32 (IZR m * powerRZ 2 e) = IZR m * powerRZ 2 e.
Proof.
  intros Hm He.
  destruct (Z.eq_dec m 0%Z) as [->|Hm0]; [rewrite Rmult_0_l; apply float32_0|].
  set (x := IZR m * powerRZ 2 e).
  pose proof (pow2_pos e) as Hpe.
  assert (Hx : x <> 0).
  { unfold x. apply Rmult_integral_contrapositive_currified; [|lra].
    intros H0. by apply eq_IZR in H0. }
  assert (Habs : Rabs x < powerRZ 2 (e + 24)).
  { unfold x. rewrite Rabs_mult, (Rabs_pos_eq (powerRZ 2 e)) by lra.
    rewrite <- abs_IZR, pow2_add, Rmult_comm.
    apply Rmult_lt_compat_l; [done|]. rewrite pow2_IZR by lia. by apply IZR_lt. }
  destruct (mag_spec x Hx) as [Hl _].
  assert (Hmag : (np.mag x - 1 < e + 24)%Z) by (apply pow2_lt_inv; lra).
  unfold np.float32. fold x.
  set (fe := np.float32_exponent x).
  assert (Hfe : (fe <= e)%Z) by (unfold fe, np.float32_exponent; lia).
  assert (Hint : x * powerRZ 2 (- fe) = IZR (m * 2 ^ (e - fe))).
  { unfold x. rewrite mult_IZR, <- pow2_IZR by lia.
    rewrite Rmult_assoc, <- pow2_add. by replace (e + - fe)%Z with (e - fe)%Z by lia. }
  rewrite Hint, rint_IZR, <- Hint. rewrite Rmult_assoc, pow2_cancel. lra.
Qed.

Lemma float32_IZR (n : Z) : (Z.abs n <= 2 ^ 24)%Z -> np.float32 (IZR n) = IZR n.
Proof.
  intros Hn. destruct (Z.eq_dec (Z.abs n) (2 ^ 24)%Z) as [Heq|Hne].
  - assert (Hn' : n = (2 ^ 23 * 2)%Z \/ n = (- 2 ^ 23 * 2)%Z) by lia.
    destruct Hn' as [-> | ->]; rewrite mult_IZR;
      replace (IZR 2) with (powerRZ 2 1) by apply (powerRZ_1 2); apply float32_representable; lia.
  - rewrite <- (Rmult_1_r (IZR n)). change 1 with (powerRZ 2 0).
    apply float32_representable; lia.
Qed.

(** The value of [float32] from the binade of its argument. *)
Lemma float32_eval (x : R) (k n : Z) :
  powerRZ 2 (k - 1) <= Rabs x < powerRZ 2 k ->
  IZR n - 1 / 2 < x * powerRZ 2 (- Z.max (k - 24) (-149)) < IZR n + 1 / 2 ->
  np.float32 x = IZR n * powerRZ 2 (Z.max (k - 24) (-149)).
Proof.
  intros Hk Hn. unfold np.float32, np.float32_exponent.
  rewrite (mag_unique x k Hk). by rewrite (rint_near _ n Hn).
Qed.

(** The same for an argument half way between two neighbours. *)
Lemma float32_eval_tie (x : R) (k n : Z) :
  powerRZ 2 (k - 1) <= Rabs x < powerRZ 2 k ->
  x * powerRZ 2 (- Z.max (k - 24) (-149)) = IZR n + 1 / 2 ->
  np.float32 x
  = IZR (if Z.even n then n else (n + 1)%Z) * powerRZ 2 (Z.max (k - 24) (-149)).
Proof.
  intros Hk Hn. unfold np.float32, np.float32_exponent.
  rewrite (mag_unique x k Hk). by rewrite Hn, rint_tie.
Qed.

(** Every value of [float32] has at most 24 binary digits. *)
Lemma float32_format (x : R) :
  exists m e, np.float32 x = IZR m * powerRZ 2 e /\ (Z.abs m <= 2 ^ 24)%Z /\ (-149 <= e)%Z.
Proof.
  destruct (Req_dec_T x 0) as [->|Hx].
  { exists 0%Z, 0%Z. rewrite float32_0. split; [lra|lia]. }
  exists (np.rint (x * powerRZ 2 (- np.float32_exponent x))), (np.float32_exponent x).
  split; [done|]. split; [|unfold np.float32_exponent; lia].
  set (fe := np.float32_exponent x).
  destruct (mag_spec x Hx) as [_ Hu].
  pose proof (pow2_pos (- fe)) as Hp.
  assert (Hb : Rabs (x * powerRZ 2 (- fe)) <= IZR (2 ^ 24)).
  { rewrite Rabs_mult, (Rabs_pos_eq (powerRZ 2 (- fe))) by lra.
    rewrite <- pow2_IZR by lia.
    apply Rle_trans with (powerRZ 2 (np.mag x) * powerRZ 2 (- fe)); [nra|].
    rewrite <- pow2_add. apply pow2_le. unfold fe, np.float32_exponent. lia. }
  assert (- IZR (2 ^ 24) <= x * powerRZ 2 (- fe) <= IZR (2 ^ 24)) as [Hb1 Hb2].
  { revert Hb. unfold Rabs. destruct (Rcase_abs _); lra. }
  apply Z.abs_le. split.
  - rewrite <- (rint_IZR (- 2 ^ 24)). apply rint_le. by rewrite opp_IZR.
  - rewrite <- (rint_IZR (2 ^ 24)). by apply rint_le.
Qed.

Lemma float32_idempotent (x : R) : np.float32 (np.float32 x) = np.float32 x.
Proof.
  destruct (float32_format x) as (m & e & -> & Hm & He).
  destruct (Z.eq_dec (Z.abs m) (2 ^ 24)%Z) as [Heq|Hne].
  - assert (Hm' : m = (2 ^ 23 * 2)%Z \/ m = (- 2 ^ 23 * 2)%Z) by lia.
    assert (Hstep : forall a : Z, IZR (a * 2) * powerRZ 2 e = IZR a * powerRZ 2 (e + 1)).
    { intros a. rewrite mult_IZR, pow2_add. rewrite (powerRZ_1 2 : powerRZ 2 1 = 2). lra. }
    destruct Hm' as [-> | ->]; rewrite Hstep; apply float32_representable; lia.
  - apply float32_representable; lia.
Qed.

Lemma float32_exponent_le (x y : R) :
  0 < x -> x <= y -> (np.float32_exponent x <= np.float32_exponent y)%Z.
Proof.
  intros Hx Hxy. pose proof (mag_le x y Hx Hxy). unfold np.float32_exponent. lia.
Qed.

Lemma float32_le_pos (x y : R) : 0 < x -> x <= y -> np.float32 x <= np.float32 y.
Proof.
  intros Hx Hxy.
  pose proof (float32_exponent_le x y Hx Hxy) as Hexp.
  unfold np.float32.
  set (ex := np.float32_exponent x) in *. set (ey := np.float32_exponent y) in *.
  destruct (Z.eq_dec ex ey) as [Heq|Hne].
  - rewrite <- Heq. pose proof (pow2_pos ex). pose proof (pow2_pos (- ex)).
    apply Rmult_le_compat_r; [lra|]. apply IZR_le, rint_le. nra.
  - assert (Hey : ey = (np.mag y - 24)%Z) by (unfold ex, ey, np.float32_exponent in *; lia).
    assert (Hmag : (np.mag x < np.mag y)%Z) by (unfold ex, ey, np.float32_exponent in *; lia).
    destruct (mag_spec x ltac:(lra)) as [_ Hxu]. destruct (mag_spec y ltac:(lra)) as [Hyl _].
    rewrite Rabs_pos_eq in Hxu, Hyl by lra.
    set (b := powerRZ 2 (np.mag y - 1)) in *.
    apply Rle_trans with b.
    + (* float32 x <= b *)
      assert (Hb : b = IZR (2 ^ (np.mag y - 1 - ex)) * powerRZ 2 ex).
      { rewrite <- pow2_IZR by lia. rewrite <- pow2_add. unfold b. f_equal. lia. }
      rewrite Hb. pose proof (pow2_pos ex). pose proof (pow2_pos (- ex)).
      apply Rmult_le_compat_r; [lra|]. apply IZR_le.
      rewrite <- (rint_IZR (2 ^ _)). apply rint_le.
      assert (Hxb : x <= b).
      { apply Rle_trans with (powerRZ 2 (np.mag x)); [lra|]. apply pow2_le. lia. }
      rewrite Hb in Hxb.
      apply Rmult_le_reg_r with (powerRZ 2 ex); [done|].
      rewrite Rmult_assoc, pow2_cancel. lra.
    + (* b <= float32 y *)
      assert (Hb : b = IZR (2 ^ 23) * powerRZ 2 ey).
      { rewrite <- pow2_IZR by lia. rewrite <- pow2_add. unfold b. f_equal. lia. }
      rewrite Hb. pose proof (pow2_pos ey). pose proof (pow2_pos (- ey)).
      apply Rmult_le_compat_r; [lra|]. apply IZR_le.
      rewrite <- (rint_IZR (2 ^ 23)) at 1. apply rint_le.
      rewrite Hb in Hyl.
      apply Rmult_le_reg_r with (powerRZ 2 ey); [done|].
      rewrite Rmult_assoc, pow2_cancel. lra.
Qed.

(** Rounding keeps the order. *)
Lemma float32_le (x y : R) : x <= y -> np.float32 x <= np.float32 y.
Proof.
  intros Hxy.
  destruct (Rlt_le_dec 0 x) as [Hx|Hx].
  - by apply float32_le_pos.
  - destruct (Rle_lt_dec 0 y) as [Hy|Hy].
    + pose proof (float32_nonneg y Hy).
      pose proof (float32_nonneg (- x) ltac:(lra)) as Hnx. rewrite float32_opp in Hnx. lra.
    + pose proof (float32_le_pos (- y) (- x) ltac:(lra) ltac:(lra)) as Hle.
      rewrite !float32_opp in Hle. lra.
Qed.

End Binary.

(** *** Values of the cast *)

Lemma pow2_value (z v : Z) :
  (match z with Z0 => 1 | Zpos p => 2 ^ Zpos p | Zneg p => 2 ^ Zpos p end)%Z = v ->
  powerRZ 2 z = match z with Zneg _ => / IZR v | _ => IZR v end.
Proof.
  intros <-. destruct z as [|p|p].
  - done.
  - by apply pow2_IZR.
  - change (Z.neg p) with (- Z.pos p)%Z. rewrite pow2_opp. f_equal. by apply pow2_IZR.
Qed.

(** Replaces the powers of two with closed exponents by their values. *)
Ltac pow2_values :=
  repeat match goal with
  | |- context [powerRZ 2 ?z] =>
      let z' := eval vm_compute in z in
      let v := eval vm_compute in
        (match z' with Z0 => 1 | Zpos p => 2 ^ Zpos p | Zneg p => 2 ^ Zpos p end)%Z in
      change z with z'; rewrite (pow2_value z' v eq_refl); cbv iota
  end.

(** A number written with at most 24 binary digits is its own cast. *)
Lemma float32_dyadic (x : R) (m e : Z) :
  x = IZR m * powerRZ 2 e -> (Z.abs m < 2 ^ 24)%Z -> (-149 <= e)%Z -> np.float32 x = x.
Proof. intros -> Hm He. by apply float32_representable. Qed.

(** [float32_exact m e] rewrites the cast of [m * 2^e] in the goal. *)
Ltac float32_exact m e :=
  match goal with
  | |- context [np.float32 ?x] =>
      rewrite (float32_dyadic x m e) by first [lia | pow2_values; lra]
  end.

Lemma float32_three_tenths : np.float32 (3 / 10) = 10066330 / 33554432.
Proof.
  rewrite (float32_eval (3 / 10) (-1) 10066330).
  - pow2_values. lra.
  - rewrite Rabs_pos_eq by lra. pow2_values. lra.
  - pow2_values. lra.
Qed.

Lemma float32_1 : np.float32 1 = 1.
Proof. apply (float32_IZR 1). lia. Qed.

Lemma mul32_one (x : R) : np.mul32 x (np.float32 1) = np.float32 x.
Proof.
  unfold np.mul32. rewrite !float32_1, Rmult_1_r. apply float32_idempotent.
Qed.

Lemma add32_zero (x : R) : np.add32 x 0 = np.float32 x.
Proof.
  unfold np.add32. rewrite float32_0, Rplus_0_r. apply float32_idempotent.
Qed.

Lemma mul32_zero (y : R) : np.mul32 0 y = 0.
Proof. unfold np.mul32. by rewrite float32_0, Rmult_0_l, float32_0. Qed.

(** *** The integer part *)

Lemma trunc_IZR (n : Z) : np.trunc (IZR n) = n.
Proof.
  unfold np.trunc. case_decide.
  - apply ZfloorZ.
  - rewrite <- opp_IZR, ZfloorZ. lia.
Qed.

Lemma trunc_positive (x : R) : (0 < np.trunc x)%Z <-> 1 <= x.
Proof.
  unfold np.trunc. case_decide as Hx.
  - pose proof (Zfloor_bound x) as [Hl Hu]. split.
    + intros Hpos. assert (H1 : (1 <= Zfloor x)%Z) by lia. apply IZR_le in H1. lra.
    + intros H1. assert (1 <= Zfloor x)%Z by (apply Zfloor_lub; lra). lia.
  - split; [|lra]. intros Hpos.
    assert (0 <= Zfloor (- x))%Z by (apply Zfloor_lub; lra). lia.
Qed.



(** ** Results and loops *)

Section ResultFacts.
Context {A B : Type}.

Lemma mapR_ext_in (f g : A -> result B) (xs : list A) :
  (forall x, x ∈ xs -> f x = g x) -> mapR f xs = mapR g xs.
Proof.
  induction xs as [|x xs IH]; intros Hfg; [done|].
  cbn. rewrite Hfg by left. rewrite IH; [done|].
  intros y Hy. apply Hfg. by right.
Qed.

Lemma mapR_total (f : A -> result B) (g : A -> B) (xs : list A) :
  (forall x, x ∈ xs -> f x = Ok (g x)) -> mapR f xs = Ok (g <$> xs).
Proof.
  induction xs as [|x xs IH]; intros Hfg; [done|].
  cbn. rewrite Hfg by left. cbn. rewrite IH; [done|].
  intros y Hy. apply Hfg. by right.
Qed.

Lemma mapR_length (f : A -> result B) (xs : list A) (ys : list B) :
  mapR f xs = Ok ys -> length ys = length xs.
Proof.
  revert ys. induction xs as [|x xs IH]; intros ys; cbn.
  - by intros [= <-].
  - destruct (f x); [|done]. cbn. destruct (mapR f xs); [|done]. cbn.
    intros [= <-]. cbn. f_equal. by apply IH.
Qed.

(** Reading the entries [i .. i + length l - 1] of a table [h] that holds
    an image of every element of [l]. *)
Lemma mapR_seq_imap (l : list A) (h : nat -> result B) (G : nat -> A -> B) (i : nat) :
  (forall j s, l !! j = Some s -> h (i + j)%nat = Ok (G (i + j)%nat s)) ->
  mapR h (seq i (length l)) = Ok (imap (fun j => G (i + j)%nat) l).
Proof.
  revert i. induction l as [|s l IH]; intros i Hh; [done|].
  cbn. rewrite <- (Nat.add_0_r i) at 1. rewrite (Hh 0%nat s) by done. cbn.
  rewrite IH.
  - cbn. do 2 f_equal. apply imap_ext. intros j y _. cbn. f_equal. lia.
  - intros j s' Hj. replace (S i + j)%nat with (i + S j)%nat by lia. by apply Hh.
Qed.

Lemma mapR_seq_lookup (l : list A) (h : nat -> result B) (G : A -> B) :
  (forall j s, l !! j = Some s -> h j = Ok (G s)) ->
  mapR h (seq 0 (length l)) = Ok (G <$> l).
Proof.
  intros Hh. rewrite (mapR_seq_imap l h (fun _ => G) 0) by done.
  f_equal. induction l as [|s l' IH] using rev_ind; [done|].
  rewrite imap_app, fmap_app. cbn. f_equal. apply IH.
  intros j s' Hj. apply Hh. by rewrite lookup_app_l by (by eapply lookup_lt_Some).
Qed.

End ResultFacts.

(** ** Splitting an array into contiguous chunks *)

Section ArraySplit.
Context {A : Type}.

Lemma sum_section_sizes (Ntotal Nsections : nat) :
  (0 < Nsections)%nat -> sum_list (np.section_sizes Ntotal Nsections) = Ntotal.
Proof.
  intros Hpos. unfold np.section_sizes.
  rewrite sum_list_with_app. fold (sum_list (replicate (Ntotal mod Nsections) (Ntotal / Nsections + 1)%nat)). fold (sum_list (replicate (Nsections - Ntotal mod Nsections) (Ntotal / Nsections)%nat)). rewrite !sum_list_replicate.
  pose proof (Nat.div_mod_eq Ntotal Nsections) as Hdm.
  pose proof (Nat.mod_upper_bound Ntotal Nsections ltac:(lia)) as Hlt.
  nia.
Qed.

Lemma length_section_sizes (Ntotal Nsections : nat) :
  (0 < Nsections)%nat -> length (np.section_sizes Ntotal Nsections) = Nsections.
Proof.
  intros Hpos. unfold np.section_sizes.
  rewrite length_app, !length_replicate.
  pose proof (Nat.mod_upper_bound Ntotal Nsections ltac:(lia)). lia.
Qed.

Lemma bounds_cons (st en : nat) (rest : list nat) :
  np.bounds (st :: en :: rest) = (st, en) :: np.bounds (en :: rest).
Proof. done. Qed.

Lemma length_bounds_cumsum (start : nat) (sizes : list nat) :
  length (np.bounds (start :: np.cumsum start sizes)) = length sizes.
Proof.
  revert start. induction sizes as [|n ns IH]; intros start; [done|].
  cbn [np.cumsum]. rewrite bounds_cons. cbn [length]. f_equal. apply IH.
Qed.

(** The chunks of a row, put back together in the order of the division
    points, are the part of the row the sizes cover. *)
Lemma concat_slices (row : list A) (start : nat) (sizes : list nat) :
  concat ((fun '(st, en) => np.slice st en row) <$> np.bounds (start :: np.cumsum start sizes))
  = take (sum_list sizes) (drop start row).
Proof.
  revert start. induction sizes as [|n ns IH]; intros start; [done|].
  cbn [np.cumsum]. rewrite bounds_cons, fmap_cons. cbn [concat].
  rewrite IH. cbn [sum_list sum_list_with Datatypes.id]. unfold np.slice.
  replace (start + n - start)%nat with n by lia.
  rewrite <- take_take_drop. f_equal. by rewrite drop_drop.
Qed.

Lemma concat_array_split (row : list A) (Nsections : nat) :
  (0 < Nsections)%nat ->
  concat ((fun '(st, en) => np.slice st en row)
            <$> np.bounds (np.div_points (length row) Nsections)) = row.
Proof.
  intros Hpos. unfold np.div_points. rewrite concat_slices.
  rewrite sum_section_sizes by done. rewrite drop_0. by rewrite firstn_all.
Qed.

Lemma length_array_split (Ntotal Nsections : nat) :
  (0 < Nsections)%nat ->
  length (np.bounds (np.div_points Ntotal Nsections)) = Nsections.
Proof.
  intros Hpos. unfold np.div_points.
  by rewrite length_bounds_cumsum, length_section_sizes.
Qed.

End ArraySplit.

(** ** The scoring step of the selector *)

Module SelectorScoring.
Import SampleSelector SelectorSpec.

Section Scoring.
Variable eval_acquisition : vec -> nat -> R.
Variable sampling_param_idx : nat.

Lemma compute_exp_objs_sequential (proposals : list (list vec)) (samples : list vec) :
  proposals !! sampling_param_idx = Some samples ->
  mapOk fst (compute_exp_objs proposals eval_acquisition sampling_param_idx 0 None)
  = Ok (rewards eval_acquisition sampling_param_idx samples).
Proof. intros Hs. unfold compute_exp_objs, getitem, mapOk. by rewrite Hs. Qed.

Lemma worker_writes (d : gmap nat vec) (job : nat * list (list vec)) :
  is_Some (job.2 !! sampling_param_idx) ->
  worker eval_acquisition sampling_param_idx d job = <[job.1 := chunk_of eval_acquisition sampling_param_idx job.2]> d.
Proof.
  intros [samples Hs]. unfold worker, compute_exp_objs, getitem, chunk_of.
  by rewrite Hs.
Qed.

Lemma workers_other (jobs : list (nat * list (list vec))) (d : gmap nat vec) (j : nat) :
  j ∉ jobs.*1 ->
  Forall (fun job => is_Some (job.2 !! sampling_param_idx)) jobs ->
  foldl (worker eval_acquisition sampling_param_idx) d jobs !! j = d !! j.
Proof.
  revert d. induction jobs as [|job jobs IH]; intros d Hj Hall; [done|].
  apply Forall_cons in Hall as [Hjob Hall].
  rewrite fmap_cons, not_elem_of_cons in Hj. destruct Hj as [Hne Hj].
  cbn [foldl]. rewrite IH by done. rewrite worker_writes by done.
  by rewrite lookup_insert_ne.
Qed.

(** Whatever the order in which the workers write, the entry of a chunk
    index is the result of the worker that was started for it. *)
Lemma workers_lookup (jobs : list (nat * list (list vec))) (d : gmap nat vec)
    (j : nat) (split : list (list vec)) :
  NoDup jobs.*1 ->
  Forall (fun job => is_Some (job.2 !! sampling_param_idx)) jobs ->
  (j, split) ∈ jobs ->
  foldl (worker eval_acquisition sampling_param_idx) d jobs !! j = Some (chunk_of eval_acquisition sampling_param_idx split).
Proof.
  revert d. induction jobs as [|job jobs IH]; intros d Hnd Hall Hin.
  { by apply elem_of_nil in Hin. }
  apply Forall_cons in Hall as [Hjob Hall].
  rewrite fmap_cons in Hnd. apply NoDup_cons in Hnd as [Hfresh Hnd].
  cbn [foldl]. apply elem_of_cons in Hin as [<-|Hin].
  - cbn in Hfresh. rewrite workers_other by done.
    rewrite worker_writes by done. cbn. by rewrite lookup_insert_eq.
  - by apply IH.
Qed.

End Scoring.

Lemma imap_pair_keys {A} (l : list A) (i : nat) :
  (imap (fun j x => ((i + j)%nat, x)) l).*1 = seq i (length l).
Proof.
  revert i. induction l as [|x l IH]; intros i; [done|].
  cbn. rewrite Nat.add_0_r. f_equal. rewrite <- IH.
  f_equal. apply imap_ext. intros j y _. cbn. f_equal. lia.
Qed.

Lemma slices_lookup {A} (ary : list (list A)) (idx st en : nat) (samples : list A) :
  ary !! idx = Some samples ->
  (np.slice st en <$> ary) !! idx = Some (np.slice st en samples).
Proof. intros Hs. by rewrite list_lookup_fmap, Hs. Qed.

Lemma array_split_rectangular {A} (ary : list (list A)) (Nsections idx : nat)
    (samples : list A) :
  (0 < Nsections)%nat ->
  rectangular ary ->
  ary !! idx = Some samples ->
  np.array_split_axis1 ary Nsections
  = Ok ((fun '(st, en) => np.slice st en <$> ary)
          <$> np.bounds (np.div_points (length samples) Nsections)).
Proof.
  intros Hpos [n Hrect] Hs. rewrite Forall_forall in Hrect.
  unfold np.array_split_axis1. destruct ary as [|row0 rest]; [done|].
  rewrite decide_False by lia.
  rewrite (Hrect samples), (Hrect row0); [done| |].
  - by left.
  - by eapply list_elem_of_lookup_2.
Qed.

Lemma parallel_exp_objs_spec schedule num_cpus proposals eval_acquisition
    sampling_param_idx samples :
  (0 < num_cpus)%nat ->
  (forall jobs, schedule jobs ≡ₚ jobs) ->
  rectangular proposals ->
  proposals !! sampling_param_idx = Some samples ->
  parallel_exp_objs schedule num_cpus proposals eval_acquisition sampling_param_idx
  = Ok ((fun sample => exp (- eval_acquisition sample sampling_param_idx)) <$> samples).
Proof.
  intros Hcpus Hsched Hrect Hs. unfold parallel_exp_objs.
  rewrite (array_split_rectangular _ _ _ _ Hcpus Hrect Hs). cbn [bindR].
  set (bnds := np.bounds (np.div_points (length samples) num_cpus)).
  set (splits := (fun '(st, en) => np.slice st en <$> proposals) <$> bnds).
  set (G := fun split : list (list vec) =>
              (fun sample => exp (- eval_acquisition sample sampling_param_idx))
                <$> default [] (split !! sampling_param_idx)).
  assert (Hsome : forall split, split ∈ splits -> is_Some (split !! sampling_param_idx)).
  { intros split Hin. apply list_elem_of_fmap in Hin as ([st en] & -> & _).
    erewrite slices_lookup by done. by eexists. }
  rewrite (mapR_seq_lookup splits _ G).
  - cbn [bindR]. f_equal. subst splits G bnds.
    rewrite <- (concat_array_split samples num_cpus) at 2 by done.
    generalize (np.bounds (np.div_points (length samples) num_cpus)).
    intros bs. induction bs as [|[st en] bs IH]; [done|].
    cbn. rewrite fmap_app, <- IH. f_equal.
    erewrite slices_lookup by done. done.
  - intros j split Hj. cbn.
    rewrite (workers_lookup _ _ _ _ _ split).
    + done.
    + rewrite Hsched.
      rewrite <- (imap_ext (fun j x => ((0 + j)%nat, x)) pair) by done.
      rewrite imap_pair_keys. apply NoDup_seq.
    + rewrite Hsched. apply Forall_forall. intros [k s] Hin.
      apply elem_of_lookup_imap in Hin as (k' & s' & [= -> ->] & Hk).
      cbn. apply Hsome. by eapply list_elem_of_lookup_2.
    + rewrite Hsched. apply elem_of_lookup_imap. by exists j, split.
Qed.


(** C4.  With more than one CPU the candidates are split into [num_cpus]
    contiguous chunks, every chunk is scored by its own worker, and the
    chunk results are concatenated by increasing chunk index; whatever the
    order in which the workers finish, the reward array is the one the
    sequential path computes, element for element: row [idx] holds
    [exp (- eval_acquisition sample idx)] for the candidates of strategy
    [idx], in their order. *)
Theorem parallel_scoring_equals_sequential
    (schedule : list (nat * list (list vec)) -> list (nat * list (list vec)))
    (num_cpus : nat) (proposals : list (list vec)) (eval_acquisition : vec -> nat -> R)
    (sampling_param_values : list R) :
  (1 < num_cpus)%nat ->
  (forall jobs, schedule jobs ≡ₚ jobs) ->
  rectangular proposals ->
  (length sampling_param_values <= length proposals)%nat ->
  _compute_exp_objs schedule num_cpus proposals eval_acquisition sampling_param_values
  = _compute_exp_objs schedule 1 proposals eval_acquisition sampling_param_values
  /\ _compute_exp_objs schedule 1 proposals eval_acquisition sampling_param_values
     = Ok (imap (fun idx samples => (fun sample => exp (- eval_acquisition sample idx)) <$> samples)
                (take (length sampling_param_values) proposals)).
Proof.
  intros Hcpus Hsched Hrect Hlen.
  assert (Hseq : _compute_exp_objs schedule 1 proposals eval_acquisition sampling_param_values
     = Ok (imap (fun idx samples => (fun sample => exp (- eval_acquisition sample idx)) <$> samples)
                (take (length sampling_param_values) proposals))).
  { unfold _compute_exp_objs.
    replace (length sampling_param_values)
      with (length (take (length sampling_param_values) proposals)) at 1
      by (rewrite length_take; lia).
    rewrite (mapR_seq_imap _ _
      (fun idx samples => (fun sample => exp (- eval_acquisition sample idx)) <$> samples) 0).
    - done.
    - intros j samples Hj. apply lookup_take_Some in Hj as [Hj _].
      cbn. by apply compute_exp_objs_sequential. }
  split; [|done].
  unfold _compute_exp_objs. apply mapR_ext_in. intros idx Hidx.
  apply elem_of_seq in Hidx. rewrite decide_True by done.
  destruct (lookup_lt_is_Some_2 proposals idx ltac:(lia)) as [samples Hs].
  rewrite (parallel_exp_objs_spec _ _ _ _ _ samples) by (done || lia).
  by rewrite (compute_exp_objs_sequential _ _ _ samples).
Qed.

(** C4 at a concrete input: three candidates of one strategy, two workers
    that finish in reverse order. *)
Lemma parallel_scoring_witness :
  _compute_exp_objs reverse 2 [[[0]; [1]; [2]]] (fun sample _ => np.sum sample) [1]
  = _compute_exp_objs reverse 1 [[[0]; [1]; [2]]] (fun sample _ => np.sum sample) [1]
  /\ _compute_exp_objs reverse 1 [[[0]; [1]; [2]]] (fun sample _ => np.sum sample) [1]
     = Ok (imap (fun idx samples => (fun sample => exp (- np.sum sample)) <$> samples)
                (take 1 [[[0]; [1]; [2]]])).
Proof.
  apply (parallel_scoring_equals_sequential reverse 2 [[[0]; [1]; [2]]]
           (fun sample _ => np.sum sample) [1]).
  - lia.
  - intros jobs. apply reverse_Permutation.
  - exists 3%nat. repeat constructor.
  - cbn. lia.
Defined.

End SelectorScoring.

(** ** The diversity factor of the greedy pass *)

Module SelectorDiversity.
Import SampleSelector SelectorSpec SelectorExamples.

Lemma amin_axis0_cons (r : vec) (rest : list vec) :
  rest <> [] ->
  np.amin_axis0 (r :: rest) = let* m := np.amin_axis0 rest in Ok (np.minimum r m).
Proof. by destruct rest. Qed.

(** [np.amin(rows, axis=0)] of rows of one length is the column-wise
    minimum. *)
Lemma amin_axis0_spec (d : nat) (rows : list vec) :
  rows <> [] ->
  Forall (fun r => length r = d) rows ->
  exists m, np.amin_axis0 rows = Ok m /\ length m = d
    /\ forall j v, m !! j = Some v ->
         (exists r, r ∈ rows /\ r !! j = Some v)
         /\ (forall r w, r ∈ rows -> r !! j = Some w -> v <= w).
Proof.
  induction rows as [|r rest IH]; intros Hne Hall; [done|].
  apply Forall_cons in Hall as [Hr Hall].
  destruct (decide (rest = [])) as [->|Hrest].
  - exists r. split_and!; [done..|]. intros j v Hj. split.
    + exists r. split; [by left|done].
    + intros r' w Hin Hw. apply list_elem_of_singleton in Hin as ->.
      rewrite Hj in Hw. injection Hw as ->. lra.
  - destruct (IH Hrest Hall) as (m & Hm & Hlen & Hmin).
    exists (np.minimum r m). rewrite amin_axis0_cons, Hm by done.
    split_and!; [done| |].
    + unfold np.minimum. rewrite length_zip_with, Hr, Hlen. apply Nat.min_id.
    + intros j v Hj. unfold np.minimum in Hj.
      apply lookup_zip_with_Some in Hj as (a & b & -> & Ha & Hb).
      destruct (Hmin j b Hb) as [(r' & Hr' & Hjr') Hle]. split.
      * unfold Rmin. destruct (Rle_dec a b).
        -- exists r. split; [by left|done].
        -- exists r'. split; [by right|done].
      * intros r'' w Hin Hw. apply elem_of_cons in Hin as [->|Hin].
        -- rewrite Ha in Hw. injection Hw as ->. apply Rmin_l.
        -- etrans; [apply Rmin_r|]. by eapply Hle.
Qed.

(** The rows [np.abs(proposal - x)] for the points [x]. *)
Lemma abs_distance_rows (d : nat) (proposal : vec) (points : list vec) :
  length proposal = d ->
  Forall (fun x => length x = d) points ->
  Forall (fun r => length r = d) ((fun x => np.abs (np.sub proposal x)) <$> points).
Proof.
  intros Hp Hall. apply Forall_fmap. eapply Forall_impl; [done|].
  intros x Hx. cbn. unfold np.abs, np.sub. rewrite length_fmap, length_zip_with, Hp, Hx. apply Nat.min_id.
Qed.

Lemma abs_distance_lookup (proposal x : vec) (j : nat) (w : R) :
  np.abs (np.sub proposal x) !! j = Some w <->
  exists p xj, proposal !! j = Some p /\ x !! j = Some xj /\ w = Rabs (p - xj).
Proof.
  unfold np.abs, np.sub. rewrite list_lookup_fmap, fmap_Some. split.
  - intros (dj & Hdj & ->). apply lookup_zip_with_Some in Hdj as (p & xj & -> & ? & ?).
    by exists p, xj.
  - intros (p & xj & Hp & Hx & ->). exists (p - xj). split; [|done].
    apply lookup_zip_with_Some. by exists p, xj.
Qed.

(** The minimum distance of a proposal to a non-empty set of points. *)
Lemma amin_abs_distance (d : nat) (proposal : vec) (points : list vec) :
  points <> [] ->
  length proposal = d ->
  Forall (fun x => length x = d) points ->
  exists m, np.amin_axis0 ((fun x => np.abs (np.sub proposal x)) <$> points) = Ok m
    /\ length m = d
    /\ forall j v, m !! j = Some v -> per_feature_min_distance proposal points j v.
Proof.
  intros Hne Hp Hall.
  destruct (amin_axis0_spec d ((fun x => np.abs (np.sub proposal x)) <$> points))
    as (m & Hm & Hlen & Hmin).
  { by destruct points. }
  { by apply abs_distance_rows. }
  exists m. split_and!; [done..|]. intros j v Hj.
  destruct (Hmin j v Hj) as [(r & Hr & Hjr) Hle]. split.
  - apply list_elem_of_fmap in Hr as (x & -> & Hx).
    apply abs_distance_lookup in Hjr as (p & xj & ? & ? & ->). by exists x, p, xj.
  - intros x p xj Hx Hpj Hxj. apply (Hle (np.abs (np.sub proposal x))).
    + apply list_elem_of_fmap. by exists x.
    + apply abs_distance_lookup. by exists p, xj.
Qed.










Lemma exp_minus_1_lt_1 : exp (- 1) < 1.
Proof. rewrite <- exp_0. apply exp_increasing. lra. Qed.



End SelectorDiversity.

(** ** Distinct rows *)

Section UniqueRows.
Import SelectorSpec.

Lemma row_le_total : Total row_le.
Proof.
  intros a. unfold row_le. induction a as [|x a IH]; intros [|y b]; cbn; auto.
  repeat case_decide; cbn; auto; lra.
Qed.

Lemma row_le_trans : Transitive row_le.
Proof.
  intros a. unfold row_le. induction a as [|x a IH]; intros [|y b] [|z c]; cbn; try done.
  repeat case_decide; cbn; try done; try lra.
  apply IH.
Qed.

Lemma row_le_antisymm : AntiSymm (=) row_le.
Proof.
  intros a. unfold row_le. induction a as [|x a IH]; intros [|y b]; cbn; try done.
  repeat case_decide; cbn; try done; try lra.
  intros Hab Hba. f_equal; [lra|]. by apply IH.
Qed.

#[local] Existing Instances row_le_total row_le_trans row_le_antisymm.

Lemma unique_rows_Permutation (rows : list vec) :
  np.unique_rows rows ≡ₚ remove_dups rows.
Proof. unfold np.unique_rows. apply merge_sort_Permutation. Qed.

Lemma unique_rows_NoDup (rows : list vec) : NoDup (np.unique_rows rows).
Proof. rewrite unique_rows_Permutation. apply NoDup_remove_dups. Qed.

Lemma elem_of_unique_rows (rows : list vec) (x : vec) :
  x ∈ np.unique_rows rows <-> x ∈ rows.
Proof. rewrite unique_rows_Permutation. apply elem_of_remove_dups. Qed.

Lemma unique_rows_length_le (rows : list vec) :
  (length (np.unique_rows rows) <= length rows)%nat.
Proof.
  rewrite unique_rows_Permutation.
  induction rows as [|x rows IH]; cbn; [done|]. case_match; cbn; lia.
Qed.

(** [np.unique] returns the sorted list of the distinct rows. *)
Lemma unique_rows_sorted (rows l : list vec) :
  remove_dups rows ≡ₚ l -> Sorted row_le l -> np.unique_rows rows = l.
Proof.
  intros Hperm Hsorted. apply (Sorted_unique row_le); [|done|].
  - unfold np.unique_rows. apply (Sorted_merge_sort row_le).
  - by rewrite unique_rows_Permutation.
Qed.

Lemma remove_dups_cons_in {A} `{EqDecision A} (x : A) (l : list A) :
  x ∈ l -> remove_dups (x :: l) = remove_dups l.
Proof. intros Hx. cbn. by destruct (decide_rel elem_of x l). Qed.

Lemma remove_dups_cons_notin {A} `{EqDecision A} (x : A) (l : list A) :
  x ∉ l -> remove_dups (x :: l) = x :: remove_dups l.
Proof. intros Hx. cbn. by destruct (decide_rel elem_of x l). Qed.

End UniqueRows.

(** Rows of numerals are equal or differ by arithmetic. *)
Ltac row_neq := let H := fresh in intros H; simplify_eq; lra.
Ltac row_notin :=
  rewrite ?not_elem_of_cons; repeat split; solve [row_neq | apply not_elem_of_nil].
Ltac eval_delete_rows :=
  unfold SampleSelector.delete_rows;
  repeat first [ rewrite filter_nil
               | rewrite filter_cons_True by row_neq
               | rewrite filter_cons_False by (let H := fresh in intros H; by apply H) ].

(** ** The duplicate check and the back-fill of [select] *)

Module SelectorBatch.
Import SampleSelector SelectorSpec SelectorExamples.

Lemma select_two_rounds :
  _select (fun jobs => jobs) categorical_selector 2 one_candidate_each (fun _ _ => 0)
          two_strategies [[2]]
  = Ok [[0]; [1]; [0]; [1]].
Proof. vm_compute. reflexivity. Qed.

Lemma unique_two_rounds : np.unique_rows [[0]; [1]; [0]; [1]] = [[0]; [1]].
Proof.
  apply unique_rows_sorted.
  - rewrite remove_dups_cons_in by set_solver.
    rewrite remove_dups_cons_in by set_solver.
    rewrite remove_dups_cons_notin by row_notin.
    by rewrite remove_dups_cons_notin by row_notin.
  - repeat constructor. unfold row_le. cbn. rewrite decide_True by lra. done.
Qed.

(** C2 at a failing input.  Two batches are requested for two strategies
    with one candidate each: the greedy pass selects four samples, the
    duplicate check finds two distinct rows, compares that number with the
    number of strategies, and [select] returns the two distinct rows instead
    of [2 * 2] samples. *)
Theorem select_two_batches_returns_distinct_rows_only
    (rng : Type) (permutation : nat -> rng -> list nat * rng) (g : rng) :
  select permutation (fun jobs => jobs) categorical_selector 2 one_candidate_each
         (fun _ _ => 0) two_strategies [[2]] g
  = Ok ([[0]; [1]],
        {| self_config := categorical_config; all_options := Some [[2]]; num_cpus := 1 |},
        g)
  /\ length ([[0]; [1]] : list vec) <> (2 * length two_strategies)%nat.
Proof.
  split; [|cbn; lia].
  unfold select. rewrite select_two_rounds. cbn [bindR].
  change (all_options categorical_selector) with (Some [[0]; [1]; [2]]). cbn [bindR].
  rewrite decide_False by (cbn; lia).
  rewrite unique_two_rounds.
  rewrite bool_decide_eq_false_2 by (cbn; lia).
  change (forallb _ _) with true. cbn [foldl].
  by eval_delete_rows.
Qed.

(** C9.  A selector built without an option pool never returns a batch:
    when the greedy pass itself raises, so does [select]; when it succeeds,
    taking the length of the missing pool raises [TypeError].  Nothing in
    this depends on the types of the parameters. *)
Theorem select_without_option_pool_raises
    (rng : Type) (permutation : nat -> rng -> list nat * rng)
    (schedule : list (nat * list (list vec)) -> list (nat * list (list vec)))
    (cpu_count : nat) (cfg : config) (num_batches : nat) (proposals : list (list vec))
    (eval_acquisition : vec -> nat -> R) (sampling_param_values : list R)
    (obs_params : list vec) (g : rng) :
  match _select schedule (__init__ cpu_count cfg None) num_batches proposals
                eval_acquisition sampling_param_values obs_params with
  | Ok _ =>
      select permutation schedule (__init__ cpu_count cfg None) num_batches proposals
             eval_acquisition sampling_param_values obs_params g = Raise TypeError
  | Raise e =>
      select permutation schedule (__init__ cpu_count cfg None) num_batches proposals
             eval_acquisition sampling_param_values obs_params g = Raise e
  end.
Proof. unfold select. by destruct (_select _ _ _ _ _ _ _). Qed.

(** In the mixed space the greedy pass selects its sample and the call then
    fails on the missing pool. *)
Lemma select_without_option_pool_mixed_space
    (rng : Type) (permutation : nat -> rng -> list nat * rng) (g : rng) :
  _select (fun jobs => jobs) (__init__ 8 mixed_config None) 1 [[[1; 3]]] (fun _ _ => 0)
          [0] [[0; 0]] = Ok [[1; 3]]
  /\ select permutation (fun jobs => jobs) (__init__ 8 mixed_config None) 1 [[[1; 3]]]
            (fun _ _ => 0) [0] [[0; 0]] g = Raise TypeError.
Proof.
  assert (H : _select (fun jobs => jobs) (__init__ 8 mixed_config None) 1 [[[1; 3]]]
                      (fun _ _ => 0) [0] [[0; 0]] = Ok [[1; 3]])
    by (vm_compute; reflexivity).
  split; [done|].
  unfold select. by rewrite H.
Qed.

End SelectorBatch.

(** ** The repair of a single batch *)

Module SelectorRepair.
Import SampleSelector SelectorSpec.

Lemma foldlR_measure {S A} (f : S -> A -> result S) (m : S -> nat) (k : nat) (xs : list A)
    (s s' : S) :
  (forall s x s', f s x = Ok s' -> m s' = (m s + k)%nat) ->
  foldlR f s xs = Ok s' -> m s' = (m s + length xs * k)%nat.
Proof.
  intros Hf. revert s. induction xs as [|x xs IH]; intros s; cbn [foldlR length].
  - intros [= <-]. lia.
  - destruct (f s x) as [s1|e] eqn:Hfs; [|done]. cbn [bindR].
    intros Hrest. apply IH in Hrest. apply Hf in Hfs. lia.
Qed.

Lemma select_one_appends (cfg : config) (char_dists : vec) (proposals : list (list vec))
    (obs_params : list vec) (st st' : list vec * list vec) (sampling_param_idx : nat) :
  select_one cfg char_dists proposals obs_params st sampling_param_idx = Ok st' ->
  length st'.2 = (length st.2 + 1)%nat.
Proof.
  destruct st as [exp_objs selected]. unfold select_one.
  repeat (match goal with
          | |- context [bindR ?m _] => destruct m; cbn [bindR]
          end; try done).
  intros [= <-]. cbn. rewrite length_app. cbn. lia.
Qed.

(** The greedy pass selects one sample per batch and strategy. *)
Lemma _select_length schedule (slf : self) (num_batches : nat) (proposals : list (list vec))
    (eval_acquisition : vec -> nat -> R) (sampling_param_values : list R)
    (obs_params samples : list vec) :
  _select schedule slf num_batches proposals eval_acquisition sampling_param_values obs_params
  = Ok samples ->
  length samples = (num_batches * length sampling_param_values)%nat.
Proof.
  unfold _select.
  destruct (_compute_exp_objs _ _ _ _ _) as [exp_objs|]; [|done]. cbn [bindR].
  destruct (foldlR (zero_identical _ _) _ _) as [exp_objs'|]; [|done]. cbn [bindR].
  destruct (foldlR _ (exp_objs', []) _) as [st|] eqn:Hloop; [|done]. cbn [bindR].
  intros [= <-].
  apply (foldlR_measure _ (fun st => length st.2) (length sampling_param_values)) in Hloop.
  - rewrite Hloop, length_seq. done.
  - intros st0 batch_idx st1 Hinner.
    apply (foldlR_measure _ (fun st => length st.2) 1) in Hinner.
    + rewrite Hinner, length_seq. lia.
    + intros ? ? ?. apply select_one_appends.
Qed.

(** Removing samples from the option pool, one after the other, leaves the
    options that are none of them. *)
Lemma delete_rows_all (pool samples : list vec) :
  foldl delete_rows pool samples = filter (fun row => row ∉ samples) pool.
Proof.
  revert pool. induction samples as [|x samples IH]; intros pool; cbn [foldl].
  - induction pool as [|row pool IHp]; [done|].
    rewrite filter_cons_True by apply not_elem_of_nil. by f_equal.
  - rewrite IH. unfold delete_rows. rewrite list_filter_filter.
    apply list_filter_iff. intros row. rewrite not_elem_of_cons. tauto.
Qed.

(** A pool of distinct options loses at most one option per sample. *)
Lemma delete_rows_length (pool samples : list vec) :
  NoDup pool ->
  (length pool <= length (filter (fun row => row ∉ samples) pool) + length samples)%nat.
Proof.
  intros Hnd.
  rewrite <- (filter_app_complement (fun row => row ∈ samples) pool) at 1.
  rewrite length_app.
  assert (length (filter (fun row => row ∈ samples) pool) <= length samples)%nat.
  { apply submseteq_length, NoDup_submseteq; [by apply NoDup_filter|].
    intros row Hrow. by apply list_elem_of_filter in Hrow as [? _]. }
  lia.
Qed.

Section Repair.
Context {rng : Type} (permutation : nat -> rng -> list nat * rng).
Hypothesis permutation_spec : forall n g, (permutation n g).1 ≡ₚ seq 0 n.

(** [np.random.choice(a, size, replace=False)] with [0 < size <= a]:
    [size] distinct indices below [a]. *)
Lemma random_choice_spec (a size : nat) (g : rng) :
  (0 < size <= a)%nat ->
  exists indices g',
    random_choice permutation a (Z.of_nat size) g = Ok (indices, g')
    /\ length indices = size /\ NoDup indices /\ Forall (fun i => (i < a)%nat) indices.
Proof.
  intros Hsize. unfold random_choice.
  rewrite decide_False by lia. rewrite decide_False by lia. rewrite decide_False by lia.
  pose proof (permutation_spec a g) as Hperm.
  destruct (permutation a g) as [perm g']. cbn in Hperm.
  exists (take (Z.to_nat (Z.of_nat size)) perm), g'. rewrite Nat2Z.id.
  assert (Hnd : NoDup perm) by (rewrite Hperm; apply NoDup_seq).
  split_and!; [done| | |].
  - rewrite length_take. apply Permutation_length in Hperm. rewrite length_seq in Hperm. lia.
  - eapply sublist_NoDup; [exact Hnd|apply sublist_take].
  - apply Forall_forall. intros i Hi.
    apply elem_of_take in Hi as (j & Hj & _). apply list_elem_of_lookup_2 in Hj.
    rewrite Hperm in Hj. apply elem_of_seq in Hj. lia.
Qed.

(** The rows of a pool of distinct options at distinct indices. *)
Lemma rows_at_indices (options : list vec) (indices : list nat) :
  NoDup options -> NoDup indices ->
  Forall (fun i => (i < length options)%nat) indices ->
  exists rows, mapR (getitem options) indices = Ok rows
    /\ length rows = length indices /\ NoDup rows /\ (forall row, row ∈ rows -> row ∈ options).
Proof.
  intros Hopt Hind Hlt. exists ((fun i => default [] (options !! i)) <$> indices).
  assert (Hsome : forall i, i ∈ indices -> exists row, options !! i = Some row).
  { intros i Hi. rewrite Forall_forall in Hlt. by apply lookup_lt_is_Some_2, Hlt. }
  split_and!.
  - apply mapR_total. intros i Hi. destruct (Hsome i Hi) as [row Hrow].
    unfold getitem. by rewrite Hrow.
  - by rewrite length_fmap.
  - apply NoDup_fmap_2_strong; [|done]. intros i j Hi Hj.
    destruct (Hsome i Hi) as [ri Hri]. destruct (Hsome j Hj) as [rj Hrj].
    rewrite Hri, Hrj. cbn. intros Heq. subst rj.
    exact (NoDup_lookup _ _ _ _ Hopt Hri Hrj).
  - intros row Hrow. apply list_elem_of_fmap in Hrow as (i & -> & Hi).
    destruct (Hsome i Hi) as [ri Hri]. rewrite Hri. cbn.
    by eapply list_elem_of_lookup_2.
Qed.

(** X10.  On a fully categorical space, with a pool of distinct options and
    one batch, [select] does not fail once the greedy pass has succeeded: it
    returns one sample per strategy; unless the pool holds fewer options
    than there are strategies, the samples are pairwise distinct, duplicates
    of the greedy pass being replaced by options drawn from the pool; and
    the pool keeps the options that were not returned. *)
Lemma select_single_batch schedule (slf : self) (proposals : list (list vec))
    (eval_acquisition : vec -> nat -> R) (sampling_param_values : list R)
    (obs_params pool samples : list vec) (g : rng) :
  forallb (String.eqb "categorical") (parameters (self_config slf)) = true ->
  all_options slf = Some pool ->
  NoDup pool ->
  _select schedule slf 1 proposals eval_acquisition sampling_param_values obs_params
  = Ok samples ->
  exists result slf' g',
    select permutation schedule slf 1 proposals eval_acquisition sampling_param_values
           obs_params g = Ok (result, slf', g')
    /\ length result = length sampling_param_values
    /\ ((length sampling_param_values <= length pool)%nat -> NoDup result)
    /\ all_options slf' = Some (filter (fun row => row ∉ result) pool).
Proof.
  intros Hcat Hpool Hnd Hsel. unfold select. rewrite Hsel, Hpool, Hcat. cbn [bindR].
  pose proof (_select_length _ _ _ _ _ _ _ _ Hsel) as Hlen. rewrite Nat.mul_1_l in Hlen.
  case_decide as Hdegraded.
  - (* fewer options than strategies: the samples are returned as they are *)
    rewrite delete_rows_all. eexists _, _, _. split_and!; [done|done|lia|done].
  - pose proof (unique_rows_length_le samples) as Hle.
    pose proof (unique_rows_NoDup samples) as Huniq.
    rewrite delete_rows_all.
    case_bool_decide as Hdup.
    + (* duplicates: the batch is filled up from the remaining options *)
      set (unique_samples := np.unique_rows samples) in *.
      set (options := filter (fun row => row ∉ unique_samples) pool).
      pose proof (delete_rows_length pool unique_samples Hnd) as Hrest. fold options in Hrest.
      assert (Hmissing : (0 < length sampling_param_values - length unique_samples
                          <= length options)%nat) by lia.
      destruct (random_choice_spec (length options)
                  (length sampling_param_values - length unique_samples) g Hmissing)
        as (indices & g' & Hchoice & Hilen & Hind & Hilt).
      replace (Z.of_nat (length sampling_param_values) - Z.of_nat (length unique_samples))%Z
        with (Z.of_nat (length sampling_param_values - length unique_samples)) by lia.
      rewrite Hchoice. cbn [bindR].
      destruct (rows_at_indices options indices) as (missing & -> & Hmlen & Hmnd & Hmin);
        [by apply NoDup_filter|done|done|]. cbn [bindR].
      eexists _, _, _. split_and!; [done| | |].
      * rewrite length_app. lia.
      * intros _. apply NoDup_app. split_and!; [done| |done].
        intros row Hu Hm. apply Hmin in Hm. subst options.
        by apply list_elem_of_filter in Hm as [Hnot _].
      * cbn. f_equal. rewrite delete_rows_all. subst options.
        rewrite list_filter_filter. apply list_filter_iff. intros row.
        rewrite elem_of_app. tauto.
    + (* no duplicates: the distinct samples are the batch *)
      eexists _, _, _. split_and!; [done| |done|done].
      destruct (decide (length (np.unique_rows samples) = length sampling_param_values)); [done|].
      by destruct Hdup.
Qed.

End Repair.

End SelectorRepair.

(** ** The rejection loops of the sampler *)

(** What holds of every loop of the shape the two rejection loops of the
    sampler have: draw a candidate, keep it when [acceptb] says so, go on
    until [num] candidates are kept. *)
Section RejectionLoop.
Context {rng : Type}.
Variable candidate : rng -> result (vec * rng).
Variable acceptb : vec -> bool.
Variable num : nat.
Variable loop : nat -> list vec -> rng -> option (result (list vec * rng)).

Hypothesis loop_eq : forall fuel samples g,
  loop fuel samples g
  = if decide (length samples < num)%nat then
      match fuel with
      | O => None
      | S fuel' =>
          match candidate g with
          | Raise e => Some (Raise e)
          | Ok (sample, g') =>
              if acceptb sample then loop fuel' (samples ++ [sample]) g'
              else loop fuel' samples g'
          end
      end
    else Some (Ok (samples, g)).

(** A result of the loop is what it had collected followed by the accepted
    ones among the candidates of the rounds it went through. *)
Lemma loop_rounds (fuel : nat) (samples : list vec) (g : rng) (out : list vec) (g' : rng) :
  loop fuel samples g = Some (Ok (out, g')) ->
  exists k candidates,
    (k <= fuel)%nat
    /\ SamplerSpec.rounds candidate k g = Ok (candidates, g')
    /\ out = samples ++ filter (fun s => acceptb s = true) candidates
    /\ ((length samples <= num)%nat -> length out = num).
Proof.
  revert samples g. induction fuel as [|fuel IH]; intros samples g; rewrite loop_eq.
  - case_decide; [done|]. intros [= <- <-]. exists 0%nat, [].
    rewrite app_nil_r. split_and!; [lia|done|done|lia].
  - case_decide as Hlt.
    + destruct (candidate g) as [[s g1]|e] eqn:Hc; [|done].
      destruct (acceptb s) eqn:Ha; intros Hres;
        apply IH in Hres as (k & cands & Hk & Hr & -> & Hlen);
        exists (S k), (s :: cands); cbn [SamplerSpec.rounds]; rewrite Hc; cbn [bindR];
        rewrite Hr; cbn [bindR]; (split_and!; [lia|done|..]).
      * rewrite filter_cons_True by done. by rewrite <- app_assoc.
      * intros _. apply Hlen. rewrite length_app. cbn. lia.
      * by rewrite filter_cons_False by (by rewrite Ha).
      * intros _. apply Hlen. lia.
    + intros [= <- <-]. exists 0%nat, [].
      rewrite app_nil_r. split_and!; [lia|done|done|lia].
Qed.

(** Once the rounds hold enough accepted candidates the loop returns, with
    the first [num] of what it had collected and what it accepted. *)
Lemma loop_enough (k : nat) (samples : list vec) (g : rng) (candidates : list vec) (g' : rng) :
  SamplerSpec.rounds candidate k g = Ok (candidates, g') ->
  (length samples <= num)%nat ->
  (num <= length samples + length (filter (fun s => acceptb s = true) candidates))%nat ->
  exists g'',
    loop k samples g
    = Some (Ok (take num (samples ++ filter (fun s => acceptb s = true) candidates), g'')).
Proof.
  revert samples g candidates. induction k as [|k IH]; intros samples g cands;
    cbn [SamplerSpec.rounds]; rewrite loop_eq.
  - intros [= <- <-] Hle Hge. cbn in Hge. rewrite decide_False by lia.
    exists g. rewrite app_nil_r, take_ge by lia. done.
  - destruct (candidate g) as [[s g1]|e] eqn:Hc; [|done]. cbn [bindR].
    destruct (SamplerSpec.rounds candidate k g1) as [[rest g2]|e] eqn:Hr; [|done].
    cbn [bindR]. intros [= <- <-] Hle Hge. case_decide as Hlt.
    + destruct (acceptb s) eqn:Ha.
      * rewrite filter_cons_True in Hge |- * by done. cbn [length] in Hge.
        destruct (IH (samples ++ [s]) g1 rest Hr) as (g'' & ->).
        { rewrite length_app. cbn. lia. }
        { rewrite length_app. cbn. lia. }
        exists g''. by rewrite <- app_assoc.
      * rewrite filter_cons_False in Hge |- * by (by rewrite Ha).
        by apply IH.
    + exists g. by rewrite take_app_le, take_ge by lia.
Qed.

(** The loop keeps what it has collected and adds accepted candidates
    only, each of which satisfies whatever every candidate satisfies. *)
Lemma loop_result (Q : vec -> Prop) (fuel : nat) (samples : list vec) (g : rng)
    (out : list vec) (g' : rng) :
  (forall g0 s g1, candidate g0 = Ok (s, g1) -> Q s) ->
  (length samples <= num)%nat ->
  Forall (fun s => Q s /\ acceptb s = true) samples ->
  loop fuel samples g = Some (Ok (out, g')) ->
  length out = num /\ Forall (fun s => Q s /\ acceptb s = true) out.
Proof.
  intros HQ. revert samples g.
  induction fuel as [|fuel IH]; intros samples g Hlen Hall; rewrite loop_eq.
  - case_decide; [done|]. intros [= <- <-]. split; [lia|done].
  - case_decide as Hlt; [|intros [= <- <-]; split; [lia|done]].
    destruct (candidate g) as [[s g1]|e] eqn:Hc; [|done].
    destruct (acceptb s) eqn:Ha.
    + apply IH.
      * rewrite length_app. cbn. lia.
      * apply Forall_app. split; [done|]. constructor; [|done]. split; [|done]. by eapply HQ.
    + by apply IH.
Qed.

End RejectionLoop.

Module SamplerRejection.
Import RandomSampler SamplerSpec SamplerExamples.

Lemma is_True_iff (v : pyobj) : is_True v = true <-> v = PyBool true.
Proof. destruct v as [[]| | | | |]; cbn; split; congruence. Qed.

Section Rejection.
Context {rng : Type} (random_sample : rng -> R * rng) (random_int : R -> rng -> R * rng).
Context {param_dict : Type}.
Implicit Types (slf : self param_dict) (constraints : param_dict -> pyobj) (g : rng).

(** The two loops have the shape of [RejectionLoop]. *)
Lemma _slow_draw_loop_eq slf constraints (num : nat) (fuel : nat) (samples : list vec) g :
  _slow_draw_loop random_sample random_int fuel slf constraints num samples g
  = if decide (length samples < num)%nat then
      match fuel with
      | O => None
      | S fuel' =>
          match draw_candidate random_sample random_int slf num g with
          | Raise e => Some (Raise e)
          | Ok (sample, g') =>
              if is_True (constraints (sample_arrays_to_dicts (self_config slf) sample))
              then _slow_draw_loop random_sample random_int fuel' slf constraints num
                                   (samples ++ [sample]) g'
              else _slow_draw_loop random_sample random_int fuel' slf constraints num samples g'
          end
      end
    else Some (Ok (samples, g)).
Proof. by destruct fuel. Qed.

Lemma _slow_perturb_loop_eq slf constraints (ref_sample : vec) (num : nat) (scale : R)
    (fuel : nat) (samples : list vec) g :
  _slow_perturb_loop random_sample fuel slf constraints ref_sample num scale samples g
  = if decide (length samples < num)%nat then
      match fuel with
      | O => None
      | S fuel' =>
          match perturb_candidate random_sample slf ref_sample scale g with
          | Raise e => Some (Raise e)
          | Ok (sample, g') =>
              if is_True (constraints (sample_arrays_to_dicts (self_config slf) sample))
              then _slow_perturb_loop random_sample fuel' slf constraints ref_sample num scale
                                      (samples ++ [sample]) g'
              else _slow_perturb_loop random_sample fuel' slf constraints ref_sample num scale
                                      samples g'
          end
      end
    else Some (Ok (samples, g)).
Proof. by destruct fuel. Qed.

Lemma accepted_filter slf constraints (candidates : list vec) :
  filter (fun s => is_True (constraints (sample_arrays_to_dicts (self_config slf) s)) = true)
         candidates
  = accepted (self_config slf) constraints candidates.
Proof. unfold accepted. apply list_filter_iff. intros s. apply is_True_iff. Qed.

(** The columns NumPy fills have one entry per requested sample. *)
Lemma draw_column_S (num : nat) (draw1 : rng -> R * rng) g :
  exists x col g', draw_column (S num) draw1 g = ([x] :: col, g').
Proof.
  cbn. destruct (draw1 g) as [x g1]. destruct (draw_column num draw1 g1) as [col g2].
  by exists x, col, g2.
Qed.

Lemma _draw_single_parameter_valid (num : nat) (p : param_settings) g :
  valid_param p ->
  exists x col g',
    _draw_single_parameter random_sample random_int (S num) (type p) (specs p) g
    = Ok ([x] :: col, g').
Proof.
  unfold _draw_single_parameter.
  intros [(-> & [lo ->] & [hi ->]) | [(-> & opts & -> & Hopts) | (-> & lo & hi & -> & -> & Hlt)]];
    cbn [String.eqb Ascii.eqb Bool.eqb specs_get bindR].
  - unfold _draw_continuous.
    destruct (draw_column_S num (uniform random_sample lo hi) g) as (x & col & g' & ->).
    by eexists _, _, g'.
  - unfold _draw_categorical. rewrite decide_False.
    + destruct (draw_column_S num (random_int (INR (length opts))) g) as (x & col & g' & ->).
      by eexists _, _, g'.
    + intros [Hlen _]. by destruct opts.
  - unfold _draw_discrete. cbv zeta. rewrite !decide_False by lia.
    destruct (draw_column_S num (random_int (IZR (np.trunc (hi - lo)))) g)
      as (x & col & g' & ->).
    by eexists _, _, g'.
Qed.

(** The loop of [draw_candidate]: one entry per parameter. *)
Lemma draw_candidate_loop_length (num : nat) (params : list param_settings) (acc : vec) g
    (sample : vec) g' :
  foldlR (fun '(sample, g) param_settings =>
            let* (column, g') :=
              _draw_single_parameter random_sample random_int num
                (type param_settings) (specs param_settings) g in
            let* param_sample := getitem column 0 in
            let* x := getitem param_sample 0 in
            Ok (sample ++ [x], g'))
         (acc, g) params = Ok (sample, g') ->
  length sample = (length acc + length params)%nat.
Proof.
  revert acc g. induction params as [|p params IH]; intros acc g; cbn [foldlR].
  - intros [= <- <-]. cbn. lia.
  - destruct (_draw_single_parameter _ _ _ _ _ _) as [[column g1]|e]; [|done]. cbn [bindR].
    destruct (getitem column 0) as [param_sample|e]; [|done]. cbn [bindR].
    destruct (getitem param_sample 0) as [x|e]; [|done]. cbn [bindR].
    intros Hres. apply IH in Hres. rewrite length_app in Hres. cbn in *. lia.
Qed.

Lemma draw_candidate_length slf (num : nat) g (sample : vec) g' :
  draw_candidate random_sample random_int slf num g = Ok (sample, g') ->
  length sample = length (parameters (self_config slf)).
Proof. unfold draw_candidate. intros Hres. by apply draw_candidate_loop_length in Hres. Qed.

Lemma draw_candidate_valid slf (num : nat) g :
  Forall valid_param (parameters (self_config slf)) ->
  exists sample g', draw_candidate random_sample random_int slf (S num) g = Ok (sample, g').
Proof.
  unfold draw_candidate.
  assert (Hgen : forall ps (acc : vec) g, Forall valid_param ps ->
    exists sample g',
      foldlR (fun '(sample, g) param_settings =>
                let* (column, g') :=
                  _draw_single_parameter random_sample random_int (S num)
                    (type param_settings) (specs param_settings) g in
                let* param_sample := getitem column 0 in
                let* x := getitem param_sample 0 in
                Ok (sample ++ [x], g'))
             (acc, g) ps = Ok (sample, g')).
  { clear. induction ps as [|p ps IH]; intros acc g Hvalid.
    - by exists acc, g.
    - apply Forall_cons in Hvalid as [Hp Hps]. cbn [foldlR].
      destruct (_draw_single_parameter_valid num p g Hp) as (x & col & g' & ->).
      cbn. by apply IH. }
  apply Hgen.
Qed.

(** The loop keeps what it has collected and adds accepted candidates
    only. *)
Lemma _slow_draw_loop_result (fuel : nat) slf constraints (num : nat) (samples : list vec) g
    out g' :
  (length samples <= num)%nat ->
  Forall (fun s => constraints (sample_arrays_to_dicts (self_config slf) s) = PyBool true) samples ->
  _slow_draw_loop random_sample random_int fuel slf constraints num samples g
  = Some (Ok (out, g')) ->
  length out = num
  /\ Forall (fun s => constraints (sample_arrays_to_dicts (self_config slf) s) = PyBool true) out.
Proof.
  intros Hlen Hall Hres.
  eapply (loop_result _ _ num _ (_slow_draw_loop_eq slf constraints num) (fun _ => True))
    in Hres as [Hout Hall']; [|done|done|].
  - split; [done|]. eapply Forall_impl; [exact Hall'|]. intros s [_ Hs]. by apply is_True_iff.
  - eapply Forall_impl; [exact Hall|]. intros s Hs. split; [done|]. by apply is_True_iff.
Qed.

(** On a well-formed configuration the loop raises no exception. *)
Lemma _slow_draw_loop_no_exception (fuel : nat) slf constraints (num : nat)
    (samples : list vec) g e :
  Forall valid_param (parameters (self_config slf)) ->
  _slow_draw_loop random_sample random_int fuel slf constraints num samples g
  <> Some (Raise e).
Proof.
  intros Hvalid. revert samples g.
  induction fuel as [|fuel IH]; intros samples g; cbn [_slow_draw_loop].
  - by case_decide.
  - case_decide as Hlt; [|done].
    destruct num as [|num]; [lia|].
    destruct (draw_candidate_valid slf num g Hvalid) as (sample & g' & ->).
    destruct (is_True _); apply IH.
Qed.

(** A result of the loop does not depend on the fuel that was left over. *)
Lemma _slow_draw_loop_more_fuel (fuel extra : nat) slf constraints (num : nat)
    (samples : list vec) g r :
  _slow_draw_loop random_sample random_int fuel slf constraints num samples g = Some r ->
  _slow_draw_loop random_sample random_int (fuel + extra) slf constraints num samples g = Some r.
Proof.
  revert samples g.
  induction fuel as [|fuel IH]; intros samples g; cbn [_slow_draw_loop Nat.add].
  - case_decide; [done|]. intros [= <-]. destruct extra; cbn [_slow_draw_loop]; by rewrite decide_False.
  - case_decide; [|done].
    destruct (draw_candidate _ _ slf num g) as [[sample g1]|e]; [|done].
    destruct (is_True _); apply IH.
Qed.

(** C7.  Every result of the constrained [draw(num)] consists of exactly
    [num] samples; each of them is a candidate the loop drew, with one entry
    per parameter of the configuration, and the feasibility predicate
    returned [True] on it.  On a well-formed configuration [draw] returns
    such a result, and raises nothing, whenever its rejection loop comes to
    an end. *)
Theorem constrained_draw_returns_count_feasible slf constraints (num : nat) g :
  known_constraints slf = Some constraints ->
  (forall fuel samples g',
     draw random_sample random_int fuel slf num g = Some (Ok (samples, g')) ->
     length samples = num
     /\ Forall (fun s => (exists g0 g1,
                            draw_candidate random_sample random_int slf num g0 = Ok (s, g1))
                         /\ length s = length (parameters (self_config slf))
                         /\ constraints (sample_arrays_to_dicts (self_config slf) s)
                            = PyBool true)
               samples)
  /\ (Forall valid_param (parameters (self_config slf)) ->
      forall fuel,
        draw random_sample random_int fuel slf num g <> None ->
        exists samples g',
          draw random_sample random_int fuel slf num g = Some (Ok (samples, g'))).
Proof.
  intros Hc. unfold draw, _slow_draw. rewrite Hc. split.
  - intros fuel samples g' Hres.
    eapply (loop_result _ _ num _ (_slow_draw_loop_eq slf constraints num)
              (fun s => (exists g0 g1,
                           draw_candidate random_sample random_int slf num g0 = Ok (s, g1))
                        /\ length s = length (parameters (self_config slf))))
      in Hres as [Hout Hall]; [| |cbn; lia|constructor].
    + split; [done|]. eapply Forall_impl; [exact Hall|].
      intros s [[Hdrawn Hlen] Hs]. split_and!; [done..|]. by apply is_True_iff.
    + intros g0 s g1 Hcand. split; [by exists g0, g1|by eapply draw_candidate_length].
  - intros Hvalid fuel Hterm.
    destruct (_slow_draw_loop _ _ fuel slf constraints num [] g) as [[[out g']|e]|] eqn:Hloop.
    + by exists out, g'.
    + by apply _slow_draw_loop_no_exception in Hloop.
    + done.
Qed.

(** C10.  What the constrained [draw] and [perturb] return is, in the
    order of the draws, exactly those candidates of the rounds their loops
    went through on which the feasibility predicate returned the object
    [True]; every other candidate of these rounds is left out, and the
    loops go on drawing until [num] candidates are accepted.  As soon as
    the candidates of [k] rounds hold [num] accepted ones, the call with
    [k] rounds returns the first [num] of them.  With a predicate that
    never returns [True] itself, whatever truthy values it returns, no
    call that asks for a sample returns one. *)
Theorem rejection_loops_accept_only_True slf constraints (num : nat) (ref_sample : vec)
    (scale : R) g :
  known_constraints slf = Some constraints ->
  (forall fuel samples g',
     draw random_sample random_int fuel slf num g = Some (Ok (samples, g')) ->
     exists k candidates,
       (k <= fuel)%nat
       /\ rounds (draw_candidate random_sample random_int slf num) k g = Ok (candidates, g')
       /\ samples = accepted (self_config slf) constraints candidates
       /\ length samples = num)
  /\ (forall k candidates g',
        rounds (draw_candidate random_sample random_int slf num) k g = Ok (candidates, g') ->
        (num <= length (accepted (self_config slf) constraints candidates))%nat ->
        exists g'',
          draw random_sample random_int k slf num g
          = Some (Ok (take num (accepted (self_config slf) constraints candidates), g'')))
  /\ (forall fuel samples g',
        perturb random_sample fuel slf ref_sample num scale g = Some (Ok (samples, g')) ->
        exists k candidates,
          (k <= fuel)%nat
          /\ rounds (perturb_candidate random_sample slf ref_sample scale) k g
             = Ok (candidates, g')
          /\ samples = accepted (self_config slf) constraints candidates
          /\ length samples = num)
  /\ (forall k candidates g',
        rounds (perturb_candidate random_sample slf ref_sample scale) k g
        = Ok (candidates, g') ->
        (num <= length (accepted (self_config slf) constraints candidates))%nat ->
        exists g'',
          perturb random_sample k slf ref_sample num scale g
          = Some (Ok (take num (accepted (self_config slf) constraints candidates), g'')))
  /\ ((forall param, constraints param <> PyBool true) ->
      (0 < num)%nat ->
      forall fuel samples g',
        draw random_sample random_int fuel slf num g <> Some (Ok (samples, g'))
        /\ perturb random_sample fuel slf ref_sample num scale g <> Some (Ok (samples, g'))).
Proof.
  intros Hc. unfold draw, _slow_draw, perturb, _slow_perturb. rewrite Hc.
  assert (Hdraw : forall fuel samples g',
    _slow_draw_loop random_sample random_int fuel slf constraints num [] g
    = Some (Ok (samples, g')) ->
    exists k candidates,
      (k <= fuel)%nat
      /\ rounds (draw_candidate random_sample random_int slf num) k g = Ok (candidates, g')
      /\ samples = accepted (self_config slf) constraints candidates
      /\ length samples = num).
  { intros fuel samples g' Hres.
    apply (loop_rounds _ _ num _ (_slow_draw_loop_eq slf constraints num)) in Hres
      as (k & cands & Hk & Hr & -> & Hlen).
    exists k, cands. rewrite accepted_filter in *. cbn [app] in *.
    split_and!; [done..|]. apply Hlen. cbn. lia. }
  assert (Hperturb : forall fuel samples g',
    _slow_perturb_loop random_sample fuel slf constraints ref_sample num scale [] g
    = Some (Ok (samples, g')) ->
    exists k candidates,
      (k <= fuel)%nat
      /\ rounds (perturb_candidate random_sample slf ref_sample scale) k g = Ok (candidates, g')
      /\ samples = accepted (self_config slf) constraints candidates
      /\ length samples = num).
  { intros fuel samples g' Hres.
    apply (loop_rounds _ _ num _ (_slow_perturb_loop_eq slf constraints ref_sample num scale))
      in Hres as (k & cands & Hk & Hr & -> & Hlen).
    exists k, cands. rewrite accepted_filter in *. cbn [app] in *.
    split_and!; [done..|]. apply Hlen. cbn. lia. }
  assert (Hnone : (forall param, constraints param <> PyBool true) ->
            forall candidates, accepted (self_config slf) constraints candidates = []).
  { intros Hnever cands. unfold accepted. induction cands as [|s cands IH]; [done|].
    by rewrite filter_cons_False by apply Hnever. }
  split_and!; [exact Hdraw| |exact Hperturb| |].
  - intros k cands g' Hr Hnum.
    destruct (loop_enough _ _ num _ (_slow_draw_loop_eq slf constraints num) k [] g cands g' Hr)
      as (g'' & Hloop); [cbn; lia|by rewrite accepted_filter|].
    exists g''. by rewrite Hloop, accepted_filter.
  - intros k cands g' Hr Hnum.
    destruct (loop_enough _ _ num _
                (_slow_perturb_loop_eq slf constraints ref_sample num scale) k [] g cands g' Hr)
      as (g'' & Hloop); [cbn; lia|by rewrite accepted_filter|].
    exists g''. by rewrite Hloop, accepted_filter.
  - intros Hnever Hnum fuel samples g'. split; intros Hres.
    + apply Hdraw in Hres as (k & cands & _ & _ & -> & Hlen).
      rewrite (Hnone Hnever) in Hlen. cbn in Hlen. lia.
    + apply Hperturb in Hres as (k & cands & _ & _ & -> & Hlen).
      rewrite (Hnone Hnever) in Hlen. cbn in Hlen. lia.
Qed.

End Rejection.

(** The values of the example generator are numbers in single precision. *)
Lemma float32_example_sample (g : nat) :
  np.float32 (0 + (1 - 0) * (example_random_sample g).1) = (example_random_sample g).1.
Proof.
  destruct g; cbn [example_random_sample fst].
  - replace (0 + (1 - 0) * (3 / 4)) with (3 / 4) by lra. by float32_exact 3%Z (-2)%Z.
  - replace (0 + (1 - 0) * (1 / 4)) with (1 / 4) by lra. by float32_exact 1%Z (-2)%Z.
Qed.

Lemma example_candidate (constraints : option (vec -> pyobj)) (num g : nat) :
  draw_candidate example_random_sample example_random_int
                 (__init__ example_config constraints) (S num) g
  = Ok ([(example_random_sample g).1], (num + S g)%nat).
Proof.
  unfold draw_candidate. cbn -[example_random_sample draw_column uniform].
  unfold _draw_continuous. cbn [draw_column].
  assert (Hu : uniform example_random_sample 0 1 g
               = (0 + (1 - 0) * (example_random_sample g).1, S g)) by reflexivity.
  assert (Hcol : forall n g0, exists col,
            draw_column n (uniform example_random_sample 0 1) g0 = (col, (n + g0)%nat)).
  { clear. induction n as [|n IH]; intros g0; [by exists []|].
    cbn [draw_column uniform example_random_sample].
    destruct (IH (S g0)) as [col ->]. eexists. f_equal. lia. }
  rewrite Hu. destruct (Hcol num (S g)) as [col ->].
  cbn [bindR np.astype_float32_2d np.astype_float32 fmap list_fmap getitem lookup list_lookup app].
  by rewrite float32_example_sample.
Qed.

Lemma lower_half_rejects_first : lower_half [3 / 4] = PyBool false.
Proof. unfold lower_half. rewrite bool_decide_eq_false_2; [done|]. cbn. lra. Qed.

Lemma lower_half_accepts_second : lower_half [1 / 4] = PyBool true.
Proof. unfold lower_half. rewrite bool_decide_eq_true_2; [done|]. cbn. lra. Qed.

(** One sample is requested: the first candidate is rejected, the second
    accepted. *)
Lemma example_draw :
  draw example_random_sample example_random_int 2 example_sampler 1 0%nat
  = Some (Ok ([[1 / 4]], 2%nat)).
Proof.
  unfold draw, _slow_draw. cbn [known_constraints example_sampler __init__].
  cbn [_slow_draw_loop]. rewrite decide_True by (cbn; lia).
  unfold example_sampler at 1. rewrite example_candidate. cbn [example_random_sample fst Nat.add].
  cbn [self_config example_sampler __init__ sample_arrays_to_dicts example_config].
  rewrite lower_half_rejects_first. cbn [is_True].
  rewrite decide_True by (cbn; lia).
  unfold example_sampler at 1. rewrite example_candidate. cbn [example_random_sample fst Nat.add].
  rewrite lower_half_accepts_second. cbn [is_True app].
  rewrite decide_False by (cbn; lia). done.
Qed.

Lemma example_config_valid : Forall valid_param (parameters (self_config example_sampler)).
Proof. constructor; [|constructor]. left. cbn. split_and!; [done|by eexists..]. Qed.

(** C7 on this sampler: with fuel for two iterations the call returns the
    second candidate, [1/4], which is one feasible sample with one entry. *)
Lemma constrained_draw_witness :
  draw example_random_sample example_random_int 2 example_sampler 1 0%nat
  = Some (Ok ([[1 / 4]], 2%nat))
  /\ length ([[1 / 4]] : list vec) = 1%nat
  /\ Forall (fun s => (exists g0 g1,
                         draw_candidate example_random_sample example_random_int
                                        example_sampler 1 g0 = Ok (s, g1))
                      /\ length s = length (parameters (self_config example_sampler))
                      /\ lower_half (sample_arrays_to_dicts (self_config example_sampler) s)
                         = PyBool true)
            [[1 / 4]]
  /\ (exists samples g',
        draw example_random_sample example_random_int 2 example_sampler 1 0%nat
        = Some (Ok (samples, g'))).
Proof.
  destruct (constrained_draw_returns_count_feasible example_random_sample example_random_int
              example_sampler lower_half 1 0%nat eq_refl) as [Hresult Hreturns].
  destruct (Hresult 2%nat [[1 / 4]] 2%nat example_draw) as [Hlen Hall].
  split_and!; [exact example_draw|done|done|].
  apply Hreturns.
  - exact example_config_valid.
  - rewrite example_draw. discriminate.
Defined.

End SamplerRejection.

(** ** Perturbation of a reference sample *)

Module SamplerPerturb.
Import RandomSampler SamplerSpec SamplerExamples.

Section Perturb.
Context {rng : Type} (random_sample : rng -> R * rng).
Context {param_dict : Type}.
Implicit Types (slf : self param_dict) (constraints : param_dict -> pyobj) (g : rng).

Lemma draw_column_shape (num : nat) (draw1 : rng -> R * rng) (P : R -> Prop) g :
  (forall g0, P (draw1 g0).1) ->
  exists col g', draw_column num draw1 g = (col, g') /\ column_of P num col.
Proof.
  intros HP. revert g. induction num as [|num IH]; intros g.
  - exists [], g. split; [done|]. split; [done|constructor].
  - cbn [draw_column]. pose proof (HP g) as Hx. destruct (draw1 g) as [x g1].
    destruct (IH g1) as (col & g2 & -> & Hlen & Hall).
    exists ([x] :: col), g2. split; [done|]. split; [by cbn; f_equal|].
    constructor; [|done]. by exists x.
Qed.

Lemma column_of_fmap (f : R -> R) (P Q : R -> Prop) (num : nat) (col : list vec) :
  (forall x, P x -> Q (f x)) ->
  column_of P num col -> column_of Q num ((fun row : vec => f <$> row) <$> col).
Proof.
  intros HPQ [Hlen Hall]. split; [by rewrite length_fmap|].
  apply Forall_fmap. eapply Forall_impl; [done|].
  intros row (x & -> & Hx). exists (f x). split; [done|]. by apply HPQ.
Qed.

(** [_perturb_single_parameter] on a parameter it can handle: a column of
    [num] entries, each of them kept in the sense of [entry_kept]. *)
Lemma _perturb_single_parameter_kept (ref_value : R) (num : nat) (p : param_settings)
    (scale : R) g :
  perturbable p ->
  exists col g',
    _perturb_single_parameter random_sample ref_value num (type p) (specs p) scale g
    = Ok (col, g')
    /\ column_of (entry_kept scale p ref_value) num col.
Proof.
  unfold _perturb_single_parameter.
  intros [(Ht & [lo Hlo] & [hi Hhi]) | [Ht | Ht]]; rewrite Ht.
  - assert (String.eqb "continuous" "continuous" = true) as -> by done.
    unfold _draw_continuous.
    destruct (draw_column_shape num (uniform random_sample (- scale) scale)
                (fun u => scale = 0 -> u = 0) g) as (col & g' & -> & Hcol).
    { intros g0 ->. unfold uniform. destruct (random_sample g0) as [u g1]. cbn. lra. }
    cbn [bindR]. rewrite Hlo, Hhi. cbn [specs_get bindR].
    eexists _, g'. split; [done|].
    unfold where_gt, where_lt, np.astype_float32_2d, np.astype_float32.
    apply (column_of_fmap _ (fun w => scale = 0 ->
             w = if decide (np.float32 ref_value < np.float32 lo)
                 then np.float32 lo else np.float32 ref_value)).
    { intros w Hw. split; [by rewrite Ht|]. intros _ Hs lo' hi' Hlo' Hhi'.
      rewrite Hlo in Hlo'. rewrite Hhi in Hhi'. simplify_eq.
      unfold clip. by rewrite (Hw eq_refl). }
    apply (column_of_fmap _ (fun w => scale = 0 -> w = np.float32 ref_value)).
    { intros w Hw Hs. by rewrite (Hw Hs). }
    apply (column_of_fmap _ (fun v => scale = 0 -> v = 0)).
    { intros v Hv Hs. rewrite (Hv Hs). apply add32_zero. }
    apply (column_of_fmap _ (fun u => scale = 0 -> u = 0)).
    { intros u Hu Hs. rewrite (Hu Hs). apply mul32_zero. }
    apply (column_of_fmap _ (fun u => scale = 0 -> u = 0)); [|done].
    intros u Hu Hs. rewrite (Hu Hs). apply float32_0.
  - assert (String.eqb "categorical" "continuous" = false) as -> by done.
    cbn [orb]. eexists _, g. split; [done|].
    split; [by rewrite length_replicate|].
    apply Forall_replicate. eexists. split; [done|].
    split; [intros; apply mul32_one|]. by rewrite Ht.
  - assert (String.eqb "discrete" "continuous" = false) as -> by done.
    assert (String.eqb "discrete" "categorical" = false) as -> by done.
    cbn [orb]. eexists _, g. split; [done|].
    split; [by rewrite length_replicate|].
    apply Forall_replicate. eexists. split; [done|].
    split; [intros; apply mul32_one|]. by rewrite Ht.
Qed.

(** Joining the columns of the parameters gives [num] rows whose entries are
    those of the columns, parameter by parameter. *)
Lemma concatenate_axis1_columns (Ps : list (R -> Prop)) (num : nat) (cols : list (list vec)) :
  cols <> [] ->
  Forall2 (fun P col => column_of P num col) Ps cols ->
  exists rows, concatenate_axis1 cols = Ok rows /\ length rows = num
    /\ Forall (fun row => Forall2 (fun P x => P x) Ps row) rows.
Proof.
  intros Hne Hall. induction Hall as [|P col Ps cols [Hlen Hcol] Hall IH]; [done|].
  destruct cols as [|col' cols].
  - apply Forall2_nil_inv_r in Hall as ->. exists col. split_and!; [done..|].
    eapply Forall_impl; [done|]. intros row (x & -> & Hx). by repeat constructor.
  - destruct IH as (rows & Hrows & Hlen' & Hall'); [done|].
    exists (zip_with app col rows).
    change (concatenate_axis1 (col :: col' :: cols))
      with (let* r := concatenate_axis1 (col' :: cols) in Ok (zip_with app col r)).
    rewrite Hrows. split_and!; [done| |].
    + rewrite length_zip_with, Hlen, Hlen'. apply Nat.min_id.
    + apply Forall_lookup. intros i row Hi.
      apply lookup_zip_with_Some in Hi as (a & b & -> & Ha & Hb).
      rewrite Forall_lookup in Hcol. destruct (Hcol i a Ha) as (x & -> & Hx).
      rewrite Forall_lookup in Hall'. specialize (Hall' i b Hb).
      by constructor.
Qed.

(** The loop of [_fast_perturb] over the parameters from index [i] on. *)
Lemma _fast_perturb_columns (ref_sample : vec) (num : nat) (scale : R)
    (params : list param_settings) (i : nat) (acc : list (list vec)) g :
  Forall perturbable params ->
  (i + length params <= length ref_sample)%nat ->
  exists cols g',
    foldlR (fun '(perturbed_samples, g) '(param_index, param_settings) =>
              let* ref_value := getitem ref_sample param_index in
              let* (perturbed_param_samples, g') :=
                _perturb_single_parameter random_sample ref_value num (type param_settings)
                                          (specs param_settings) scale g in
              Ok (perturbed_samples ++ [perturbed_param_samples], g'))
           (acc, g) (imap (fun j p => ((i + j)%nat, p)) params)
    = Ok (acc ++ cols, g')
    /\ Forall2 (fun P col => column_of P num col)
               (imap (fun j p r => exists x, ref_sample !! (i + j)%nat = Some x
                                             /\ entry_kept scale p x r) params)
               cols.
Proof.
  revert i acc g. induction params as [|p params IH]; intros i acc g Hvalid Hlen.
  - exists [], g. rewrite app_nil_r. split; [done|constructor].
  - apply Forall_cons in Hvalid as [Hp Hvalid]. cbn [length] in Hlen.
    destruct (lookup_lt_is_Some_2 ref_sample (i + 0)%nat ltac:(lia)) as [x Hx].
    cbn [imap foldlR]. unfold getitem at 1. rewrite Hx. cbn [bindR].
    destruct (_perturb_single_parameter_kept x num p scale g Hp) as (col & g1 & -> & Hcol).
    cbn [bindR].
    destruct (IH (S i) (acc ++ [col]) g1 Hvalid ltac:(lia)) as (cols & g2 & Hfold & Hcols).
    exists (col :: cols), g2. split.
    + rewrite (imap_ext _ (fun j p => ((S i + j)%nat, p))) by (intros; cbn; f_equal; lia).
      rewrite Hfold. by rewrite <- app_assoc.
    + constructor.
      * destruct Hcol as [Hl Hall]. split; [done|].
        eapply Forall_impl; [done|]. intros row (r & -> & Hr). exists r. split; [done|].
        by exists x.
      * erewrite imap_ext; [exact Hcols|]. intros j q _. cbn.
        by replace (i + S j)%nat with (S (i + j))%nat by lia.
Qed.

Lemma entries_kept_of_Forall2 (params : list param_settings) (ref_sample : vec) (scale : R)
    (row : vec) :
  Forall2 (fun P x => P x)
          (imap (fun j p r => exists x, ref_sample !! (0 + j)%nat = Some x
                                        /\ entry_kept scale p x r) params)
          row ->
  entries_kept params ref_sample scale row.
Proof.
  intros Hall. split.
  - apply Forall2_length in Hall. by rewrite length_imap in Hall.
  - intros j p x r Hp Hx Hr.
    eapply Forall2_lookup_lr in Hall; [|by rewrite list_lookup_imap, Hp|done].
    cbn in Hall. destruct Hall as (x' & Hx' & Hkept). by simplify_eq.
Qed.

Lemma _fast_perturb_kept slf (ref_sample : vec) (num : nat) (scale : R) g :
  parameters (self_config slf) <> [] ->
  Forall perturbable (parameters (self_config slf)) ->
  (length (parameters (self_config slf)) <= length ref_sample)%nat ->
  exists rows g',
    _fast_perturb random_sample slf ref_sample num scale g = Ok (rows, g')
    /\ length rows = num
    /\ Forall (entries_kept (parameters (self_config slf)) ref_sample scale) rows.
Proof.
  intros Hne Hvalid Hlen. unfold _fast_perturb.
  destruct (_fast_perturb_columns ref_sample num scale (parameters (self_config slf))
              0 [] g Hvalid ltac:(lia)) as (cols & g' & Hfold & Hcols).
  rewrite (imap_ext pair (fun j p => ((0 + j)%nat, p))) by done.
  rewrite Hfold. cbn [bindR app].
  assert (Hcols_ne : cols <> []).
  { intros ->. apply Forall2_nil_inv_r in Hcols.
    destruct (parameters (self_config slf)); [done|discriminate]. }
  destruct (concatenate_axis1_columns _ num cols Hcols_ne Hcols)
    as (rows & -> & Hrows & Hall).
  exists rows, g'. split_and!; [done..|].
  eapply Forall_impl; [done|]. intros row. apply entries_kept_of_Forall2.
Qed.

(** The loop of [perturb_candidate] over the parameters from index [i] on. *)
Lemma perturb_candidate_entries (ref_sample : vec) (scale : R)
    (params : list param_settings) (i : nat) (acc : vec) g :
  Forall perturbable params ->
  (i + length params <= length ref_sample)%nat ->
  exists row g',
    foldlR (fun '(perturbed_sample, g) '(param_index, param_settings) =>
              let* ref_value := getitem ref_sample param_index in
              let* (column, g') :=
                _perturb_single_parameter random_sample ref_value 1 (type param_settings)
                                          (specs param_settings) scale g in
              let* perturbed_param := getitem column 0 in
              let* x := getitem perturbed_param 0 in
              Ok (perturbed_sample ++ [x], g'))
           (acc, g) (imap (fun j p => ((i + j)%nat, p)) params)
    = Ok (acc ++ row, g')
    /\ Forall2 (fun P x => P x)
               (imap (fun j p r => exists x, ref_sample !! (i + j)%nat = Some x
                                             /\ entry_kept scale p x r) params)
               row.
Proof.
  revert i acc g. induction params as [|p params IH]; intros i acc g Hvalid Hlen.
  - exists [], g. rewrite app_nil_r. split; [done|constructor].
  - apply Forall_cons in Hvalid as [Hp Hvalid]. cbn [length] in Hlen.
    destruct (lookup_lt_is_Some_2 ref_sample (i + 0)%nat ltac:(lia)) as [x Hx].
    cbn [imap foldlR]. unfold getitem at 1. rewrite Hx. cbn [bindR].
    destruct (_perturb_single_parameter_kept x 1 p scale g Hp)
      as (col & g1 & -> & Hl & Hcol).
    destruct col as [|c [|? ?]]; try done.
    apply Forall_cons in Hcol as [(r & -> & Hr) _]. cbn.
    destruct (IH (S i) (acc ++ [r]) g1 Hvalid ltac:(lia)) as (row & g2 & Hfold & Hrow).
    exists (r :: row), g2. split.
    + rewrite (imap_ext _ (fun j p => ((S i + j)%nat, p))) by (intros; cbn; f_equal; lia).
      rewrite Hfold. by rewrite <- app_assoc.
    + constructor.
      * by exists x.
      * erewrite imap_ext; [exact Hrow|]. intros j q _. cbn.
        by replace (i + S j)%nat with (S (i + j))%nat by lia.
Qed.

Lemma perturb_candidate_kept slf (ref_sample : vec) (scale : R) g :
  Forall perturbable (parameters (self_config slf)) ->
  (length (parameters (self_config slf)) <= length ref_sample)%nat ->
  exists row g',
    perturb_candidate random_sample slf ref_sample scale g = Ok (row, g')
    /\ entries_kept (parameters (self_config slf)) ref_sample scale row.
Proof.
  intros Hvalid Hlen. unfold perturb_candidate.
  destruct (perturb_candidate_entries ref_sample scale (parameters (self_config slf))
              0 [] g Hvalid ltac:(lia)) as (row & g' & Hfold & Hrow).
  rewrite (imap_ext pair (fun j p => ((0 + j)%nat, p))) by done.
  rewrite Hfold. exists row, g'. split; [done|]. by apply entries_kept_of_Forall2.
Qed.

Lemma _slow_perturb_loop_kept (fuel : nat) slf constraints (ref_sample : vec) (num : nat)
    (scale : R) (samples : list vec) g rows g' :
  Forall perturbable (parameters (self_config slf)) ->
  (length (parameters (self_config slf)) <= length ref_sample)%nat ->
  Forall (entries_kept (parameters (self_config slf)) ref_sample scale) samples ->
  _slow_perturb_loop random_sample fuel slf constraints ref_sample num scale samples g
  = Some (Ok (rows, g')) ->
  Forall (entries_kept (parameters (self_config slf)) ref_sample scale) rows.
Proof.
  intros Hvalid Hlen. revert samples g.
  induction fuel as [|fuel IH]; intros samples g Hkept; cbn [_slow_perturb_loop].
  - case_decide; [done|]. by intros [= <- <-].
  - case_decide.
    + destruct (perturb_candidate_kept slf ref_sample scale g Hvalid Hlen)
        as (row & g1 & -> & Hrow).
      destruct (is_True _).
      * apply IH. apply Forall_app. split; [done|]. by constructor.
      * by apply IH.
    + by intros [= <- <-].
Qed.

Lemma clip_float32_in_bounds (lo hi x : R) :
  lo <= x <= hi -> clip (np.float32 lo) (np.float32 hi) (np.float32 x) = np.float32 x.
Proof.
  intros [Hl Hh]. apply float32_le in Hl, Hh. unfold clip. repeat case_decide; lra.
Qed.

(** C8, as amended.  On a configuration [perturb] can handle, with a
    reference sample that has an entry for every parameter:
    - without constraints [perturb] returns [num] vectors;
    - with or without constraints, in every vector it returns the entry of a
      categorical or discrete parameter is the reference entry cast to
      single precision, whatever the scale, and with [scale = 0] the entry
      of a continuous parameter is the reference entry cast to single
      precision and clipped to the bounds, cast likewise;
    - clipping leaves the cast of a value within the bounds as it is, and
      the cast leaves a number in single precision, every integer up to
      [2^24] among them, as it is. *)
Theorem perturb_keeps_reference_entries slf (ref_sample : vec) (num : nat) (scale : R) g :
  parameters (self_config slf) <> [] ->
  Forall perturbable (parameters (self_config slf)) ->
  (length (parameters (self_config slf)) <= length ref_sample)%nat ->
  (known_constraints slf = None ->
   exists rows g',
     (forall fuel, perturb random_sample fuel slf ref_sample num scale g = Some (Ok (rows, g')))
     /\ length rows = num)
  /\ (forall fuel rows g',
        perturb random_sample fuel slf ref_sample num scale g = Some (Ok (rows, g')) ->
        Forall (entries_kept (parameters (self_config slf)) ref_sample scale) rows)
  /\ (forall lo hi x, lo <= x <= hi ->
        clip (np.float32 lo) (np.float32 hi) (np.float32 x) = np.float32 x)
  /\ (forall x, np.float32 (np.float32 x) = np.float32 x)
  /\ (forall n : Z, (Z.abs n <= 2 ^ 24)%Z -> np.float32 (IZR n) = IZR n).
Proof.
  intros Hne Hvalid Hlen.
  destruct (_fast_perturb_kept slf ref_sample num scale g Hne Hvalid Hlen)
    as (rows & g' & Hfast & Hrows & Hkept).
  split_and!; [| |apply clip_float32_in_bounds|apply float32_idempotent|apply float32_IZR].
  - intros Hnone. exists rows, g'. split; [|done].
    intros fuel. unfold perturb. by rewrite Hnone, Hfast.
  - intros fuel rows' g'' Hres. unfold perturb, _slow_perturb in Hres.
    destruct (known_constraints slf) as [constraints|].
    + eapply _slow_perturb_loop_kept; [done|done|constructor|exact Hres].
    + rewrite Hfast in Hres. by simplify_eq.
Qed.

End Perturb.

(** *** The cast on concrete references *)

Lemma float32_tenth : np.float32 (1 / 10) = 13421773 / 134217728.
Proof.
  rewrite (float32_eval (1 / 10) (-3) 13421773).
  - pow2_values. lra.
  - rewrite Rabs_pos_eq by lra. pow2_values. lra.
  - pow2_values. lra.
Qed.

Lemma float32_16777217 : np.float32 16777217 = 16777216.
Proof.
  rewrite (float32_eval_tie 16777217 25 8388608).
  - cbn [Z.even]. pow2_values. lra.
  - rewrite Rabs_pos_eq by lra. pow2_values. lra.
  - pow2_values. lra.
Qed.

Lemma example_uniform_zero (g : nat) :
  uniform example_random_sample (- 0) 0 g = (0, S g).
Proof. unfold uniform. cbn. f_equal. lra. Qed.

(** C8, as stated, fails.  The reference value [0.1] lies within the unit
    interval of the parameter, and with [scale = 0] [perturb] returns its
    cast to single precision, which is another number; the index
    [16777217] of a discrete parameter comes back as [16777216]. *)
Lemma perturb_casts_reference_entries :
  perturb example_random_sample 0 unconstrained_sampler [1 / 10] 1 0 0%nat
  = Some (Ok ([[13421773 / 134217728]], 1%nat))
  /\ 13421773 / 134217728 <> 1 / 10
  /\ perturb example_random_sample 0 wide_discrete_sampler [16777217] 1 (1 / 20) 0%nat
     = Some (Ok ([[16777216]], 0%nat))
  /\ (16777216 : R) <> 16777217.
Proof.
  split_and!; [| lra | | lra].
  - unfold perturb, _fast_perturb, _perturb_single_parameter, _draw_continuous.
    cbn [known_constraints unconstrained_sampler __init__ self_config parameters example_config
         imap foldlR getitem lookup list_lookup bindR type specs unit_interval String.eqb
         Ascii.eqb Bool.eqb draw_column].
    rewrite example_uniform_zero.
    cbn [bindR specs_get high low fmap list_fmap np.astype_float32_2d np.astype_float32
         where_lt where_gt app concatenate_axis1].
    rewrite float32_0, mul32_zero, add32_zero, float32_tenth.
    replace (np.float32 0) with 0 by (symmetry; apply float32_0).
    replace (np.float32 1) with 1 by (symmetry; apply float32_1).
    rewrite (decide_False (P := _ < 0)) by lra. by rewrite decide_False by lra.
  - unfold perturb, _fast_perturb, _perturb_single_parameter.
    cbn. rewrite mul32_one, float32_16777217. done.
Qed.

Lemma mixed_config_perturbable : Forall perturbable (parameters (self_config mixed_sampler)).
Proof.
  repeat (apply Forall_cons; split); [| | |apply Forall_nil_2].
  - left. cbn. split_and!; [done|by eexists..].
  - right. by left.
  - right. by right.
Qed.

Lemma float32_half : np.float32 (1 / 2) = 1 / 2.
Proof. by float32_exact 1%Z (-1)%Z. Qed.

(** Two perturbations of the reference [(1/2, 2, 3)] with the scale zero,
    on the configuration with a parameter of each type. *)
Lemma example_perturb_mixed :
  perturb example_random_sample 0 mixed_sampler [1 / 2; 2; 3] 2 0 0%nat
  = Some (Ok ([[1 / 2; 2; 3]; [1 / 2; 2; 3]], 2%nat)).
Proof.
  unfold perturb, _fast_perturb, _perturb_single_parameter, _draw_continuous.
  repeat first
    [ rewrite example_uniform_zero
    | progress cbn [known_constraints mixed_sampler __init__ self_config parameters mixed_config
        imap foldlR getitem lookup list_lookup bindR type specs unit_interval three_options
        five_to_ten String.eqb Ascii.eqb Bool.eqb draw_column orb compose
        specs_get high low fmap list_fmap np.astype_float32_2d np.astype_float32
        where_lt where_gt app concatenate_axis1 replicate zip_with] ].
  rewrite !mul32_one, !float32_0, !mul32_zero, !add32_zero, !float32_1, !float32_half.
  rewrite (float32_IZR 2), (float32_IZR 3) by lia.
  rewrite !(decide_False (P := _ < 0)) by lra. rewrite !(decide_False (P := _ > 1)) by lra.
  done.
Qed.

(** The amended C8 on this configuration: the two perturbations with the
    scale zero are the reference, whose entries are numbers in single
    precision within the bounds, and two perturbations with the default
    scale keep its categorical and its discrete entry. *)
Lemma perturb_keeps_reference_witness :
  perturb example_random_sample 0 mixed_sampler [1 / 2; 2; 3] 2 0 0%nat
  = Some (Ok ([[1 / 2; 2; 3]; [1 / 2; 2; 3]], 2%nat))
  /\ Forall (entries_kept (parameters (self_config mixed_sampler)) [1 / 2; 2; 3] 0)
            [[1 / 2; 2; 3]; [1 / 2; 2; 3]]
  /\ (exists rows g',
        perturb example_random_sample 0 mixed_sampler [1 / 2; 2; 3] 2 (1 / 20) 0%nat
        = Some (Ok (rows, g'))
        /\ length rows = 2%nat
        /\ Forall (entries_kept (parameters (self_config mixed_sampler)) [1 / 2; 2; 3] (1 / 20))
                  rows).
Proof.
  assert (Hne : parameters (self_config mixed_sampler) <> []) by discriminate.
  assert (Hlen : (length (parameters (self_config mixed_sampler))
                  <= length ([1 / 2; 2; 3]%R : vec))%nat) by (cbn; lia).
  split_and!.
  - exact example_perturb_mixed.
  - destruct (perturb_keeps_reference_entries example_random_sample mixed_sampler
                [1 / 2; 2; 3] 2 0 0%nat Hne mixed_config_perturbable Hlen)
      as (_ & Hkept & _).
    exact (Hkept 0%nat _ _ example_perturb_mixed).
  - destruct (perturb_keeps_reference_entries example_random_sample mixed_sampler
                [1 / 2; 2; 3] 2 (1 / 20) 0%nat Hne mixed_config_perturbable Hlen)
      as (Hreturns & Hkept & _).
    destruct (Hreturns eq_refl) as (rows & g' & Hrows & Hlen').
    exists rows, g'. split_and!; [apply Hrows|done|]. apply (Hkept 0%nat rows g'), Hrows.
Defined.

End SamplerPerturb.

(** ** The rejection loops on the example sampler *)

Module SamplerRejectionExamples.
Import RandomSampler SamplerSpec SamplerExamples SamplerRejection SamplerPerturb.

(** The candidates of the first two rounds of [draw] on the example
    sampler, and the one of them in the feasible half. *)
Lemma example_rounds (constraints : option (vec -> pyobj)) :
  rounds (draw_candidate example_random_sample example_random_int
            (__init__ example_config constraints) 1) 2 0%nat
  = Ok ([[3 / 4]; [1 / 4]], 2%nat).
Proof.
  cbn [rounds]. rewrite (example_candidate constraints 0 0). cbn [bindR Nat.add].
  rewrite (example_candidate constraints 0 1). done.
Qed.

Lemma example_accepted :
  accepted (self_config example_sampler) lower_half [[3 / 4]; [1 / 4]] = [[1 / 4]].
Proof.
  unfold accepted. cbn [self_config example_sampler __init__ sample_arrays_to_dicts example_config].
  rewrite filter_cons_False by (rewrite lower_half_rejects_first; discriminate).
  by rewrite filter_cons_True by apply lower_half_accepts_second.
Qed.

(** C10 on the example sampler.  The one sample [draw] returns within two
    rounds is what the predicate accepted of the two candidates [3/4] and
    [1/4]; from the candidates of these rounds the theorem gives the result
    of the call; and with the predicate that answers [numpy.bool_(True)]
    everywhere neither [draw] nor [perturb] returns. *)
Lemma rejection_loops_witness :
  (exists k candidates,
     (k <= 2)%nat
     /\ rounds (draw_candidate example_random_sample example_random_int example_sampler 1) k 0%nat
        = Ok (candidates, 2%nat)
     /\ [[1 / 4]] = accepted (self_config example_sampler) lower_half candidates
     /\ length ([[1 / 4]] : list vec) = 1%nat)
  /\ (exists g'',
        draw example_random_sample example_random_int 2 example_sampler 1 0%nat
        = Some (Ok (take 1 (accepted (self_config example_sampler) lower_half
                                     [[3 / 4]; [1 / 4]]), g'')))
  /\ (forall fuel samples g',
        draw example_random_sample example_random_int fuel accepting_sampler_numpy 1 0%nat
        <> Some (Ok (samples, g'))
        /\ perturb example_random_sample fuel accepting_sampler_numpy [1 / 4] 1 0 0%nat
           <> Some (Ok (samples, g'))).
Proof.
  destruct (rejection_loops_accept_only_True example_random_sample example_random_int
              example_sampler lower_half 1 [1 / 4] 0 0%nat eq_refl)
    as (Hdraw & Hreturns & _).
  destruct (rejection_loops_accept_only_True example_random_sample example_random_int
              accepting_sampler_numpy everywhere_numpy 1 [1 / 4] 0 0%nat eq_refl)
    as (_ & _ & _ & _ & Hnever).
  split_and!.
  - exact (Hdraw 2%nat [[1 / 4]] 2%nat example_draw).
  - apply (Hreturns 2%nat [[3 / 4]; [1 / 4]] 2%nat (example_rounds (Some lower_half))).
    rewrite example_accepted. cbn. lia.
  - apply Hnever; [discriminate|lia].
Defined.

End SamplerRejectionExamples.

(** ** The gradient optimizer *)

Module OptimizerFacts.
Import GradientOptimizer OptimizerExamples.

Section Optimizer.
Variable Logger_attributes : list string.
Variable Logger_within_bounds : vec -> result bool.
Context {opt_state : Type}.
Variable opt_con_get_update opt_dis_get_update opt_cat_get_update :
  vec -> opt_state -> vec * opt_state.

Abbreviation optimize_step' := (optimize_step Logger_attributes Logger_within_bounds
  opt_con_get_update opt_dis_get_update opt_cat_get_update).
Abbreviation optimize_loop' := (optimize_loop Logger_attributes Logger_within_bounds
  opt_con_get_update opt_dis_get_update opt_cat_get_update).
Abbreviation optimize' := (optimize Logger_attributes Logger_within_bounds
  opt_con_get_update opt_dis_get_update opt_cat_get_update).

Lemma within_bounds_not_own : "within_bounds"%string ∉ own_attributes.
Proof. unfold own_attributes. rewrite !not_elem_of_cons. split_and!; try done. apply not_elem_of_nil. Qed.

Lemma call_within_bounds_raises (slf : self) (sample : vec) :
  "within_bounds"%string ∉ Logger_attributes ->
  call_within_bounds Logger_attributes Logger_within_bounds slf sample = Raise AttributeError.
Proof.
  intros Hno. unfold call_within_bounds.
  rewrite decide_False by apply within_bounds_not_own. by rewrite decide_False.
Qed.

Lemma optimize_step_raises (slf : self) (optimized : vec) (st : opt_state) :
  "within_bounds"%string ∉ Logger_attributes ->
  any (pos_continuous slf) = true ->
  optimize_step' slf optimized st = Raise AttributeError.
Proof.
  intros Hno Hany. unfold optimize_step. rewrite Hany. unfold _optimize_continuous.
  destruct (opt_con_get_update optimized st) as [proposal st'].
  by rewrite call_within_bounds_raises.
Qed.

(** C3 at its failing inputs.  [_optimize_continuous] calls
    [self.within_bounds], a name the class does not define (its bounds check
    is [_within_bounds]); unless the logger base class happens to provide
    it, every call of [optimize] with an active continuous feature and a
    positive iteration budget ends in an [AttributeError] during the first
    continuous step: no vector is returned and no step is rejected. *)
Theorem optimize_raises_with_continuous_feature (slf : self) (sample : vec) (max_iter : nat)
    (st : opt_state) :
  "within_bounds"%string ∉ Logger_attributes ->
  any (pos_continuous slf) = true ->
  (0 < max_iter)%nat ->
  optimize' slf sample max_iter st = Raise AttributeError.
Proof.
  intros Hno Hany Hpos. unfold optimize. destruct max_iter as [|n]; [lia|].
  cbn [optimize_loop]. by rewrite optimize_step_raises.
Qed.

(** The number of completed iterations never exceeds the budget. *)
Lemma optimize_loop_count (slf : self) (remaining done_iter : nat) (sample_copy optimized : vec)
    (st : opt_state) v st' n :
  optimize_loop' slf remaining done_iter sample_copy optimized st = Ok (v, st', n) ->
  (done_iter <= n <= done_iter + remaining)%nat.
Proof.
  revert done_iter sample_copy optimized st.
  induction remaining as [|remaining IH]; intros done_iter sample_copy optimized st; cbn [optimize_loop].
  - intros [= <- <- <-]. lia.
  - destruct (optimize_step' slf optimized st) as [[optimized' st1]|]; [|done]. cbn [bindR].
    destruct (_ && _).
    + intros [= <- <- <-]. lia.
    + intros Hrec. apply IH in Hrec. lia.
Qed.

(** Without continuous features every step succeeds and the loop runs the
    whole budget. *)
Lemma optimize_loop_full_budget (slf : self) (remaining done_iter : nat)
    (sample_copy optimized : vec) (st : opt_state) :
  any (pos_continuous slf) = false ->
  exists v st',
    optimize_loop' slf remaining done_iter sample_copy optimized st
    = Ok (v, st', (done_iter + remaining)%nat).
Proof.
  intros Hany. revert done_iter sample_copy optimized st.
  induction remaining as [|remaining IH]; intros done_iter sample_copy optimized st; cbn [optimize_loop].
  - exists optimized, st. by rewrite Nat.add_0_r.
  - unfold optimize_step. rewrite Hany. cbn [bindR].
    unfold _optimize_categorical, _optimize_discrete.
    destruct (any (pos_categories slf)); cbn [bindR];
      [destruct (opt_cat_get_update optimized st) as [o1 s1]|];
      (destruct (any (pos_discrete slf)); cbn [bindR andb];
       [destruct (opt_dis_get_update _ _) as [o2 s2]|]);
      cbn [bindR andb];
      match goal with
      | |- context [optimize_loop _ _ _ _ _ _ remaining (S done_iter) ?a ?b ?c] =>
          destruct (IH (S done_iter) a b c) as (v & st' & ->)
      end;
      exists v, st'; do 2 f_equal; lia.
Qed.

(** C6 on the code.  The loop never exceeds its budget, and without
    continuous features it runs the budget in full.  With continuous
    features the convergence test is never reached: unless the logger base
    class provides [within_bounds], the first iteration raises
    [AttributeError] in its continuous step, whatever the distance the
    update would have covered and whatever is left of the budget. *)
Theorem optimize_iterations (slf : self) (sample : vec) (max_iter : nat) (st : opt_state) :
  (forall v st' n, optimize' slf sample max_iter st = Ok (v, st', n) -> (n <= max_iter)%nat)
  /\ (any (pos_continuous slf) = false ->
      exists v st', optimize' slf sample max_iter st = Ok (v, st', max_iter))
  /\ ("within_bounds"%string ∉ Logger_attributes ->
      any (pos_continuous slf) = true ->
      forall remaining done_iter sample_copy optimized st0,
        optimize_loop' slf (S remaining) done_iter sample_copy optimized st0
        = Raise AttributeError).
Proof.
  split_and!.
  - intros v st' n Hres. unfold optimize in Hres. apply optimize_loop_count in Hres. lia.
  - intros Hany. unfold optimize.
    match goal with
    | |- context [optimize_loop' slf max_iter 0 ?a ?b st] =>
        destruct (optimize_loop_full_budget slf max_iter 0 a b st Hany) as (v & st' & Hres)
    end.
    by exists v, st'.
  - intros Hno Hany remaining done_iter sample_copy optimized st0.
    cbn [optimize_loop]. by rewrite optimize_step_raises.
Qed.

(** *** The bounds check and the projection *)

Lemma any_zip_with_false {A B} (f : A -> B -> bool) (a : list A) (b : list B) :
  any (zip_with f a b) = false <->
  forall i x y, a !! i = Some x -> b !! i = Some y -> f x y = false.
Proof.
  unfold any. revert b. induction a as [|x a IH]; intros [|y b]; cbn.
  - split; [intros _ i ? ? Hi; by rewrite lookup_nil in Hi|done].
  - split; [intros _ i ? ? Hi; by rewrite lookup_nil in Hi|done].
  - split; [intros _ i ? ? _ Hi; by rewrite lookup_nil in Hi|done].
  - rewrite orb_false_iff, IH. split.
    + intros [Hxy Hrest] [|i] x' y'; cbn.
      * by intros [= <-] [= <-].
      * apply Hrest.
    + intros Hall. split; [by apply (Hall 0%nat)|].
      intros i x' y'. apply (Hall (S i)).
Qed.

(** The sample [optimize] starts its loop from when the given one violates
    a bound: clipped to the bounds and cast to single precision.  It lies
    within bounds that are numbers in single precision themselves. *)
Lemma clamped_within_bounds (slf : self) (sample : vec) :
  (forall i l u, feature_lowers (self_config slf) !! i = Some l ->
                 feature_uppers (self_config slf) !! i = Some u -> l <= u) ->
  OptimizerSpec.float32_bounds (self_config slf) ->
  _within_bounds slf
    (np.astype_float32
       (zip_with (fun x u => if decide (x > u) then u else x)
          (zip_with (fun x l => if decide (x < l) then l else x) sample
                    (feature_lowers (self_config slf)))
          (feature_uppers (self_config slf)))) = true.
Proof.
  intros Hord [Hlo Hup]. unfold _within_bounds, np.astype_float32.
  rewrite Forall_lookup in Hlo. rewrite Forall_lookup in Hup.
  apply negb_true_iff, orb_false_iff. split; apply any_zip_with_false.
  - intros i x l Hx Hl.
    apply list_lookup_fmap_Some in Hx as (z & -> & Hz).
    apply lookup_zip_with_Some in Hz as (y & u & -> & Hy & Hu).
    apply lookup_zip_with_Some in Hy as (x0 & l' & -> & Hx0 & Hl').
    rewrite Hl in Hl'. injection Hl' as <-. specialize (Hord i l u Hl Hu).
    apply bool_decide_eq_false_2.
    match goal with |- ~ np.float32 ?c < l => assert (Hc : l <= c) by (repeat case_decide; lra) end.
    apply float32_le in Hc. rewrite (Hlo i l Hl) in Hc. lra.
  - intros i x u Hx Hu.
    apply list_lookup_fmap_Some in Hx as (z & -> & Hz).
    apply lookup_zip_with_Some in Hz as (y & u' & -> & Hy & Hu').
    rewrite Hu in Hu'. injection Hu' as <-.
    apply bool_decide_eq_false_2.
    match goal with |- ~ np.float32 ?c > u => assert (Hc : c <= u) by (repeat case_decide; lra) end.
    apply float32_le in Hc. rewrite (Hup i u Hu) in Hc. lra.
Qed.

End Optimizer.

Lemma logger_has_no_within_bounds : "within_bounds"%string ∉ logger_attributes.
Proof.
  unfold logger_attributes. rewrite !not_elem_of_cons.
  split_and!; try done. apply not_elem_of_nil.
Qed.

Lemma init_continuous (Logger_attributes : list string) :
  __init__ Logger_attributes continuous_config = Ok continuous_optimizer.
Proof. reflexivity. Qed.

(** C3 on the space with one continuous feature: every budget from one
    iteration on, every sample, every continuous update. *)
Lemma optimize_raises_witness :
  optimize logger_attributes (fun _ => Ok true) step_tenth no_update no_update
           continuous_optimizer [1 / 2] 1 tt
  = Raise AttributeError.
Proof.
  apply (optimize_raises_with_continuous_feature logger_attributes (fun _ => Ok true)
           step_tenth no_update no_update continuous_optimizer [1 / 2] 1 tt).
  - exact logger_has_no_within_bounds.
  - reflexivity.
  - lia.
Defined.

(** C6 at a failing input: a budget of five iterations and an update that
    moves the sample by one tenth, far more than [1e-7]; the loop does not
    get through its first iteration.  On the space without continuous
    features the same budget is run in full. *)
Lemma optimize_iterations_witness :
  optimize_loop logger_attributes (fun _ => Ok true) step_tenth no_update no_update
                continuous_optimizer 5 0 [1 / 2] [1 / 2] tt
  = Raise AttributeError
  /\ exists v st',
       optimize logger_attributes (fun _ => Ok true) step_tenth no_update no_update
                ordinal_optimizer [1 / 2] 5 tt = Ok (v, st', 5%nat).
Proof.
  split.
  - destruct (optimize_iterations logger_attributes (fun _ => Ok true)
                step_tenth no_update no_update continuous_optimizer [1 / 2] 5 tt)
      as (_ & _ & Hraise).
    apply Hraise; [exact logger_has_no_within_bounds|reflexivity].
  - destruct (optimize_iterations logger_attributes (fun _ => Ok true)
                step_tenth no_update no_update ordinal_optimizer [1 / 2] 5 tt)
      as (_ & Hfull & _).
    apply Hfull. reflexivity.
Defined.

(** The constructor raises nothing but what indexing and attribute access
    raise. *)
Lemma parse_positions_exceptions (Logger_attributes : list string) (cfg : config)
    (features : list (nat * string)) (pos : list bool * list bool * list bool) (e : exn) :
  foldlR (parse_position Logger_attributes cfg) pos features = Raise e ->
  e = IndexError \/ e = AttributeError.
Proof.
  revert pos. induction features as [|[feature_index feature_type] features IH]; intros pos;
    cbn [foldlR]; [done|].
  destruct (parse_position Logger_attributes cfg pos (feature_index, feature_type))
    as [pos'|e'] eqn:Hparse; cbn [bindR]; [apply IH|].
  intros [= <-]. clear IH. destruct pos as [[pc pg] pd].
  unfold parse_position, setitem, getitem, getattr, new_GryffinUnknownSettingsError in Hparse.
  repeat (case_match; simplify_eq; cbn [bindR] in *; try done); injection Hparse as <-; auto.
Qed.

(** C5 at its failing inputs.  No configuration makes the constructor of
    the optimizer raise the configuration error.  On the space whose only
    feature has the unknown type ['ordinal'] the constructor returns an
    optimizer that holds the feature in none of its three masks when the
    logger base class provides the attribute [template] the message is
    formatted with, and raises [AttributeError] from that formatting when it
    does not.  In the sampler the dispatch on an unknown type raises
    [UnboundLocalError], and only once a value is drawn. *)
Theorem unknown_feature_type_is_not_reported (Logger_attributes : list string) :
  (forall cfg, __init__ Logger_attributes cfg <> Raise GryffinUnknownSettingsError)
  /\ ("template"%string ∈ Logger_attributes ->
      __init__ Logger_attributes ordinal_config = Ok ordinal_optimizer)
  /\ ("template"%string ∉ Logger_attributes ->
      __init__ Logger_attributes ordinal_config = Raise AttributeError)
  /\ (forall (rng : Type) (random_sample : rng -> R * rng) (random_int : R -> rng -> R * rng)
             (num : nat) (specs : RandomSampler.specifics) (g : rng),
        RandomSampler._draw_single_parameter random_sample random_int num "ordinal" specs g
        = Raise UnboundLocalError).
Proof.
  split_and!.
  - intros cfg Hraise. unfold __init__ in Hraise.
    destruct (foldlR _ _ _) as [[[pc pg] pd]|e] eqn:Hfold; [done|].
    cbn [bindR] in Hraise. injection Hraise as ->.
    by apply parse_positions_exceptions in Hfold as [?|?].
  - intros Hin. unfold __init__. cbn. unfold getattr.
    rewrite decide_True by (apply elem_of_app; by right). done.
  - intros Hnotin. unfold __init__. cbn. unfold getattr.
    rewrite decide_False; [done|].
    intros [Hown|Hlog]%elem_of_app; [|done]. revert Hown.
    change ("template"%string ∉ own_attributes).
    unfold own_attributes. rewrite !not_elem_of_cons.
    split_and!; try done. apply not_elem_of_nil.
  - done.
Qed.

Lemma unknown_feature_type_witness :
  __init__ logger_attributes_with_template ordinal_config = Ok ordinal_optimizer
  /\ __init__ logger_attributes ordinal_config = Raise AttributeError.
Proof.
  split.
  - destruct (unknown_feature_type_is_not_reported logger_attributes_with_template)
      as (_ & Hin & _).
    apply Hin. unfold logger_attributes_with_template. by left.
  - destruct (unknown_feature_type_is_not_reported logger_attributes) as (_ & _ & Hnotin & _).
    apply Hnotin. unfold logger_attributes. rewrite !not_elem_of_cons.
    split_and!; try done. apply not_elem_of_nil.
Defined.

End OptimizerFacts.

(** ** The greedy pass of the selector *)

Section LoopFacts.
Context {S A : Type}.

(** An invariant of a [for] loop, indexed by the number of rounds made. *)
Lemma foldlR_invariant (f : S -> A -> result S) (P : nat -> S -> Prop) (xs : list A) (s s' : S) :
  P 0%nat s ->
  (forall i x s0 s1, xs !! i = Some x -> P i s0 -> f s0 x = Ok s1 -> P (Datatypes.S i) s1) ->
  foldlR f s xs = Ok s' ->
  P (length xs) s'.
Proof.
  revert P s. induction xs as [|x xs IH]; intros P s H0 Hstep; cbn [foldlR length].
  - by intros [= <-].
  - destruct (f s x) as [s1|e] eqn:Hf; [|done]. cbn [bindR].
    apply (IH (fun i => P (Datatypes.S i))).
    + by apply (Hstep 0%nat x s).
    + intros i y s0 s2 Hy. by apply (Hstep (Datatypes.S i)).
Qed.

(** The same for a loop whose body cannot fail while the invariant holds:
    the loop comes to its end. *)
Lemma foldlR_total (f : S -> A -> result S) (P : nat -> S -> Prop) (xs : list A) (s : S) :
  P 0%nat s ->
  (forall i x s0, xs !! i = Some x -> P i s0 ->
     exists s1, f s0 x = Ok s1 /\ P (Datatypes.S i) s1) ->
  exists s', foldlR f s xs = Ok s' /\ P (length xs) s'.
Proof.
  revert P s. induction xs as [|x xs IH]; intros P s H0 Hstep; cbn [foldlR length].
  - by exists s.
  - destruct (Hstep 0%nat x s eq_refl H0) as (s1 & -> & H1). cbn [bindR].
    apply (IH (fun i => P (Datatypes.S i))); [done|].
    intros i y s0 Hy. by apply (Hstep (Datatypes.S i)).
Qed.

(** A loop whose body raises in its first round raises. *)
Lemma foldlR_raise_first (f : S -> A -> result S) (x : A) (xs : list A) (s : S) (e : exn) :
  f s x = Raise e -> foldlR f s (x :: xs) = Raise e.
Proof. intros Hf. cbn. by rewrite Hf. Qed.

End LoopFacts.

Section MapFacts.
Context {A B : Type}.

Lemma mapR_Ok_inv (f : A -> result B) (xs : list A) (ys : list B) (i : nat) (x : A) :
  mapR f xs = Ok ys -> xs !! i = Some x -> exists y, f x = Ok y /\ ys !! i = Some y.
Proof.
  revert ys i. induction xs as [|x0 xs IH]; intros ys i; cbn; [done|].
  destruct (f x0) as [y0|] eqn:Hf; [|done]. cbn.
  destruct (mapR f xs) as [ys0|]; [|done]. cbn. intros [= <-].
  destruct i as [|i]; cbn.
  - intros [= <-]. by exists y0.
  - by apply IH.
Qed.

Lemma mapR_Forall2 (f : A -> result B) (xs : list A) :
  (forall x, x ∈ xs -> exists y, f x = Ok y) ->
  exists ys, mapR f xs = Ok ys /\ Forall2 (fun x y => f x = Ok y) xs ys.
Proof.
  induction xs as [|x xs IH]; intros Hf.
  - by exists [].
  - destruct (Hf x ltac:(left)) as [y Hy].
    destruct IH as (ys & Hys & Hall); [intros z Hz; apply Hf; by right|].
    exists (y :: ys). cbn. rewrite Hy. cbn. rewrite Hys. cbn. split; [done|].
    by constructor.
Qed.

(** [mapR] raises what the first failing element raises. *)
Lemma mapR_raise_at (f : A -> result B) (xs : list A) (k : nat) (x : A) (e : exn) :
  xs !! k = Some x ->
  (forall j y, (j < k)%nat -> xs !! j = Some y -> exists z, f y = Ok z) ->
  f x = Raise e ->
  mapR f xs = Raise e.
Proof.
  revert k. induction xs as [|x0 xs IH]; intros k; [done|].
  destruct k as [|k]; cbn.
  - intros [= ->] _ ->. done.
  - intros Hk Hbefore Hx. destruct (Hbefore 0%nat x0 ltac:(lia) eq_refl) as [z ->]. cbn.
    rewrite (IH k); [done..| |done].
    intros j y Hj Hy. apply (Hbefore (Datatypes.S j) y); [lia|done].
Qed.

End MapFacts.

Module SelectorGreedy.
Import SampleSelector SelectorSpec.

(** *** The reward array *)

(** The reward array of well-shaped proposals, on either path. *)
Lemma _compute_exp_objs_rewards schedule (num_cpus : nat) (proposals : list (list vec))
    (eval_acquisition : vec -> nat -> R) (sampling_param_values : list R) :
  (forall jobs, schedule jobs ≡ₚ jobs) ->
  rectangular proposals ->
  (length sampling_param_values <= length proposals)%nat ->
  _compute_exp_objs schedule num_cpus proposals eval_acquisition sampling_param_values
  = Ok (imap (rewards eval_acquisition) (take (length sampling_param_values) proposals)).
Proof.
  intros Hsched Hrect Hlen. unfold _compute_exp_objs.
  replace (length sampling_param_values)
    with (length (take (length sampling_param_values) proposals)) at 1
    by (rewrite length_take; lia).
  rewrite (mapR_seq_imap _ _ (rewards eval_acquisition) 0); [done|].
  intros j samples Hj. apply lookup_take_Some in Hj as [Hj _]. cbn.
  case_decide.
  - by apply SelectorScoring.parallel_exp_objs_spec; [lia|..].
  - by apply SelectorScoring.compute_exp_objs_sequential.
Qed.

(** Scoring needs at least one strategy among the proposals. *)
Lemma _compute_exp_objs_nonempty schedule (num_cpus : nat) (proposals : list (list vec))
    (eval_acquisition : vec -> nat -> R) (sampling_param_values : list R)
    (exp_objs : list vec) :
  sampling_param_values <> [] ->
  _compute_exp_objs schedule num_cpus proposals eval_acquisition sampling_param_values
  = Ok exp_objs ->
  proposals <> [] /\ exp_objs <> [].
Proof.
  intros Hne Hok. unfold _compute_exp_objs in Hok.
  destruct sampling_param_values as [|v rest]; [done|]. cbn [length seq mapR] in Hok.
  split.
  - intros ->. revert Hok. case_decide; [unfold parallel_exp_objs|]; done.
  - intros ->. revert Hok.
    destruct (if decide _ then _ else _); [|done]. cbn [bindR].
    by destruct (mapR _ _).
Qed.

(** A worker whose split holds no row for the sampling parameter leaves the
    dictionary as it is. *)
Lemma workers_fail (eval_acquisition : vec -> nat -> R) (sampling_param_idx : nat)
    (jobs : list (nat * list (list vec))) (d : gmap nat vec) :
  Forall (fun job => job.2 !! sampling_param_idx = None) jobs ->
  foldl (worker eval_acquisition sampling_param_idx) d jobs = d.
Proof.
  revert d. induction jobs as [|job jobs IH]; intros d Hall; [done|].
  apply Forall_cons in Hall as [Hjob Hall]. cbn [foldl].
  unfold worker at 2, compute_exp_objs, getitem. rewrite Hjob. cbn [bindR]. by apply IH.
Qed.

Lemma parallel_exp_objs_missing schedule (num_cpus : nat) (proposals : list (list vec))
    (eval_acquisition : vec -> nat -> R) (sampling_param_idx : nat) :
  (forall jobs, schedule jobs ≡ₚ jobs) ->
  (0 < num_cpus)%nat ->
  proposals <> [] ->
  (length proposals <= sampling_param_idx)%nat ->
  parallel_exp_objs schedule num_cpus proposals eval_acquisition sampling_param_idx
  = Raise KeyError.
Proof.
  intros Hsched Hcpus Hne Hidx. unfold parallel_exp_objs, np.array_split_axis1.
  destruct proposals as [|row0 rest] eqn:Hp; [done|]. rewrite <- Hp in *.
  rewrite decide_False by lia. cbn [bindR].
  set (splits := _ <$> np.bounds _).
  rewrite workers_fail.
  - assert (Hlen : length splits = num_cpus).
    { subst splits. rewrite length_fmap. by apply length_array_split. }
    rewrite Hlen. destruct num_cpus as [|n]; [lia|]. cbn [seq mapR].
    by rewrite lookup_empty.
  - rewrite Hsched. apply Forall_forall. intros [k split] Hin.
    apply elem_of_lookup_imap in Hin as (k' & split' & [= -> ->] & Hk).
    apply list_elem_of_lookup_2 in Hk. subst splits.
    apply list_elem_of_fmap in Hk as ([st en] & -> & _). cbn.
    apply lookup_ge_None_2. by rewrite length_fmap.
Qed.

(** X1.  When there are more values of the sampling parameter than
    strategies among the (well-shaped, non-empty) proposals, scoring fails
    at the first value without a strategy, and the two paths fail
    differently: the sequential path raises the [IndexError] of
    [proposals[sampling_param_idx]]; on the parallel path that error ends
    the worker processes only, and the parent raises [KeyError] when it
    reads the result of the first worker from the shared dictionary. *)
Theorem scoring_without_strategy_raises schedule (num_cpus : nat)
    (proposals : list (list vec)) (eval_acquisition : vec -> nat -> R)
    (sampling_param_values : list R) :
  (forall jobs, schedule jobs ≡ₚ jobs) ->
  rectangular proposals ->
  proposals <> [] ->
  (length proposals < length sampling_param_values)%nat ->
  ((num_cpus <= 1)%nat ->
   _compute_exp_objs schedule num_cpus proposals eval_acquisition sampling_param_values
   = Raise IndexError)
  /\ ((1 < num_cpus)%nat ->
      _compute_exp_objs schedule num_cpus proposals eval_acquisition sampling_param_values
      = Raise KeyError).
Proof.
  intros Hsched Hrect Hne Hlen.
  assert (Hbefore : forall j y, (j < length proposals)%nat ->
            seq 0 (length sampling_param_values) !! j = Some y ->
            exists z,
              (if decide (1 < num_cpus)%nat
               then parallel_exp_objs schedule num_cpus proposals eval_acquisition y
               else mapOk fst (compute_exp_objs proposals eval_acquisition y 0 None)) = Ok z).
  { intros j y Hj Hy. apply lookup_seq in Hy as [-> _]. cbn.
    destruct (lookup_lt_is_Some_2 proposals j Hj) as [samples Hs].
    case_decide.
    - eexists. by apply SelectorScoring.parallel_exp_objs_spec; [lia|..].
    - eexists. by apply SelectorScoring.compute_exp_objs_sequential. }
  split; intros Hcpus; unfold _compute_exp_objs;
    apply (mapR_raise_at _ _ (length proposals) (length proposals));
    try done; try (by apply lookup_seq).
  - rewrite decide_False by lia. unfold compute_exp_objs, getitem.
    by rewrite lookup_ge_None_2.
  - rewrite decide_True by done. by apply parallel_exp_objs_missing; [|lia|..].
Qed.

(** X1 on one strategy with three candidates and two values of the sampling
    parameter, with one worker and with two. *)
Lemma scoring_without_strategy_witness :
  _compute_exp_objs reverse 1 [[[0]; [1]; [2]]] (fun sample _ => np.sum sample) [1; 2]
  = Raise IndexError
  /\ _compute_exp_objs reverse 2 [[[0]; [1]; [2]]] (fun sample _ => np.sum sample) [1; 2]
     = Raise KeyError.
Proof.
  assert (Hsched : forall jobs : list (nat * list (list vec)), reverse jobs ≡ₚ jobs)
    by (intros jobs; apply reverse_Permutation).
  assert (Hrect : rectangular [[[0]; [1]; [2]]]) by (exists 3%nat; repeat constructor).
  split.
  - apply (scoring_without_strategy_raises reverse 1 [[[0]; [1]; [2]]]
             (fun sample _ => np.sum sample) [1; 2]); [done|done|done|cbn; lia|lia].
  - apply (scoring_without_strategy_raises reverse 2 [[[0]; [1]; [2]]]
             (fun sample _ => np.sum sample) [1; 2]); [done|done|done|cbn; lia|lia].
Defined.

(** *** One round of the greedy pass *)

(** What a successful round of the selection loops has done. *)
Lemma select_one_inv (cfg : config) (char_dists : vec) (proposals : list (list vec))
    (obs_params : list vec) (exp_objs selected exp_objs' selected' : list vec)
    (sampling_param_idx : nat) :
  select_one cfg char_dists proposals obs_params (exp_objs, selected) sampling_param_idx
  = Ok (exp_objs', selected') ->
  exists batch_proposals div_crits rewards largest_reward_index new_sample,
    proposals !! sampling_param_idx = Some batch_proposals
    /\ mapR (div_crit (feature_ranges cfg) char_dists obs_params selected) batch_proposals
       = Ok div_crits
    /\ exp_objs !! sampling_param_idx = Some rewards
    /\ np.argmax (np.mul rewards div_crits) = Ok largest_reward_index
    /\ batch_proposals !! largest_reward_index = Some new_sample
    /\ exp_objs' = <[sampling_param_idx := <[largest_reward_index := 0]> rewards]> exp_objs
    /\ selected' = selected ++ [new_sample].
Proof.
  unfold select_one, getitem.
  destruct (proposals !! sampling_param_idx) as [batch|] eqn:Hb; [|done]. cbn [bindR].
  destruct (mapR _ batch) as [div_crits|] eqn:Hd; [|done]. cbn [bindR].
  destruct (exp_objs !! sampling_param_idx) as [rewards|] eqn:Hr; [|done]. cbn [bindR].
  destruct (np.argmax _) as [i|] eqn:Hi; [|done]. cbn [bindR].
  destruct (batch !! i) as [x|] eqn:Hx; [|done]. cbn [bindR].
  intros [= <- <-]. by exists batch, div_crits, rewards, i, x.
Qed.

(** The selection loops of [_select], seen from their result. *)
Lemma selection_loops_invariant (cfg : config) (char_dists : vec) (proposals : list (list vec))
    (obs_params : list vec) (num_strategies num_batches : nat)
    (Q : list vec -> Prop) (exp_objs : list vec) (st : list vec * list vec) :
  Q [] ->
  (forall exp_objs selected exp_objs' selected' idx,
     (idx < num_strategies)%nat ->
     length selected `mod` num_strategies = idx ->
     Q selected ->
     select_one cfg char_dists proposals obs_params (exp_objs, selected) idx
     = Ok (exp_objs', selected') ->
     Q selected') ->
  foldlR (fun st (batch_idx : nat) =>
            foldlR (select_one cfg char_dists proposals obs_params) st (seq 0 num_strategies))
         (exp_objs, []) (seq 0 num_batches) = Ok st ->
  length st.2 = (num_batches * num_strategies)%nat /\ Q st.2.
Proof.
  intros Hnil Hstep Hloop.
  apply (foldlR_invariant _
           (fun b st => length st.2 = (b * num_strategies)%nat /\ Q st.2)) in Hloop.
  - by rewrite length_seq in Hloop.
  - done.
  - intros b batch_idx st0 st1 _ [Hlen0 HQ0] Hinner.
    apply (foldlR_invariant _
             (fun j st => length st.2 = (b * num_strategies + j)%nat /\ Q st.2)) in Hinner.
    + rewrite length_seq in Hinner. destruct Hinner as [Hl HQ]. split; [lia|done].
    + split; [lia|done].
    + intros j idx [E sel] [E' sel'] Hidx [Hl HQ] Hone.
      apply lookup_seq in Hidx as [-> Hj]. cbn in *. split.
      * apply select_one_inv in Hone as (? & ? & ? & ? & ? & _ & _ & _ & _ & _ & _ & ->).
        rewrite length_app. cbn. lia.
      * eapply Hstep; [exact Hj| |exact HQ|exact Hone].
        rewrite Hl, Nat.add_comm, Nat.Div0.mod_add. by apply Nat.mod_small.
Qed.

(** X2.  The greedy pass returns one sample per batch and strategy, batch
    after batch, and the sample at position [k] is one of the candidates
    that were proposed for strategy [k mod numStrategies]. *)
Theorem _select_picks_from_proposals schedule (slf : self) (num_batches : nat)
    (proposals : list (list vec)) (eval_acquisition : vec -> nat -> R)
    (sampling_param_values : list R) (obs_params samples : list vec) :
  _select schedule slf num_batches proposals eval_acquisition sampling_param_values obs_params
  = Ok samples ->
  length samples = (num_batches * length sampling_param_values)%nat
  /\ forall k x, samples !! k = Some x ->
       exists batch_proposals,
         proposals !! (k `mod` length sampling_param_values)%nat = Some batch_proposals
         /\ x ∈ batch_proposals.
Proof.
  unfold _select.
  destruct (_compute_exp_objs _ _ _ _ _) as [exp_objs|]; [|done]. cbn [bindR].
  destruct (foldlR (zero_identical _ _) _ _) as [exp_objs'|]; [|done]. cbn [bindR].
  destruct (foldlR _ (exp_objs', []) _) as [st|] eqn:Hloop; [|done]. cbn [bindR].
  intros [= <-].
  apply (selection_loops_invariant _ _ _ _ _ _
           (fun selected => forall k x, selected !! k = Some x ->
              exists batch_proposals,
                proposals !! (k `mod` length sampling_param_values)%nat = Some batch_proposals
                /\ x ∈ batch_proposals)) in Hloop; [done|by intros k x; rewrite lookup_nil|].
  intros E sel E' sel' idx Hidx Hmod HQ Hone k x Hk.
  apply select_one_inv in Hone as (batch & ? & ? & i & y & Hb & _ & _ & _ & Hy & _ & ->).
  apply lookup_app_Some in Hk as [Hk|[Hge Hk]]; [by apply HQ|].
  apply list_lookup_singleton_Some in Hk as [Hk <-].
  replace k with (length sel) by lia. rewrite Hmod.
  exists batch. split; [done|]. by eapply list_elem_of_lookup_2.
Qed.

(** X2 on two batches for two strategies with one candidate each. *)
Lemma _select_picks_witness :
  length ([[0]; [1]; [0]; [1]] : list vec)
  = (2 * length SelectorExamples.two_strategies)%nat
  /\ forall k x, ([[0]; [1]; [0]; [1]] : list vec) !! k = Some x ->
       exists batch_proposals,
         SelectorExamples.one_candidate_each
           !! (k `mod` length SelectorExamples.two_strategies)%nat = Some batch_proposals
         /\ x ∈ batch_proposals.
Proof.
  exact (_select_picks_from_proposals (fun jobs => jobs) SelectorExamples.categorical_selector 2
           SelectorExamples.one_candidate_each (fun _ _ => 0) SelectorExamples.two_strategies
           [[2]] [[0]; [1]; [0]; [1]] SelectorBatch.select_two_rounds).
Defined.

(** X3.  The greedy pass cannot run before the first observation: with an
    empty array of observed parameters and at least one value of the
    sampling parameter, the distances of the first strategy's candidates to
    the observations have no minimum, and [_select], and [select] with it,
    raises [ValueError] once the rewards are computed, for every number of
    batches. *)
Theorem select_without_observations_raises {rng : Type}
    (permutation : nat -> rng -> list nat * rng) schedule (slf : self) (num_batches : nat)
    (proposals : list (list vec)) (eval_acquisition : vec -> nat -> R)
    (sampling_param_values : list R) (exp_objs : list vec) (g : rng) :
  sampling_param_values <> [] ->
  _compute_exp_objs schedule (num_cpus slf) proposals eval_acquisition sampling_param_values
  = Ok exp_objs ->
  _select schedule slf num_batches proposals eval_acquisition sampling_param_values []
  = Raise ValueError
  /\ select permutation schedule slf num_batches proposals eval_acquisition
            sampling_param_values [] g
     = Raise ValueError.
Proof.
  intros Hne Hscore.
  assert (Hsel : _select schedule slf num_batches proposals eval_acquisition
                         sampling_param_values [] = Raise ValueError).
  { destruct (_compute_exp_objs_nonempty _ _ _ _ _ _ Hne Hscore) as [Hp He].
    unfold _select. rewrite Hscore. cbn [bindR].
    destruct sampling_param_values as [|v rest]; [done|]. cbn [length seq].
    rewrite (foldlR_raise_first _ _ _ _ ValueError); [done|].
    unfold zero_identical, getitem, shape1.
    destruct proposals as [|rows proposals']; [done|].
    destruct exp_objs as [|row exp_objs']; [done|]. cbn [fmap list_fmap lookup list_lookup bindR].
    destruct (take (length row) (normalise (self_config slf) <$> rows)) as [|b bs]; [done|].
    done. }
  split; [done|]. unfold select. by rewrite Hsel.
Qed.

(** X3 on two strategies with one candidate each. *)
Lemma select_without_observations_witness :
  _select (fun jobs => jobs) SelectorExamples.categorical_selector 1
          SelectorExamples.one_candidate_each (fun _ _ => 0) SelectorExamples.two_strategies []
  = Raise ValueError
  /\ select (fun n (g : unit) => (seq 0 n, g)) (fun jobs => jobs)
            SelectorExamples.categorical_selector 1
            SelectorExamples.one_candidate_each (fun _ _ => 0)
            SelectorExamples.two_strategies [] tt
     = Raise ValueError.
Proof.
  apply (select_without_observations_raises (fun n (g : unit) => (seq 0 n, g)) (fun jobs => jobs)
           SelectorExamples.categorical_selector 1 SelectorExamples.one_candidate_each
           (fun _ _ => 0) SelectorExamples.two_strategies [[exp (- 0)]; [exp (- 0)]] tt).
  - discriminate.
  - reflexivity.
Defined.

(** [np.argmax]: the first index that holds the largest value. *)
Lemma argmax_from_spec (rest : vec) (i : nat) (best : R) (bi : nat) :
  (bi < i)%nat ->
  exists m,
    ((np.argmax_from i best bi rest = bi /\ m = best)
     \/ ((i <= np.argmax_from i best bi rest)%nat
         /\ rest !! (np.argmax_from i best bi rest - i)%nat = Some m /\ best < m))
    /\ best <= m
    /\ (forall j x, rest !! j = Some x -> x <= m)
    /\ (forall j x, rest !! j = Some x -> (i + j < np.argmax_from i best bi rest)%nat -> x < m).
Proof.
  revert i best bi. induction rest as [|x rest IH]; intros i best bi Hbi; cbn [np.argmax_from].
  - exists best. split_and!; [by left|lra|..]; intros j y Hy; by rewrite lookup_nil in Hy.
  - case_decide as Hx.
    + destruct (IH (S i) x i ltac:(lia)) as (m & Hr & Hxm & Hall & Hstrict).
      set (r := np.argmax_from (S i) x i rest) in *.
      exists m. split_and!.
      * right. destruct Hr as [[Hr ->]|(Hge & Hm & Hlt)].
        -- rewrite Hr, Nat.sub_diag. split_and!; [lia|done|lra].
        -- split_and!; [lia| |lra].
           replace (r - i)%nat with (S (r - S i)) by lia. done.
      * lra.
      * intros [|j] y; cbn; [intros [= <-]; lra|apply Hall].
      * intros [|j] y; cbn.
        -- intros [= <-] Hlt. destruct Hr as [[Hr ->]|(_ & _ & ?)]; [lia|lra].
        -- intros Hy Hlt. apply (Hstrict j y Hy). lia.
    + destruct (IH (S i) best bi ltac:(lia)) as (m & Hr & Hbm & Hall & Hstrict).
      set (r := np.argmax_from (S i) best bi rest) in *.
      exists m. split_and!.
      * destruct Hr as [[Hr ->]|(Hge & Hm & Hlt)]; [by left|right].
        split_and!; [lia| |lra].
        replace (r - i)%nat with (S (r - S i)) by lia. done.
      * done.
      * intros [|j] y; cbn; [intros [= <-]; lra|apply Hall].
      * intros [|j] y; cbn.
        -- intros [= <-] Hlt. destruct Hr as [[Hr ->]|(_ & _ & ?)]; [lia|lra].
        -- intros Hy Hlt. apply (Hstrict j y Hy). lia.
Qed.

Lemma argmax_spec (a : vec) (i : nat) :
  np.argmax a = Ok i ->
  exists m, a !! i = Some m
    /\ (forall j x, a !! j = Some x -> x <= m)
    /\ (forall j x, (j < i)%nat -> a !! j = Some x -> x < m).
Proof.
  destruct a as [|x rest]; [done|]. cbn [np.argmax]. intros [= <-].
  destruct (argmax_from_spec rest 1 x 0 ltac:(lia)) as (m & Hr & Hxm & Hall & Hstrict).
  set (r := np.argmax_from 1 x 0 rest) in *.
  exists m. split_and!.
  - destruct Hr as [[-> ->]|(Hge & Hm & _)]; [done|].
    replace r with (S (r - 1)) by lia. done.
  - intros [|j] y; cbn; [intros [= <-]; lra|apply Hall].
  - intros [|j] y Hj; cbn.
    + intros [= <-]. destruct Hr as [[Hr ->]|(_ & _ & ?)]; [lia|lra].
    + intros Hy. apply (Hstrict j y Hy). lia.
Qed.

Lemma argmax_total (a : vec) : a <> [] -> exists i, np.argmax a = Ok i /\ (i < length a)%nat.
Proof.
  intros Hne. destruct a as [|x rest]; [done|]. eexists. split; [done|].
  destruct (argmax_spec (x :: rest) _ eq_refl) as (m & Hm & _).
  by eapply lookup_lt_Some.
Qed.

(** X4.  One round of the selection loops: among the candidates of its
    strategy the round selects the one whose reward times diversity factor
    is largest, the first of them when several are; it appends that
    candidate to the selected samples and sets its reward to zero, and
    leaves every other reward as it is. *)
Theorem select_one_takes_first_largest (cfg : config) (char_dists : vec)
    (proposals : list (list vec)) (obs_params : list vec)
    (exp_objs selected exp_objs' selected' : list vec) (sampling_param_idx : nat) :
  select_one cfg char_dists proposals obs_params (exp_objs, selected) sampling_param_idx
  = Ok (exp_objs', selected') ->
  exists batch_proposals div_crits rewards largest_reward_index new_sample reward div,
    proposals !! sampling_param_idx = Some batch_proposals
    /\ mapR (div_crit (feature_ranges cfg) char_dists obs_params selected) batch_proposals
       = Ok div_crits
    /\ exp_objs !! sampling_param_idx = Some rewards
    /\ batch_proposals !! largest_reward_index = Some new_sample
    /\ rewards !! largest_reward_index = Some reward
    /\ div_crits !! largest_reward_index = Some div
    /\ (forall j r c, rewards !! j = Some r -> div_crits !! j = Some c ->
          r * c <= reward * div)
    /\ (forall j r c, (j < largest_reward_index)%nat ->
          rewards !! j = Some r -> div_crits !! j = Some c -> r * c < reward * div)
    /\ selected' = selected ++ [new_sample]
    /\ exp_objs' = <[sampling_param_idx := <[largest_reward_index := 0]> rewards]> exp_objs.
Proof.
  intros Hone.
  apply select_one_inv in Hone
    as (batch & div_crits & rewards & i & x & Hb & Hd & Hr & Hi & Hx & -> & ->).
  apply argmax_spec in Hi as (m & Hm & Hall & Hstrict).
  unfold np.mul in Hm. apply lookup_zip_with_Some in Hm as (reward & div & -> & Hri & Hdi).
  exists batch, div_crits, rewards, i, x, reward, div. split_and!; try done.
  - intros j r c Hrj Hcj. apply (Hall j). unfold np.mul.
    apply lookup_zip_with_Some. by exists r, c.
  - intros j r c Hj Hrj Hcj. apply (Hstrict j); [done|]. unfold np.mul.
    apply lookup_zip_with_Some. by exists r, c.
Qed.

Lemma sqrt_INR_1 : sqrt (INR 1) = 1.
Proof. cbn. apply sqrt_1. Qed.

Lemma example_div_crit_far : div_crit [2] [2 / sqrt (INR 1)] [[2]] [] [0] = Ok 1.
Proof.
  unfold div_crit. cbn [fmap list_fmap np.amin_axis0 bindR].
  rewrite decide_False by (cbn; lia). cbn [bindR].
  rewrite sqrt_INR_1. f_equal.
  unfold np.sub, np.abs, np.div, np.mean, np.sum. cbn.
  replace (2 * (Rabs (0 - 2) - 2 / 1) / 2) with 0.
  - rewrite exp_0. rewrite Rmin_left; lra.
  - unfold Rabs. destruct (Rcase_abs _); lra.
Qed.

Lemma example_div_crit_near : div_crit [2] [2 / sqrt (INR 1)] [[2]] [] [1] = Ok (exp (- 1)).
Proof.
  unfold div_crit. cbn [fmap list_fmap np.amin_axis0 bindR].
  rewrite decide_False by (cbn; lia). cbn [bindR].
  rewrite sqrt_INR_1. f_equal.
  unfold np.sub, np.abs, np.div, np.mean, np.sum. cbn.
  replace (2 * (Rabs (1 - 2) - 2 / 1) / 2) with (- 1).
  - pose proof SelectorDiversity.exp_minus_1_lt_1. rewrite Rmin_right; lra.
  - unfold Rabs. destruct (Rcase_abs _); lra.
Qed.

Lemma example_div_crit_above : div_crit [2] [2 / sqrt (INR 1)] [[2]] [] [4] = Ok 1.
Proof.
  unfold div_crit. cbn [fmap list_fmap np.amin_axis0 bindR].
  rewrite decide_False by (cbn; lia). cbn [bindR].
  rewrite sqrt_INR_1. f_equal.
  unfold np.sub, np.abs, np.div, np.mean, np.sum. cbn.
  replace (2 * (Rabs (4 - 2) - 2 / 1) / 2) with 0.
  - rewrite exp_0. rewrite Rmin_left; lra.
  - unfold Rabs. destruct (Rcase_abs _); lra.
Qed.

(** A round on three candidates with equal rewards: the first candidate
    lies closer to the observation than the other two, which lie equally
    far from it, and the round selects the second. *)
Lemma example_round :
  select_one SelectorExamples.categorical_config [2 / sqrt (INR 1)]
             SelectorExamples.three_candidates [[2]] ([[1; 1; 1]], []) 0
  = Ok ([[1; 0; 1]], [[0]]).
Proof.
  unfold select_one, SelectorExamples.three_candidates.
  cbn [getitem lookup list_lookup bindR mapR].
  change (feature_ranges SelectorExamples.categorical_config) with [2].
  rewrite example_div_crit_near, example_div_crit_far, example_div_crit_above.
  cbn [bindR]. unfold np.mul. cbn [zip_with np.argmax np.argmax_from].
  pose proof SelectorDiversity.exp_minus_1_lt_1.
  rewrite decide_True by lra. rewrite decide_False by lra.
  done.
Qed.

(** X4 on this round: the largest product of reward and diversity factor
    is reached by the second and by the third candidate, and the second is
    selected. *)
Lemma select_one_takes_first_largest_witness :
  exists batch_proposals div_crits rewards largest_reward_index new_sample reward div,
    SelectorExamples.three_candidates !! 0%nat = Some batch_proposals
    /\ mapR (div_crit (feature_ranges SelectorExamples.categorical_config)
                      [2 / sqrt (INR 1)] [[2]] [])
            batch_proposals
       = Ok div_crits
    /\ ([[1; 1; 1]] : list vec) !! 0%nat = Some rewards
    /\ batch_proposals !! largest_reward_index = Some new_sample
    /\ rewards !! largest_reward_index = Some reward
    /\ div_crits !! largest_reward_index = Some div
    /\ (forall j r c, rewards !! j = Some r -> div_crits !! j = Some c ->
          r * c <= reward * div)
    /\ (forall j r c, (j < largest_reward_index)%nat ->
          rewards !! j = Some r -> div_crits !! j = Some c -> r * c < reward * div)
    /\ ([[0]] : list vec) = [] ++ [new_sample]
    /\ ([[1; 0; 1]] : list vec)
       = <[0%nat := <[largest_reward_index := 0]> rewards]> [[1; 1; 1]].
Proof.
  exact (select_one_takes_first_largest SelectorExamples.categorical_config
           [2 / sqrt (INR 1)] SelectorExamples.three_candidates [[2]] [[1; 1; 1]] []
           [[1; 0; 1]] [[0]] 0 example_round).
Defined.

(** *** Candidates that were observed already *)

(** [np.amin] of a non-empty 1-D array. *)
Lemma amin_spec (a : vec) :
  a <> [] -> exists m, np.amin a = Ok m /\ m ∈ a /\ forall x, x ∈ a -> m <= x.
Proof.
  induction a as [|x rest IH]; intros Hne; [done|].
  destruct rest as [|y rest].
  - exists x. split_and!; [done|by left|]. intros z Hz.
    apply list_elem_of_singleton in Hz as ->. lra.
  - destruct (IH ltac:(done)) as (m & Hm & Hin & Hmin).
    exists (Rmin x m).
    change (np.amin (x :: y :: rest)) with (let* m := np.amin (y :: rest) in Ok (Rmin x m)).
    rewrite Hm. split_and!; [done| |].
    + unfold Rmin. destruct (Rle_dec x m); [by left|by right].
    + intros z Hz. apply elem_of_cons in Hz as [->|Hz]; [apply Rmin_l|].
      etrans; [apply Rmin_r|]. by apply Hmin.
Qed.

(** The first loop of [_select] for one strategy: the rewards of the
    candidates that were observed already become zero, the others stay. *)
Lemma zero_identical_spec (cfg : config) (n : nat) (proposals : list (list vec))
    (obs_params : list vec) (exp_objs : list vec) (idx : nat)
    (batch_proposals : list vec) (row : vec) :
  (0 < n)%nat ->
  obs_params <> [] ->
  Forall (fun row => length row = n) exp_objs ->
  proposals !! idx = Some batch_proposals ->
  length batch_proposals = n ->
  exp_objs !! idx = Some row ->
  exists row',
    zero_identical (normalise cfg <$> obs_params)
                   ((fun rows : list vec => normalise cfg <$> rows) <$> proposals)
                   exp_objs idx
    = Ok (<[idx := row']> exp_objs)
    /\ length row' = n
    /\ forall i c e, batch_proposals !! i = Some c -> row !! i = Some e ->
         exists e', row' !! i = Some e'
           /\ (observed_already cfg obs_params c -> e' = 0)
           /\ (~ observed_already cfg obs_params c -> e' = e).
Proof.
  intros Hn Hobs Hrows Hbatch Hlen Hrow.
  unfold zero_identical, getitem, shape1.
  rewrite list_lookup_fmap, Hbatch. cbn [fmap option_fmap option_map bindR].
  destruct exp_objs as [|row0 exp_objs0] eqn:HE; [done|]. rewrite <- HE in *.
  assert (Hrow0 : length row0 = n).
  { rewrite Forall_forall in Hrows. apply Hrows. rewrite HE. by left. }
  cbn [bindR]. rewrite Hrow0.
  rewrite take_ge by (rewrite length_fmap; lia).
  set (distances := sq_distances (normalise cfg <$> obs_params)
                      <$> (normalise cfg <$> batch_proposals)).
  destruct (mapR_Forall2 np.amin distances) as (min_distances & Hmins & Hall).
  { intros dist Hin. subst distances.
    apply list_elem_of_fmap in Hin as (c & -> & _).
    destruct (amin_spec (sq_distances (normalise cfg <$> obs_params) c)) as (m & Hm & _).
    - unfold sq_distances. by destruct obs_params.
    - by exists m. }
  assert (Hne : distances <> []).
  { subst distances. destruct batch_proposals; [cbn in Hlen; lia|done]. }
  replace (match distances with [] => Raise ValueError | _ :: _ => mapR np.amin distances end)
    with (mapR np.amin distances) by (by destruct distances).
  rewrite Hmins. cbn [bindR]. rewrite Hrow. cbn [bindR].
  eexists. split_and!; [done| |].
  - rewrite length_imap. rewrite Forall_forall in Hrows. apply Hrows.
    by eapply list_elem_of_lookup_2.
  - intros i c e Hc He. rewrite list_lookup_imap, He. cbn [fmap option_fmap option_map].
    assert (Hdi : distances !! i
                  = Some (sq_distances (normalise cfg <$> obs_params) (normalise cfg c))).
    { unfold distances. by rewrite !list_lookup_fmap, Hc. }
    destruct (Forall2_lookup_l _ _ _ _ _ Hall Hdi) as (m & Hmi & Hm).
    rewrite Hmi.
    destruct (amin_spec (sq_distances (normalise cfg <$> obs_params) (normalise cfg c)))
      as (m' & Hm' & Hin & Hmin).
    { unfold sq_distances. by destruct obs_params. }
    rewrite Hm in Hm'. injection Hm' as <-.
    eexists. split; [done|]. case_decide as Hclose; split; try done.
    + intros Hnot. destruct Hnot. unfold sq_distances in Hin.
      apply list_elem_of_fmap in Hin as (o' & Hmo & Ho').
      apply list_elem_of_fmap in Ho' as (o & -> & Ho).
      exists o. split; [done|]. by rewrite <- Hmo.
    + intros (o & Ho & Hlt). destruct Hclose.
      eapply Rle_lt_trans; [|exact Hlt]. apply Hmin. unfold sq_distances.
      apply list_elem_of_fmap. eexists. split; [done|].
      apply list_elem_of_fmap. by exists o.
Qed.

(** The mean of exponentials is positive. *)
Lemma mean_exp_positive (a : vec) : a <> [] -> 0 < np.mean (exp <$> a).
Proof.
  intros Hne. unfold np.mean, Rdiv. apply Rmult_lt_0_compat.
  - destruct a as [|x rest]; [done|]. unfold np.sum. cbn [fmap list_fmap foldr].
    assert (0 <= foldr Rplus 0 (exp <$> rest)).
    { clear. induction rest as [|y rest IH]; cbn; [lra|]. pose proof (exp_pos y). lra. }
    pose proof (exp_pos x). lra.
  - apply Rinv_0_lt_compat, lt_0_INR. rewrite length_fmap. destruct a; [done|cbn; lia].
Qed.

(** On arrays of one width the diversity factor is defined and positive. *)
Lemma div_crit_positive (d : nat) (feature_ranges char_dists : vec)
    (obs_params selected_samples : list vec) (proposal : vec) :
  (0 < d)%nat ->
  length feature_ranges = d ->
  length char_dists = d ->
  obs_params <> [] ->
  Forall (fun x => length x = d) obs_params ->
  Forall (fun x => length x = d) selected_samples ->
  length proposal = d ->
  exists c, div_crit feature_ranges char_dists obs_params selected_samples proposal = Ok c
    /\ 0 < c.
Proof.
  intros Hd Hfr Hcd Hobs Hobs_len Hsel_len Hp. unfold div_crit.
  destruct (SelectorDiversity.amin_abs_distance d proposal obs_params Hobs Hp Hobs_len)
    as (m_obs & -> & Hlen_obs & _). cbn [bindR].
  assert (Hpos : forall min_distance, length min_distance = d ->
            0 < Rmin 1 (np.mean (exp <$> np.div ((fun x => 2 * x)
                                    <$> np.sub min_distance char_dists) feature_ranges))).
  { intros md Hmd. apply Rmin_glb_lt; [lra|]. apply mean_exp_positive.
    intros Hnil. apply (f_equal length) in Hnil. revert Hnil.
    unfold np.div, np.sub. rewrite length_zip_with, length_fmap, length_zip_with.
    cbn. lia. }
  case_decide as Hsel.
  - destruct (SelectorDiversity.amin_abs_distance d proposal selected_samples)
      as (m_sel & -> & Hlen_sel & _); [by destruct selected_samples; cbn in *; [lia|]|done..|].
    cbn [bindR]. eexists. split; [done|]. apply Hpos.
    unfold np.minimum. rewrite length_zip_with. lia.
  - cbn [bindR]. eexists. split; [done|]. by apply Hpos.
Qed.

(** X5.  On well-shaped arrays, and with acquisition values whose
    rewards [exp(-acq)] double precision tells from zero, the greedy pass
    for one batch returns one sample per strategy, and it does not
    recommend a candidate that was observed already (one within [1e-8], in
    squared normalised distance, of an observed sample) as long as the
    strategy has a candidate that was not. *)
Theorem first_batch_avoids_observed schedule (slf : self) (d n : nat)
    (proposals : list (list vec)) (eval_acquisition : vec -> nat -> R)
    (sampling_param_values : list R) (obs_params : list vec) :
  (forall jobs, schedule jobs ≡ₚ jobs) ->
  well_shaped (self_config slf) d n proposals obs_params ->
  (length sampling_param_values <= length proposals)%nat ->
  moderate_acquisition eval_acquisition ->
  exists samples,
    _select schedule slf 1 proposals eval_acquisition sampling_param_values obs_params
    = Ok samples
    /\ length samples = length sampling_param_values
    /\ forall k x batch_proposals,
         samples !! k = Some x ->
         proposals !! k = Some batch_proposals ->
         (exists c, c ∈ batch_proposals /\ ~ observed_already (self_config slf) obs_params c) ->
         ~ observed_already (self_config slf) obs_params x.
Proof.
  intros Hsched (Hd & Hn & Hfr & _ & _ & _ & Hshape & Hobs & Hobs_len) Hlen _.
  set (cfg := self_config slf). set (num := length sampling_param_values).
  assert (Hrect : rectangular proposals).
  { exists n. eapply Forall_impl; [exact Hshape|]. by intros batch [? _]. }
  assert (Hbatch : forall k batch, proposals !! k = Some batch ->
            length batch = n /\ Forall (fun x => length x = d) batch).
  { intros k batch Hk. rewrite Forall_forall in Hshape.
    apply Hshape. by eapply list_elem_of_lookup_2. }
  unfold _select. fold cfg.
  rewrite (_compute_exp_objs_rewards _ _ _ _ _ Hsched Hrect Hlen). cbn [bindR]. fold num.
  set (exp_objs0 := imap (rewards eval_acquisition) (take num proposals)).
  assert (Hlen0 : length exp_objs0 = num).
  { subst exp_objs0. rewrite length_imap, length_take. lia. }
  assert (Hrow0 : forall k batch, (k < num)%nat -> proposals !! k = Some batch ->
            exp_objs0 !! k = Some (rewards eval_acquisition k batch)).
  { intros k batch Hk Hb. subst exp_objs0.
    rewrite list_lookup_imap, lookup_take_lt, Hb by done. done. }
  (* the first loop *)
  set (zeroed := fun (k : nat) (row : vec) =>
         length row = n
         /\ forall batch i c e, proposals !! k = Some batch -> batch !! i = Some c ->
              row !! i = Some e ->
              (observed_already cfg obs_params c -> e = 0)
              /\ (~ observed_already cfg obs_params c -> 0 < e)).
  destruct (foldlR_total
              (zero_identical (normalise cfg <$> obs_params)
                 ((fun rows : list vec => normalise cfg <$> rows) <$> proposals))
              (fun j exp_objs =>
                 length exp_objs = num
                 /\ Forall (fun row => length row = n) exp_objs
                 /\ (forall k row, (k < j)%nat -> exp_objs !! k = Some row -> zeroed k row)
                 /\ (forall k, (j <= k)%nat -> exp_objs !! k = exp_objs0 !! k))
              (seq 0 num) exp_objs0) as (exp_objs1 & -> & Hzero).
  { split_and!; [done| |intros; lia|done].
    apply Forall_lookup. intros k row Hk.
    assert (k < num)%nat by (rewrite <- Hlen0; by eapply lookup_lt_Some).
    destruct (lookup_lt_is_Some_2 proposals k ltac:(lia)) as [batch Hb].
    rewrite (Hrow0 k batch) in Hk by done. injection Hk as <-.
    unfold rewards. rewrite length_fmap. by apply (Hbatch k). }
  { intros j idx E Hidx (HlenE & HrowsE & Hdone & Htodo).
    apply lookup_seq in Hidx as [-> Hj]. cbn in *.
    destruct (lookup_lt_is_Some_2 proposals j ltac:(lia)) as [batch Hb].
    destruct (Hbatch j batch Hb) as [Hbn Hbd].
    assert (Hrow : E !! j = Some (rewards eval_acquisition j batch)).
    { rewrite Htodo by lia. by apply Hrow0. }
    destruct (zero_identical_spec cfg n proposals obs_params E j batch _
                Hn Hobs HrowsE Hb Hbn Hrow) as (row' & -> & Hlen' & Hrow').
    eexists. split; [done|]. split_and!.
    - by rewrite length_insert.
    - apply Forall_insert; done.
    - intros k row Hk Hlook. destruct (decide (k = j)) as [->|Hne].
      + rewrite list_lookup_insert_eq in Hlook by lia. injection Hlook as <-.
        split; [done|]. intros batch' i c e Hb' Hc He.
        rewrite Hb in Hb'. injection Hb' as <-.
        assert (Hri : rewards eval_acquisition j batch !! i
                      = Some (exp (- eval_acquisition c j))).
        { unfold rewards. by rewrite list_lookup_fmap, Hc. }
        destruct (Hrow' i c _ Hc Hri) as (e' & He' & Hyes & Hno).
        rewrite He in He'. injection He' as <-. split; [done|].
        intros Hnot. rewrite (Hno Hnot). apply exp_pos.
      + rewrite list_lookup_insert_ne in Hlook by done. apply Hdone; [lia|done].
    - intros k Hk. rewrite list_lookup_insert_ne by lia. apply Htodo. lia. }
  cbn [bindR]. rewrite length_seq in Hzero.
  destruct Hzero as (Hlen1 & Hrows1 & Hzeroed & _).
  (* the selection loops *)
  cbn [seq foldlR].
  set (char_dists := (fun r => r / sqrt (INR (length obs_params))) <$> feature_ranges cfg).
  destruct (foldlR_total
              (select_one cfg char_dists proposals obs_params)
              (fun j st =>
                 length st.2 = j
                 /\ length st.1 = num
                 /\ (forall k, (j <= k)%nat -> st.1 !! k = exp_objs1 !! k)
                 /\ Forall (fun x => length x = d) st.2
                 /\ forall k x batch, st.2 !! k = Some x -> proposals !! k = Some batch ->
                      (exists c, c ∈ batch /\ ~ observed_already cfg obs_params c) ->
                      ~ observed_already cfg obs_params x)
              (seq 0 num) (exp_objs1, [])) as ([exp_objs2 selected] & -> & Hsel).
  { cbn. split_and!; [done..|constructor|]. intros k x batch Hk. by rewrite lookup_nil in Hk. }
  { intros j idx [E sel] Hidx (Hsel_len & HlenE & Htodo & Hsel_d & Hgood).
    apply lookup_seq in Hidx as [-> Hj]. cbn in *.
    destruct (lookup_lt_is_Some_2 proposals j ltac:(lia)) as [batch Hb].
    destruct (Hbatch j batch Hb) as [Hbn Hbd].
    destruct (lookup_lt_is_Some_2 exp_objs1 j ltac:(lia)) as [row Hrow].
    destruct (Hzeroed j row ltac:(lia) Hrow) as [Hrow_len Hrow_z].
    destruct (mapR_Forall2 (div_crit (feature_ranges cfg) char_dists obs_params sel) batch)
      as (div_crits & Hdiv & Hdivs).
    { intros c Hc. rewrite Forall_forall in Hbd.
      destruct (div_crit_positive d (feature_ranges cfg) char_dists obs_params sel c)
        as (v & Hv & _); try done; [subst char_dists; by rewrite length_fmap|by apply Hbd|].
      by exists v. }
    assert (Hdiv_len : length div_crits = n).
    { apply Forall2_length in Hdivs. lia. }
    assert (Hdiv_pos : forall i v, div_crits !! i = Some v -> 0 < v).
    { intros i v Hv. destruct (Forall2_lookup_r _ _ _ _ _ Hdivs Hv) as (c & Hc & Hcv).
      rewrite Forall_forall in Hbd.
      destruct (div_crit_positive d (feature_ranges cfg) char_dists obs_params sel c)
        as (v' & Hv' & Hpos); try done;
        [subst char_dists; by rewrite length_fmap|by eapply Hbd, list_elem_of_lookup_2|].
      rewrite Hcv in Hv'. by injection Hv' as <-. }
    destruct (argmax_total (np.mul row div_crits)) as (i & Hi & Hi_lt).
    { intros Hnil. apply (f_equal length) in Hnil. revert Hnil.
      unfold np.mul. rewrite length_zip_with. cbn. lia. }
    unfold np.mul in Hi_lt. rewrite length_zip_with in Hi_lt.
    destruct (lookup_lt_is_Some_2 batch i ltac:(lia)) as [x Hx].
    unfold select_one, getitem. rewrite Hb. cbn [bindR]. rewrite Hdiv. cbn [bindR].
    rewrite (Htodo j) by lia. rewrite Hrow. cbn [bindR]. rewrite Hi. cbn [bindR].
    rewrite Hx. cbn [bindR]. eexists. split; [done|]. cbn. split_and!.
    - rewrite length_app. cbn. lia.
    - by rewrite length_insert.
    - intros k Hk. rewrite list_lookup_insert_ne by lia. apply Htodo. lia.
    - apply Forall_app. split; [done|]. constructor; [|done].
      rewrite Forall_forall in Hbd. by eapply Hbd, list_elem_of_lookup_2.
    - intros k y batch' Hk Hb' Hfresh.
      apply lookup_app_Some in Hk as [Hk|[Hge Hk]]; [by eapply Hgood|].
      apply list_lookup_singleton_Some in Hk as [Hk <-].
      assert (k = j) as -> by lia. rewrite Hb in Hb'. injection Hb' as <-.
      destruct Hfresh as (c & Hc & Hnot).
      apply list_elem_of_lookup_1 in Hc as [jc Hjc].
      destruct (lookup_lt_is_Some_2 row jc) as [rc Hrc];
        [rewrite Hrow_len, <- Hbn; by eapply lookup_lt_Some|].
      destruct (lookup_lt_is_Some_2 div_crits jc) as [dc Hdc];
        [rewrite Hdiv_len, <- Hbn; by eapply lookup_lt_Some|].
      destruct (Hrow_z batch jc c rc Hb Hjc Hrc) as [_ Hrc_pos]. specialize (Hrc_pos Hnot).
      pose proof (Hdiv_pos jc dc Hdc) as Hdc_pos.
      apply argmax_spec in Hi as (m & Hm & Hall & _).
      unfold np.mul in Hm. apply lookup_zip_with_Some in Hm as (ri & di & -> & Hri & Hdi).
      assert (Hle : rc * dc <= ri * di).
      { apply (Hall jc). unfold np.mul. apply lookup_zip_with_Some. by exists rc, dc. }
      intros Hseen. destruct (Hrow_z batch i x ri Hb Hx Hri) as [Hzero_i _].
      rewrite (Hzero_i Hseen) in Hle. nra. }
  cbn [bindR]. rewrite length_seq in Hsel. cbn in Hsel.
  destruct Hsel as (Hsel_len & _ & _ & _ & Hgood).
  exists selected. split_and!; done.
Qed.

(** On the categorical space the observation [[2]] is observed already,
    the candidate [[0]] is not. *)
Lemma example_observed :
  observed_already SelectorExamples.categorical_config [[2]] [2]
  /\ ~ observed_already SelectorExamples.categorical_config [[2]] [0].
Proof.
  unfold observed_already, normalise, np.sub, np.div, np.sum. split.
  - exists [2]. split; [by left|]. cbn. lra.
  - intros (o & Ho & Hlt). apply list_elem_of_singleton in Ho as ->. cbn in Hlt. lra.
Qed.

(** X5 on one strategy with two candidates, the first of which is the
    observation [[2]]: the sample of the batch is not the observed one. *)
Lemma first_batch_avoids_observed_witness :
  exists samples,
    _select (fun jobs => jobs) SelectorExamples.categorical_selector 1
            SelectorExamples.observed_first (fun _ _ => 0) [1] [[2]]
    = Ok samples
    /\ length samples = 1%nat
    /\ (forall x, samples !! 0%nat = Some x ->
                  ~ observed_already SelectorExamples.categorical_config [[2]] x)
    /\ observed_already SelectorExamples.categorical_config [[2]] [2].
Proof.
  destruct (first_batch_avoids_observed (fun jobs => jobs) SelectorExamples.categorical_selector
              1 2 SelectorExamples.observed_first (fun _ _ => 0) [1] [[2]])
    as (samples & Hsel & Hlen & Hfresh).
  - done.
  - unfold well_shaped. cbn. split_and!; [lia|lia|done| | |done| |done|].
    + repeat constructor. lra.
    + repeat constructor. lra.
    + repeat constructor.
    + repeat constructor.
  - cbn. lia.
  - intros sample idx. rewrite Rabs_R0. lra.
  - exists samples. split_and!; [done|done| |apply example_observed].
    intros x Hx. apply (Hfresh 0%nat x [[2]; [0]] Hx eq_refl).
    exists [0]. split; [|apply example_observed]. right. by left.
Defined.

End SelectorGreedy.

(** ** The batch [select] returns and the option pool it leaves *)

Module SelectorPool.
Import SampleSelector SelectorSpec SelectorExamples.

#[local] Existing Instances row_le_total row_le_trans row_le_antisymm.

Lemma filter_notin_nil (l : list vec) : filter (fun x => x ∉ []) l = l.
Proof.
  induction l as [|x l IH]; [done|].
  rewrite filter_cons_True by apply not_elem_of_nil. by f_equal.
Qed.

Section Pool.
Context {rng : Type} (permutation : nat -> rng -> list nat * rng).
Hypothesis permutation_spec : forall n g, (permutation n g).1 ≡ₚ seq 0 n.

(** [select], branch by branch. *)
Lemma select_inv schedule
    (slf : self) (num_batches : nat) (proposals : list (list vec))
    (eval_acquisition : vec -> nat -> R) (sampling_param_values : list R)
    (obs_params : list vec) (g : rng) (pool result : list vec) (slf' : self) (g' : rng) :
  all_options slf = Some pool ->
  select permutation schedule slf num_batches proposals eval_acquisition sampling_param_values
         obs_params g = Ok (result, slf', g') ->
  exists samples kept missing pool',
    _select schedule slf num_batches proposals eval_acquisition sampling_param_values obs_params
    = Ok samples
    /\ result = kept ++ missing
    /\ slf' = {| self_config := self_config slf; all_options := Some pool';
                 num_cpus := num_cpus slf |}
    /\ pool' = (if forallb (String.eqb "categorical") (parameters (self_config slf))
               then filter (fun row => row ∉ result) pool
               else filter (fun row => row ∉ missing) pool)
    /\ (forall row, row ∈ missing -> row ∈ pool)
    /\ ((length pool < length sampling_param_values)%nat /\ kept = samples /\ missing = []
        /\ g' = g
        \/ (length sampling_param_values <= length pool)%nat
           /\ kept = np.unique_rows samples
           /\ (length kept + length missing)%nat = length sampling_param_values
           /\ (missing = [] -> g' = g)).
Proof.
  intros Hpool. unfold select.
  destruct (_select _ _ _ _ _ _ _) as [samples|]; [|done]. rewrite Hpool. cbn [bindR].
  case_decide as Hdegraded.
  - (* fewer options than strategies *)
    intros [= <- <- <-].
    exists samples, samples, [],
      (if forallb (String.eqb "categorical") (parameters (self_config slf))
       then foldl delete_rows pool samples else pool).
    rewrite app_nil_r. split_and!; [done..| | |].
    + destruct (forallb _ _); [by rewrite SelectorRepair.delete_rows_all|].
      by rewrite filter_notin_nil.
    + intros row Hrow. by apply elem_of_nil in Hrow.
    + by left.
  - set (unique_samples := np.unique_rows samples).
    set (options := if forallb _ _ then _ else _).
    assert (Hoptions : options
                       = if forallb (String.eqb "categorical") (parameters (self_config slf))
                         then filter (fun row => row ∉ unique_samples) pool else pool).
    { subst options. destruct (forallb _ _); [by rewrite SelectorRepair.delete_rows_all|done]. }
    case_bool_decide as Hdup.
    + (* duplicates: the batch is filled up from the pool *)
      unfold random_choice. repeat case_decide; try done.
      pose proof (permutation_spec (length options) g) as Hperm_len.
      apply Permutation_length in Hperm_len. rewrite length_seq in Hperm_len.
      destruct (permutation (length options) g) as [perm g1] eqn:Hperm. cbn [bindR].
      cbn in Hperm_len.
      destruct (mapR (getitem options) _) as [missing|] eqn:Hmissing; [|done]. cbn [bindR].
      intros [= <- <- <-].
      exists samples, unique_samples, missing, (foldl delete_rows options missing).
      assert (Hin : forall row, row ∈ missing -> row ∈ options).
      { intros row Hrow. apply list_elem_of_lookup_1 in Hrow as [i Hi].
        assert (is_Some (take (Z.to_nat (Z.of_nat (length sampling_param_values)
                                          - Z.of_nat (length unique_samples))) perm !! i))
          as [idx Hidx].
        { apply lookup_lt_is_Some_2. apply mapR_length in Hmissing. rewrite <- Hmissing.
          by eapply lookup_lt_Some. }
        destruct (mapR_Ok_inv _ _ _ _ _ Hmissing Hidx) as (row' & Hget & Hrow').
        rewrite Hi in Hrow'. injection Hrow' as <-. unfold getitem in Hget.
        destruct (options !! idx) eqn:Ho; [|done]. injection Hget as ->.
        by eapply list_elem_of_lookup_2. }
      split_and!; [done..| | |].
      * rewrite SelectorRepair.delete_rows_all, Hoptions.
        destruct (forallb _ _); [|done].
        rewrite list_filter_filter. apply list_filter_iff. intros row.
        rewrite elem_of_app. tauto.
      * intros row Hrow. apply Hin in Hrow. rewrite Hoptions in Hrow.
        destruct (forallb _ _); [|done]. by apply list_elem_of_filter in Hrow as [_ ?].
      * right. split_and!; [lia|done| |].
        -- apply mapR_length in Hmissing. rewrite Hmissing, length_take. lia.
        -- intros ->. apply mapR_length in Hmissing. cbn in Hmissing.
           rewrite length_take in Hmissing.
           assert (length unique_samples <> length sampling_param_values) by done.
           lia.
    + (* no duplicates *)
      intros [= <- <- <-]. exists samples, unique_samples, [], options.
      rewrite app_nil_r. split_and!; [done..| | |].
      * rewrite Hoptions. destruct (forallb _ _); [done|]. by rewrite filter_notin_nil.
      * intros row Hrow. by apply elem_of_nil in Hrow.
      * right. split_and!; [lia|done| |done].
        destruct (decide (length unique_samples = length sampling_param_values)); [cbn; lia|].
        by destruct Hdup.
Qed.

(** X6.  [select] never adds to the option pool, and it removes from it
    nothing but rows it returns; on a fully categorical space the pool it
    leaves is the old pool without the returned rows, so that a later call
    cannot draw them again.  The configuration and the number of CPUs stay
    as they are. *)
Theorem select_removes_returned_options schedule (slf : self) (num_batches : nat)
    (proposals : list (list vec)) (eval_acquisition : vec -> nat -> R)
    (sampling_param_values : list R) (obs_params : list vec) (g : rng)
    (pool result : list vec) (slf' : self) (g' : rng) :
  all_options slf = Some pool ->
  select permutation schedule slf num_batches proposals eval_acquisition sampling_param_values
         obs_params g = Ok (result, slf', g') ->
  self_config slf' = self_config slf
  /\ num_cpus slf' = num_cpus slf
  /\ exists pool',
       all_options slf' = Some pool'
       /\ pool' `sublist_of` pool
       /\ (forall row, row ∈ pool -> row ∉ pool' -> row ∈ result)
       /\ (forallb (String.eqb "categorical") (parameters (self_config slf)) = true ->
           pool' = filter (fun row => row ∉ result) pool).
Proof.
  intros Hpool Hsel.
  destruct (select_inv _ _ _ _ _ _ _ _ _ _ _ _ Hpool Hsel)
    as (samples & kept & missing & pool' & _ & -> & -> & Hpool' & Hmissing & _).
  split_and!; [done..|]. exists pool'. split_and!; [done| | |].
  - rewrite Hpool'. destruct (forallb _ _); apply sublist_filter.
  - intros row Hrow Hgone. rewrite Hpool' in Hgone.
    destruct (decide (row ∈ kept ++ missing)) as [|Hnot]; [done|]. destruct Hgone.
    destruct (forallb _ _); apply list_elem_of_filter; split; try done.
    intros Hm. apply Hnot, elem_of_app. by right.
  - intros Hcat. by rewrite Hpool', Hcat.
Qed.

(** X7.  The number of samples [select] returns does not depend on the
    number of batches unless the pool holds fewer options than there are
    strategies: in that case the [num_batches * numStrategies] samples of
    the greedy pass are returned as they are; otherwise [select] returns
    exactly one sample per strategy. *)
Theorem select_batch_size schedule (slf : self) (num_batches : nat)
    (proposals : list (list vec)) (eval_acquisition : vec -> nat -> R)
    (sampling_param_values : list R) (obs_params : list vec) (g : rng)
    (pool result : list vec) (slf' : self) (g' : rng) :
  all_options slf = Some pool ->
  select permutation schedule slf num_batches proposals eval_acquisition sampling_param_values
         obs_params g = Ok (result, slf', g') ->
  ((length pool < length sampling_param_values)%nat ->
   length result = (num_batches * length sampling_param_values)%nat)
  /\ ((length sampling_param_values <= length pool)%nat ->
      length result = length sampling_param_values).
Proof.
  intros Hpool Hsel.
  destruct (select_inv _ _ _ _ _ _ _ _ _ _ _ _ Hpool Hsel)
    as (samples & kept & missing & pool' & Hsamples & -> & _ & _ & _ & Hcases).
  apply SelectorRepair._select_length in Hsamples. rewrite length_app.
  destruct Hcases as [(Hlt & -> & -> & _)|(Hle & _ & Hlen & _)]; split; intros ?;
    cbn; lia.
Qed.

(** X8.  When the greedy pass comes back with more distinct rows than there
    are strategies, as it does when several batches are requested and the
    strategies do not repeat themselves, and the pool is not smaller than the
    number of strategies, [select] asks [np.random.choice] for a negative
    number of replacements and raises [ValueError]. *)
Theorem select_excess_rows_raises schedule (slf : self) (num_batches : nat)
    (proposals : list (list vec)) (eval_acquisition : vec -> nat -> R)
    (sampling_param_values : list R) (obs_params : list vec) (g : rng)
    (pool samples : list vec) :
  all_options slf = Some pool ->
  _select schedule slf num_batches proposals eval_acquisition sampling_param_values obs_params
  = Ok samples ->
  (length sampling_param_values <= length pool)%nat ->
  (length sampling_param_values < length (np.unique_rows samples))%nat ->
  select permutation schedule slf num_batches proposals eval_acquisition sampling_param_values
         obs_params g = Raise ValueError.
Proof.
  intros Hpool Hsamples Hle Hexcess. unfold select. rewrite Hsamples, Hpool. cbn [bindR].
  rewrite decide_False by lia. rewrite bool_decide_eq_true_2 by lia.
  unfold random_choice. by rewrite decide_True by lia.
Qed.

(** X9.  Unless the pool holds fewer options than there are strategies,
    [select] returns the distinct rows of the greedy pass in lexicographic
    order, each of them once, followed by the replacements drawn from the
    pool: the position of a sample in the batch does not tell the strategy
    it was selected for.  When the greedy pass yields one distinct row per
    strategy, these rows are the batch and the generator is left alone. *)
Theorem select_returns_sorted_rows schedule (slf : self) (num_batches : nat)
    (proposals : list (list vec)) (eval_acquisition : vec -> nat -> R)
    (sampling_param_values : list R) (obs_params : list vec) (g : rng)
    (pool result : list vec) (slf' : self) (g' : rng) :
  all_options slf = Some pool ->
  (length sampling_param_values <= length pool)%nat ->
  select permutation schedule slf num_batches proposals eval_acquisition sampling_param_values
         obs_params g = Ok (result, slf', g') ->
  exists samples missing,
    _select schedule slf num_batches proposals eval_acquisition sampling_param_values obs_params
    = Ok samples
    /\ result = np.unique_rows samples ++ missing
    /\ StronglySorted row_le (np.unique_rows samples)
    /\ NoDup (np.unique_rows samples)
    /\ (forall x, x ∈ np.unique_rows samples <-> x ∈ samples)
    /\ (length (np.unique_rows samples) = length sampling_param_values ->
        missing = [] /\ g' = g).
Proof.
  intros Hpool Hle Hsel.
  destruct (select_inv _ _ _ _ _ _ _ _ _ _ _ _ Hpool Hsel)
    as (samples & kept & missing & pool' & Hsamples & -> & _ & _ & _ & Hcases).
  destruct Hcases as [(Hlt & _)|(_ & -> & Hlen & Hg)]; [lia|].
  exists samples, missing. split_and!; [done|done| | | |].
  - unfold np.unique_rows. apply (StronglySorted_merge_sort row_le).
  - apply unique_rows_NoDup.
  - apply elem_of_unique_rows.
  - intros Hfull. assert (missing = []) as ->; [|by split; [|apply Hg]].
    apply length_zero_iff_nil. lia.
Qed.

(** The samples of the greedy pass are candidates of the proposals. *)
Lemma _select_among_proposals schedule (slf : self) (num_batches : nat)
    (proposals : list (list vec)) (eval_acquisition : vec -> nat -> R)
    (sampling_param_values : list R) (obs_params samples : list vec) (x : vec) :
  _select schedule slf num_batches proposals eval_acquisition sampling_param_values obs_params
  = Ok samples ->
  x ∈ samples ->
  exists batch_proposals, batch_proposals ∈ proposals /\ x ∈ batch_proposals.
Proof.
  unfold _select.
  destruct (_compute_exp_objs _ _ _ _ _) as [exp_objs|]; [|done]. cbn [bindR].
  destruct (foldlR (zero_identical _ _) _ _) as [exp_objs'|]; [|done]. cbn [bindR].
  destruct (foldlR _ (exp_objs', []) _) as [st|] eqn:Hloop; [|done]. cbn [bindR].
  intros [= <-].
  apply (SelectorGreedy.selection_loops_invariant _ _ _ _ _ _
           (fun selected => forall y, y ∈ selected ->
              exists batch_proposals, batch_proposals ∈ proposals /\ y ∈ batch_proposals))
    in Hloop as [_ Hall]; [by apply Hall|by intros y ?%elem_of_nil|].
  intros E sel E' sel' idx _ _ HQ Hone y Hy.
  apply SelectorGreedy.select_one_inv in Hone
    as (batch & ? & ? & i & z & Hb & _ & _ & _ & Hz & _ & ->).
  apply elem_of_app in Hy as [Hy|Hy]; [by apply HQ|].
  apply list_elem_of_singleton in Hy as ->.
  exists batch. split; by eapply list_elem_of_lookup_2.
Qed.

(** X26.  [select] invents no sample: every row of the batch it returns is
    a candidate that was proposed for one of the strategies or, when the
    batch had to be filled up, an option of the pool. *)
Theorem select_returns_proposed_or_pool schedule (slf : self) (num_batches : nat)
    (proposals : list (list vec)) (eval_acquisition : vec -> nat -> R)
    (sampling_param_values : list R) (obs_params : list vec) (g : rng)
    (pool result : list vec) (slf' : self) (g' : rng) :
  all_options slf = Some pool ->
  select permutation schedule slf num_batches proposals eval_acquisition sampling_param_values
         obs_params g = Ok (result, slf', g') ->
  Forall (fun x => (exists batch_proposals, batch_proposals ∈ proposals /\ x ∈ batch_proposals)
                   \/ x ∈ pool) result.
Proof.
  intros Hpool Hsel.
  destruct (select_inv _ _ _ _ _ _ _ _ _ _ _ _ Hpool Hsel)
    as (samples & kept & missing & pool' & Hsamples & -> & _ & _ & Hmissing & Hcases).
  apply Forall_forall. intros x [Hx|Hx]%elem_of_app; [left|right; by apply Hmissing].
  eapply _select_among_proposals; [exact Hsamples|].
  destruct Hcases as [(_ & -> & _)|(_ & -> & _)]; [done|].
  by apply elem_of_unique_rows.
Qed.

End Pool.

(** *** The batch on concrete inputs *)

Lemma identity_permutation_spec (n : nat) (g : unit) : (identity_permutation n g).1 ≡ₚ seq 0 n.
Proof. done. Qed.

Lemma unique_swapped : np.unique_rows [[1]; [0]] = [[0]; [1]].
Proof.
  apply unique_rows_sorted.
  - rewrite remove_dups_cons_notin by row_notin.
    rewrite remove_dups_cons_notin by row_notin.
    apply Permutation_swap.
  - repeat constructor. unfold row_le. cbn. rewrite decide_True by lra. done.
Qed.

(** One batch: the first strategy selects [[1]], the second [[0]], and the
    batch holds [[0]] before [[1]]. *)
Lemma example_select_swapped :
  _select (fun jobs => jobs) categorical_selector 1 swapped_candidates (fun _ _ => 0)
          two_strategies [[2]] = Ok [[1]; [0]]
  /\ select identity_permutation (fun jobs => jobs) categorical_selector 1 swapped_candidates
            (fun _ _ => 0) two_strategies [[2]] tt
     = Ok ([[0]; [1]],
           {| self_config := categorical_config; all_options := Some [[2]]; num_cpus := 1 |},
           tt).
Proof.
  assert (H : _select (fun jobs => jobs) categorical_selector 1 swapped_candidates
                      (fun _ _ => 0) two_strategies [[2]] = Ok [[1]; [0]])
    by (vm_compute; reflexivity).
  split; [done|].
  unfold select. rewrite H. cbn [bindR].
  change (all_options categorical_selector) with (Some [[0]; [1]; [2]]). cbn [bindR].
  rewrite decide_False by (cbn; lia).
  rewrite unique_swapped.
  rewrite bool_decide_eq_false_2 by (cbn; lia).
  change (forallb _ _) with true. cbn [foldl].
  by eval_delete_rows.
Qed.

(** Two batches for two strategies with one candidate each. *)
Lemma example_select_two_batches :
  select identity_permutation (fun jobs => jobs) categorical_selector 2 one_candidate_each
         (fun _ _ => 0) two_strategies [[2]] tt
  = Ok ([[0]; [1]],
        {| self_config := categorical_config; all_options := Some [[2]]; num_cpus := 1 |},
        tt).
Proof.
  unfold select. rewrite SelectorBatch.select_two_rounds. cbn [bindR].
  change (all_options categorical_selector) with (Some [[0]; [1]; [2]]). cbn [bindR].
  rewrite decide_False by (cbn; lia).
  rewrite SelectorBatch.unique_two_rounds.
  rewrite bool_decide_eq_false_2 by (cbn; lia).
  change (forallb _ _) with true. cbn [foldl].
  by eval_delete_rows.
Qed.

(** X6 on the fully categorical space with the options 0, 1 and 2. *)
Lemma select_removes_returned_options_witness :
  categorical_config = self_config categorical_selector
  /\ 1%nat = num_cpus categorical_selector
  /\ exists pool',
       Some [[2]] = Some pool'
       /\ pool' `sublist_of` [[0]; [1]; [2]]
       /\ (forall row, row ∈ ([[0]; [1]; [2]] : list vec) -> row ∉ pool' ->
                       row ∈ ([[0]; [1]] : list vec))
       /\ (forallb (String.eqb "categorical") (parameters (self_config categorical_selector))
           = true ->
           pool' = filter (fun row => row ∉ ([[0]; [1]] : list vec)) [[0]; [1]; [2]]).
Proof.
  exact (select_removes_returned_options identity_permutation identity_permutation_spec
           (fun jobs => jobs) categorical_selector 1 swapped_candidates (fun _ _ => 0)
           two_strategies [[2]] tt [[0]; [1]; [2]] [[0]; [1]]
           {| self_config := categorical_config; all_options := Some [[2]]; num_cpus := 1 |}
           tt eq_refl (proj2 example_select_swapped)).
Defined.

(** X7 on two batches for two strategies: two samples, not four. *)
Lemma select_batch_size_witness :
  ((length ([[0%R]; [1%R]; [2%R]] : list vec) < length two_strategies)%nat ->
   length ([[0]; [1]] : list vec) = (2 * length two_strategies)%nat)
  /\ ((length two_strategies <= length ([[0%R]; [1%R]; [2%R]] : list vec))%nat ->
      length ([[0]; [1]] : list vec) = length two_strategies).
Proof.
  exact (select_batch_size identity_permutation identity_permutation_spec
           (fun jobs => jobs) categorical_selector 2 one_candidate_each (fun _ _ => 0)
           two_strategies [[2]] tt [[0]; [1]; [2]] [[0]; [1]]
           {| self_config := categorical_config; all_options := Some [[2]]; num_cpus := 1 |}
           tt eq_refl example_select_two_batches).
Defined.

(** X9 on the exchanged strategies. *)
Lemma select_returns_sorted_rows_witness :
  exists samples missing,
    _select (fun jobs => jobs) categorical_selector 1 swapped_candidates (fun _ _ => 0)
            two_strategies [[2]] = Ok samples
    /\ ([[0]; [1]] : list vec) = np.unique_rows samples ++ missing
    /\ StronglySorted row_le (np.unique_rows samples)
    /\ NoDup (np.unique_rows samples)
    /\ (forall x, x ∈ np.unique_rows samples <-> x ∈ samples)
    /\ (length (np.unique_rows samples) = length two_strategies ->
        missing = [] /\ tt = tt).
Proof.
  apply (select_returns_sorted_rows identity_permutation identity_permutation_spec
           (fun jobs => jobs) categorical_selector 1 swapped_candidates (fun _ _ => 0)
           two_strategies [[2]] tt [[0]; [1]; [2]] [[0]; [1]]
           {| self_config := categorical_config; all_options := Some [[2]]; num_cpus := 1 |}
           tt).
  - reflexivity.
  - cbn. lia.
  - exact (proj2 example_select_swapped).
Defined.

(** Two batches for one strategy with the candidates [[0]] and [[1]]: the
    first round selects [[0]], which lies farther from the observation
    [[2]], the second round [[1]]. *)
Lemma example_zero_identical :
  zero_identical (normalise categorical_config <$> [[2]])
                 ((fun rows : list vec => normalise categorical_config <$> rows)
                    <$> two_candidates)
                 [[exp (- 0); exp (- 0)]] 0
  = Ok [[exp (- 0); exp (- 0)]].
Proof.
  unfold zero_identical. cbn -[exp Rlt_decision decide].
  rewrite !decide_False by lra. done.
Qed.

Lemma example_two_batches_one_strategy :
  _select (fun jobs => jobs) categorical_selector 2 two_candidates (fun _ _ => 0) [1] [[2]]
  = Ok [[0]; [1]].
Proof.
  unfold _select.
  replace (_compute_exp_objs _ _ _ _ _)
    with (Ok [[exp (- 0); exp (- 0)]] : result (list vec)) by reflexivity.
  cbn [bindR length seq foldlR].
  change (self_config categorical_selector) with categorical_config.
  rewrite example_zero_identical. cbn [bindR].
  change (feature_ranges categorical_config) with [2]. cbn [fmap list_fmap length].
  pose proof (exp_pos (- 0)) as He. pose proof SelectorDiversity.exp_minus_1_lt_1 as H1.
  pose proof (exp_pos (- 1)) as H1'.
  (* first batch *)
  unfold select_one at 1. unfold two_candidates at 1.
  cbn [getitem lookup list_lookup bindR mapR].
  change (feature_ranges categorical_config) with [2].
  rewrite SelectorGreedy.example_div_crit_far, SelectorGreedy.example_div_crit_near.
  cbn [bindR].
  unfold np.mul. cbn [zip_with np.argmax np.argmax_from].
  rewrite decide_False by nra.
  cbn [bindR getitem lookup list_lookup list_insert insert app foldlR].
  (* second batch *)
  unfold select_one at 1. unfold two_candidates at 1.
  cbn [getitem lookup list_lookup bindR mapR].
  change (feature_ranges categorical_config) with [2].
  destruct (SelectorGreedy.div_crit_positive 1 [2] [2 / sqrt (INR 1)] [[2]] [[0]] [0])
    as (c0 & -> & Hc0); [lia|done|done|done|repeat constructor..|].
  destruct (SelectorGreedy.div_crit_positive 1 [2] [2 / sqrt (INR 1)] [[2]] [[0]] [1])
    as (c1 & -> & Hc1); [lia|done|done|done|repeat constructor..|].
  cbn [bindR]. unfold np.mul. cbn [zip_with np.argmax np.argmax_from].
  rewrite decide_True by nra. cbn. done.
Qed.

Lemma unique_two_rows : np.unique_rows [[0]; [1]] = [[0]; [1]].
Proof.
  apply unique_rows_sorted.
  - rewrite remove_dups_cons_notin by row_notin.
    by rewrite remove_dups_cons_notin by row_notin.
  - repeat constructor. unfold row_le. cbn. rewrite decide_True by lra. done.
Qed.

(** X8 on these two batches: two distinct rows for one strategy. *)
Lemma select_excess_rows_witness :
  select identity_permutation (fun jobs => jobs) categorical_selector 2 two_candidates
         (fun _ _ => 0) [1] [[2]] tt
  = Raise ValueError.
Proof.
  apply (select_excess_rows_raises identity_permutation (fun jobs => jobs) categorical_selector
           2 two_candidates (fun _ _ => 0) [1] [[2]] tt [[0]; [1]; [2]] [[0]; [1]]).
  - reflexivity.
  - exact example_two_batches_one_strategy.
  - cbn. lia.
  - rewrite unique_two_rows. cbn. lia.
Defined.

(** X10 on the exchanged strategies. *)
Lemma select_single_batch_witness :
  exists result slf' g',
    select identity_permutation (fun jobs => jobs) categorical_selector 1 swapped_candidates
           (fun _ _ => 0) two_strategies [[2]] tt = Ok (result, slf', g')
    /\ length result = length two_strategies
    /\ ((length two_strategies <= length ([[0%R]; [1%R]; [2%R]] : list vec))%nat -> NoDup result)
    /\ all_options slf' = Some (filter (fun row => row ∉ result) [[0]; [1]; [2]]).
Proof.
  apply (SelectorRepair.select_single_batch identity_permutation identity_permutation_spec
           (fun jobs => jobs) categorical_selector swapped_candidates (fun _ _ => 0)
           two_strategies [[2]] [[0]; [1]; [2]] [[1]; [0]] tt).
  - reflexivity.
  - reflexivity.
  - repeat (apply NoDup_cons; split; [row_notin|]). apply NoDup_nil_2.
  - exact (proj1 example_select_swapped).
Defined.

(** X26 on the exchanged strategies. *)
Lemma select_returns_proposed_witness :
  Forall (fun x => (exists batch_proposals,
                      batch_proposals ∈ swapped_candidates /\ x ∈ batch_proposals)
                   \/ x ∈ ([[0]; [1]; [2]] : list vec))
         ([[0]; [1]] : list vec).
Proof.
  exact (select_returns_proposed_or_pool identity_permutation identity_permutation_spec
           (fun jobs => jobs) categorical_selector 1 swapped_candidates (fun _ _ => 0)
           two_strategies [[2]] tt [[0]; [1]; [2]] [[0]; [1]]
           {| self_config := categorical_config; all_options := Some [[2]]; num_cpus := 1 |}
           tt eq_refl (proj2 example_select_swapped)).
Defined.

End SelectorPool.

(** ** What the sampler draws *)

Module SamplerDraws.
Import RandomSampler SamplerSpec SamplerExamples.

Section Draws.
Context {rng : Type} (random_sample : rng -> R * rng) (random_int : R -> rng -> R * rng).
Context {param_dict : Type}.
Implicit Types (slf : self param_dict) (constraints : param_dict -> pyobj) (g : rng).

(** What NumPy promises of its generator: [random_sample] lies in
    [[0, 1)], [randint(0, bound)] is an integer in [[0, bound)]. *)
Hypothesis random_sample_range : forall g, 0 <= (random_sample g).1 < 1.
Hypothesis random_int_range : forall bound g,
  0 < bound -> exists k : Z, (random_int bound g).1 = IZR k /\ 0 <= IZR k < bound.

Lemma uniform_range (lo hi : R) g :
  Rmin lo hi <= (uniform random_sample lo hi g).1 <= Rmax lo hi.
Proof.
  unfold uniform. pose proof (random_sample_range g) as Hu.
  destruct (random_sample g) as [u g1]. cbn in *.
  unfold Rmin, Rmax. destruct (Rle_dec lo hi); split; nra.
Qed.

(** The cast of an integer draw below [bound] is an index below [bound]. *)
Lemma random_int_index (bound : Z) g :
  (0 < bound)%Z -> index_below bound (np.float32 (random_int (IZR bound) g).1).
Proof.
  intros Hpos. destruct (random_int_range (IZR bound) g) as (k & -> & Hk0 & Hkb).
  { by apply (IZR_lt 0). }
  apply (le_IZR 0) in Hk0. apply lt_IZR in Hkb.
  exists k. split_and!; [lia..|done|]. intros Hsmall. apply float32_IZR. lia.
Qed.

(** A column drawn value by value and cast to single precision. *)
Lemma draw_column_cast (num : nat) (draw1 : rng -> R * rng) (P : R -> Prop) g :
  (forall g0, P (np.float32 (draw1 g0).1)) ->
  exists col g', draw_column num draw1 g = (col, g')
                 /\ column_of P num (np.astype_float32_2d col).
Proof.
  intros HP.
  destruct (SamplerPerturb.draw_column_shape num draw1 (fun x => P (np.float32 x)) g HP)
    as (col & g' & Hcol & Hshape).
  exists col, g'. split; [done|].
  by apply (SamplerPerturb.column_of_fmap np.float32 (fun x => P (np.float32 x)) P).
Qed.

(** The column drawn for a parameter lies in the range of the parameter. *)
Lemma _draw_single_parameter_range (num : nat) (p : param_settings) g :
  valid_param p ->
  exists col g',
    _draw_single_parameter random_sample random_int num (type p) (specs p) g = Ok (col, g')
    /\ column_of (in_range p) num col.
Proof.
  unfold _draw_single_parameter.
  intros [(Ht & [lo Hlo] & [hi Hhi]) | [(Ht & opts & Hopts & Hne) | (Ht & lo & hi & Hlo & Hhi & Hlt)]];
    rewrite Ht; cbn [String.eqb Ascii.eqb Bool.eqb].
  - rewrite Hlo, Hhi. cbn [specs_get bindR]. unfold _draw_continuous.
    destruct (draw_column_cast num (uniform random_sample lo hi) (in_range p) g)
      as (col & g' & -> & Hcol).
    { intros g0. split_and!; rewrite Ht; try done.
      intros _ lo' hi' Hlo' Hhi'. rewrite Hlo in Hlo'. rewrite Hhi in Hhi'.
      injection Hlo' as <-. injection Hhi' as <-.
      pose proof (uniform_range lo hi g0) as [Hl Hu]. split; by apply float32_le. }
    by eexists _, g'.
  - rewrite Hopts. cbn [specs_get bindR]. unfold _draw_categorical.
    rewrite decide_False; [|intros [Hlen _]; destruct opts; [done|discriminate]].
    destruct (draw_column_cast num (random_int (INR (length opts))) (in_range p) g)
      as (col & g' & -> & Hcol).
    { intros g0. split_and!; rewrite Ht; try done.
      intros _ opts' Hopts'. rewrite Hopts in Hopts'. injection Hopts' as <-.
      rewrite INR_IZR_INZ. apply random_int_index. destruct opts; [done|cbn; lia]. }
    by eexists _, g'.
  - rewrite Hlo, Hhi. cbn [specs_get bindR]. unfold _draw_discrete. cbv zeta.
    rewrite !decide_False by lia.
    destruct (draw_column_cast num (random_int (IZR (np.trunc (hi - lo)))) (in_range p) g)
      as (col & g' & -> & Hcol).
    { intros g0. split_and!; rewrite Ht; try done.
      intros _ lo' hi' Hlo' Hhi'. rewrite Hlo in Hlo'. rewrite Hhi in Hhi'.
      injection Hlo' as <-. injection Hhi' as <-.
      apply random_int_index. lia. }
    by eexists _, g'.
Qed.

(** The loop of [_fast_draw]: one column per parameter. *)
Lemma _fast_draw_columns (num : nat) (params : list param_settings)
    (acc : list (list vec)) g :
  Forall valid_param params ->
  exists cols g',
    foldlR (fun '(samples, g) param_settings =>
              let* (param_samples, g') :=
                _draw_single_parameter random_sample random_int num
                  (type param_settings) (specs param_settings) g in
              Ok (samples ++ [param_samples], g'))
           (acc, g) params
    = Ok (acc ++ cols, g')
    /\ Forall2 (fun P col => column_of P num col) (in_range <$> params) cols.
Proof.
  revert acc g. induction params as [|p params IH]; intros acc g Hvalid.
  - exists [], g. rewrite app_nil_r. split; [done|constructor].
  - apply Forall_cons in Hvalid as [Hp Hvalid]. cbn [foldlR].
    destruct (_draw_single_parameter_range num p g Hp) as (col & g1 & -> & Hcol).
    cbn [bindR].
    destruct (IH (acc ++ [col]) g1 Hvalid) as (cols & g2 & -> & Hcols).
    exists (col :: cols), g2. split; [by rewrite <- app_assoc|]. by constructor.
Qed.

Lemma _fast_draw_range slf (num : nat) g :
  parameters (self_config slf) <> [] ->
  Forall valid_param (parameters (self_config slf)) ->
  exists rows g',
    _fast_draw random_sample random_int slf num g = Ok (rows, g')
    /\ length rows = num
    /\ Forall (fun row => Forall2 in_range (parameters (self_config slf)) row) rows.
Proof.
  intros Hne Hvalid. unfold _fast_draw.
  destruct (_fast_draw_columns num (parameters (self_config slf)) [] g Hvalid)
    as (cols & g' & -> & Hcols).
  cbn [bindR app].
  assert (Hcols_ne : cols <> []).
  { intros ->. apply Forall2_nil_inv_r in Hcols.
    destruct (parameters (self_config slf)); [done|discriminate]. }
  destruct (SamplerPerturb.concatenate_axis1_columns _ num cols Hcols_ne Hcols)
    as (rows & -> & Hrows & Hall).
  exists rows, g'. split_and!; [done..|].
  eapply Forall_impl; [done|]. intros row Hrow. cbn in Hrow.
  by apply Forall2_fmap_l in Hrow.
Qed.

(** The candidate of one round of the rejection loop. *)
Lemma draw_candidate_range (num : nat) (params : list param_settings) (acc : vec) g :
  Forall valid_param params ->
  exists row g',
    foldlR (fun '(sample, g) param_settings =>
              let* (column, g') :=
                _draw_single_parameter random_sample random_int (S num)
                  (type param_settings) (specs param_settings) g in
              let* param_sample := getitem column 0 in
              let* x := getitem param_sample 0 in
              Ok (sample ++ [x], g'))
           (acc, g) params
    = Ok (acc ++ row, g')
    /\ Forall2 in_range params row.
Proof.
  revert acc g. induction params as [|p params IH]; intros acc g Hvalid.
  - exists [], g. rewrite app_nil_r. split; [done|constructor].
  - apply Forall_cons in Hvalid as [Hp Hvalid]. cbn [foldlR].
    destruct (_draw_single_parameter_range (S num) p g Hp) as (col & g1 & -> & Hlen & Hcol).
    destruct col as [|c col]; [done|].
    apply Forall_cons in Hcol as [(x & -> & Hx) _]. cbn.
    destruct (IH (acc ++ [x]) g1 Hvalid) as (row & g2 & -> & Hrow).
    exists (x :: row), g2. split; [by rewrite <- app_assoc|]. by constructor.
Qed.

Lemma _slow_draw_loop_range (fuel : nat) slf constraints (num : nat) (samples : list vec) g
    rows g' :
  Forall valid_param (parameters (self_config slf)) ->
  Forall (fun row => Forall2 in_range (parameters (self_config slf)) row) samples ->
  _slow_draw_loop random_sample random_int fuel slf constraints num samples g
  = Some (Ok (rows, g')) ->
  Forall (fun row => Forall2 in_range (parameters (self_config slf)) row) rows.
Proof.
  intros Hvalid. revert samples g.
  induction fuel as [|fuel IH]; intros samples g Hsamples; cbn [_slow_draw_loop].
  - case_decide; [done|]. by intros [= <- <-].
  - case_decide as Hlt; [|by intros [= <- <-]].
    destruct num as [|num]; [lia|].
    unfold draw_candidate.
    destruct (draw_candidate_range num (parameters (self_config slf)) [] g Hvalid)
      as (row & g1 & -> & Hrow).
    cbn [app]. destruct (is_True _).
    + apply IH. apply Forall_app. split; [done|]. by constructor.
    + by apply IH.
Qed.

(** X11.  On a well-formed configuration with at least one parameter, and
    with a generator that keeps the ranges NumPy documents, the
    unconstrained [draw(num)] returns [num] samples, and every sample
    [draw] returns, constrained or not, has one entry per parameter that
    lies in the range of the parameter: between the bounds, cast to single
    precision like the entry itself, for a continuous parameter; an index
    of an option for a categorical one; and for a discrete one an offset
    below the integer part of [high - low], which is not shifted by
    ['low'].  An index comes back cast to single precision, which changes
    none up to [2^24]. *)
Theorem draw_returns_values_in_range slf (num : nat) g :
  parameters (self_config slf) <> [] ->
  Forall valid_param (parameters (self_config slf)) ->
  (known_constraints slf = None ->
   exists rows g',
     (forall fuel, draw random_sample random_int fuel slf num g = Some (Ok (rows, g')))
     /\ length rows = num)
  /\ (forall fuel rows g',
        draw random_sample random_int fuel slf num g = Some (Ok (rows, g')) ->
        Forall (fun row => Forall2 in_range (parameters (self_config slf)) row) rows).
Proof.
  intros Hne Hvalid.
  destruct (_fast_draw_range slf num g Hne Hvalid) as (rows & g' & Hfast & Hlen & Hrange).
  split.
  - intros Hnone. exists rows, g'. split; [|done]. intros fuel. unfold draw.
    by rewrite Hnone, Hfast.
  - intros fuel rows' g'' Hres. unfold draw, _slow_draw in Hres.
    destruct (known_constraints slf) as [constraints|].
    + eapply _slow_draw_loop_range; [done|constructor|exact Hres].
    + rewrite Hfast in Hres. by simplify_eq.
Qed.

End Draws.

(** The example generator keeps the ranges. *)
Lemma example_random_sample_range (g : nat) : 0 <= (example_random_sample g).1 < 1.
Proof. destruct g; cbn; lra. Qed.

Lemma example_random_int_range (bound : R) (g : nat) :
  0 < bound -> exists k : Z, (example_random_int bound g).1 = IZR k /\ 0 <= IZR k < bound.
Proof. intros Hb. exists 0%Z. cbn. split; [done|lra]. Qed.

Lemma mixed_config_valid : Forall valid_param (parameters (self_config mixed_sampler)).
Proof.
  repeat (apply Forall_cons; split); [| | |apply Forall_nil_2].
  - left. cbn. split_and!; [done|by eexists..].
  - right. left. cbn. split; [done|]. by eexists.
  - right. right. cbn. split; [done|]. exists 5, 10. split_and!; [done..| |].
    + apply trunc_positive. lra.
    + replace (10 - 5) with (IZR 5) by lra. rewrite trunc_IZR. lia.
Qed.

(** X11 on the configuration with a parameter of each type. *)
Lemma draw_returns_values_in_range_witness :
  (known_constraints mixed_sampler = None ->
   exists rows g',
     (forall fuel, draw example_random_sample example_random_int fuel mixed_sampler 2 0%nat
                   = Some (Ok (rows, g')))
     /\ length rows = 2%nat)
  /\ (forall fuel rows g',
        draw example_random_sample example_random_int fuel mixed_sampler 2 0%nat
        = Some (Ok (rows, g')) ->
        Forall (fun row => Forall2 in_range (parameters (self_config mixed_sampler)) row) rows).
Proof.
  apply (draw_returns_values_in_range example_random_sample example_random_int
           example_random_sample_range example_random_int_range mixed_sampler 2 0%nat).
  - discriminate.
  - exact mixed_config_valid.
Defined.

Section Perturbations.
Context {rng : Type} (random_sample : rng -> R * rng).
Context {param_dict : Type}.
Implicit Types (slf : self param_dict) (constraints : param_dict -> pyobj) (g : rng).

(** The column of a parameter [perturb] can handle lies within the bounds
    of the parameter, whatever the draws. *)
Lemma _perturb_single_parameter_within (ref_value : R) (num : nat) (p : param_settings)
    (scale : R) g :
  perturbable p ->
  exists col g',
    _perturb_single_parameter random_sample ref_value num (type p) (specs p) scale g
    = Ok (col, g')
    /\ column_of (within_bounds p) num col.
Proof.
  unfold _perturb_single_parameter.
  intros [(Ht & [lo Hlo] & [hi Hhi]) | [Ht | Ht]]; rewrite Ht.
  - assert (String.eqb "continuous" "continuous" = true) as -> by done.
    unfold _draw_continuous.
    destruct (SamplerPerturb.draw_column_shape num (uniform random_sample (- scale) scale)
                (fun _ => True) g) as (col & g' & -> & Hcol); [done|].
    cbn [bindR]. rewrite Hlo, Hhi. cbn [specs_get bindR].
    eexists _, g'. split; [done|].
    unfold where_gt, where_lt, np.astype_float32_2d, np.astype_float32.
    apply (SamplerPerturb.column_of_fmap _ (fun y => lo <= hi -> np.float32 lo <= y)).
    { intros y Hy _ lo' hi' Hlo' Hhi' Hord.
      rewrite Hlo in Hlo'. rewrite Hhi in Hhi'. simplify_eq.
      specialize (Hy Hord). pose proof (float32_le lo' hi' Hord). case_decide; lra. }
    apply (SamplerPerturb.column_of_fmap _ (fun _ => True)).
    { intros x _ Hord. case_decide; lra. }
    apply (SamplerPerturb.column_of_fmap _ (fun _ => True)); [done|].
    apply (SamplerPerturb.column_of_fmap _ (fun _ => True)); [done|].
    by apply (SamplerPerturb.column_of_fmap _ (fun _ => True)).
  - assert (String.eqb "categorical" "continuous" = false) as -> by done.
    cbn [orb]. eexists _, g. split; [done|].
    split; [by rewrite length_replicate|].
    apply Forall_replicate. eexists. split; [done|].
    intros Hc. by rewrite Ht in Hc.
  - assert (String.eqb "discrete" "continuous" = false) as -> by done.
    assert (String.eqb "discrete" "categorical" = false) as -> by done.
    cbn [orb]. eexists _, g. split; [done|].
    split; [by rewrite length_replicate|].
    apply Forall_replicate. eexists. split; [done|].
    intros Hc. by rewrite Ht in Hc.
Qed.

(** The loop of [_fast_perturb] over the parameters from index [i] on. *)
Lemma _fast_perturb_within (ref_sample : vec) (num : nat) (scale : R)
    (params : list param_settings) (i : nat) (acc : list (list vec)) g :
  Forall perturbable params ->
  (i + length params <= length ref_sample)%nat ->
  exists cols g',
    foldlR (fun '(perturbed_samples, g) '(param_index, param_settings) =>
              let* ref_value := getitem ref_sample param_index in
              let* (perturbed_param_samples, g') :=
                _perturb_single_parameter random_sample ref_value num (type param_settings)
                                          (specs param_settings) scale g in
              Ok (perturbed_samples ++ [perturbed_param_samples], g'))
           (acc, g) (imap (fun j p => ((i + j)%nat, p)) params)
    = Ok (acc ++ cols, g')
    /\ Forall2 (fun P col => column_of P num col) (within_bounds <$> params) cols.
Proof.
  revert i acc g. induction params as [|p params IH]; intros i acc g Hvalid Hlen.
  - exists [], g. rewrite app_nil_r. split; [done|constructor].
  - apply Forall_cons in Hvalid as [Hp Hvalid]. cbn [length] in Hlen.
    destruct (lookup_lt_is_Some_2 ref_sample (i + 0)%nat ltac:(lia)) as [x Hx].
    cbn [imap foldlR]. unfold getitem at 1. rewrite Hx. cbn [bindR].
    destruct (_perturb_single_parameter_within x num p scale g Hp) as (col & g1 & -> & Hcol).
    cbn [bindR].
    destruct (IH (S i) (acc ++ [col]) g1 Hvalid ltac:(lia)) as (cols & g2 & Hfold & Hcols).
    exists (col :: cols), g2. split.
    + rewrite (imap_ext _ (fun j p => ((S i + j)%nat, p))) by (intros; cbn; f_equal; lia).
      rewrite Hfold. by rewrite <- app_assoc.
    + by constructor.
Qed.

(** The loop of [perturb_candidate] over the parameters from index [i] on. *)
Lemma perturb_candidate_within (ref_sample : vec) (scale : R)
    (params : list param_settings) (i : nat) (acc : vec) g :
  Forall perturbable params ->
  (i + length params <= length ref_sample)%nat ->
  exists row g',
    foldlR (fun '(perturbed_sample, g) '(param_index, param_settings) =>
              let* ref_value := getitem ref_sample param_index in
              let* (column, g') :=
                _perturb_single_parameter random_sample ref_value 1 (type param_settings)
                                          (specs param_settings) scale g in
              let* perturbed_param := getitem column 0 in
              let* x := getitem perturbed_param 0 in
              Ok (perturbed_sample ++ [x], g'))
           (acc, g) (imap (fun j p => ((i + j)%nat, p)) params)
    = Ok (acc ++ row, g')
    /\ Forall2 within_bounds params row.
Proof.
  revert i acc g. induction params as [|p params IH]; intros i acc g Hvalid Hlen.
  - exists [], g. rewrite app_nil_r. split; [done|constructor].
  - apply Forall_cons in Hvalid as [Hp Hvalid]. cbn [length] in Hlen.
    destruct (lookup_lt_is_Some_2 ref_sample (i + 0)%nat ltac:(lia)) as [x Hx].
    cbn [imap foldlR]. unfold getitem at 1. rewrite Hx. cbn [bindR].
    destruct (_perturb_single_parameter_within x 1 p scale g Hp)
      as (col & g1 & -> & Hl & Hcol).
    destruct col as [|c [|? ?]]; try done.
    apply Forall_cons in Hcol as [(r & -> & Hr) _]. cbn.
    destruct (IH (S i) (acc ++ [r]) g1 Hvalid ltac:(lia)) as (row & g2 & Hfold & Hrow).
    exists (r :: row), g2. split.
    + rewrite (imap_ext _ (fun j p => ((S i + j)%nat, p))) by (intros; cbn; f_equal; lia).
      rewrite Hfold. by rewrite <- app_assoc.
    + by constructor.
Qed.

(** The rejection loop of [_slow_perturb], seen from its result: the
    collected samples satisfy whatever every candidate satisfies, they are
    [num], and the predicate returned [True] on each. *)
Lemma _slow_perturb_loop_result (Q : vec -> Prop) (fuel : nat) slf constraints
    (ref_sample : vec) (num : nat) (scale : R) (samples : list vec) g rows g' :
  (forall g0 row g1, perturb_candidate random_sample slf ref_sample scale g0 = Ok (row, g1) ->
                     Q row) ->
  (length samples <= num)%nat ->
  Forall (fun s => Q s /\ constraints (sample_arrays_to_dicts (self_config slf) s) = PyBool true)
         samples ->
  _slow_perturb_loop random_sample fuel slf constraints ref_sample num scale samples g
  = Some (Ok (rows, g')) ->
  length rows = num
  /\ Forall (fun s => Q s /\ constraints (sample_arrays_to_dicts (self_config slf) s)
                             = PyBool true) rows.
Proof.
  intros HQ. revert samples g.
  induction fuel as [|fuel IH]; intros samples g Hlen Hsamples; cbn [_slow_perturb_loop].
  - case_decide; [done|]. intros [= <- <-]. split; [lia|done].
  - case_decide as Hlt; [|intros [= <- <-]; split; [lia|done]].
    destruct (perturb_candidate _ slf ref_sample scale g) as [[row g1]|e] eqn:Hcand; [|done].
    destruct (is_True _) eqn:Hacc.
    + apply IH.
      * rewrite length_app. cbn. lia.
      * apply Forall_app. split; [done|]. constructor; [|done]. split.
        -- by eapply HQ.
        -- by apply SamplerRejection.is_True_iff.
    + by apply IH.
Qed.

(** X12.  Whatever the scale and whatever the generator draws, in every
    vector [perturb] returns, constrained or not, the entry of a continuous
    parameter with ordered bounds lies within the bounds as single
    precision has them: a perturbation that leaves the interval is moved to
    the cast of the bound it crossed.  The entry lies within the bounds
    themselves when these are numbers in single precision. *)
Theorem perturb_stays_within_bounds slf (ref_sample : vec) (num : nat) (scale : R) g :
  parameters (self_config slf) <> [] ->
  Forall perturbable (parameters (self_config slf)) ->
  (length (parameters (self_config slf)) <= length ref_sample)%nat ->
  forall fuel rows g',
    perturb random_sample fuel slf ref_sample num scale g = Some (Ok (rows, g')) ->
    Forall (fun row => Forall2 within_bounds (parameters (self_config slf)) row) rows.
Proof.
  intros Hne Hvalid Hlen fuel rows g' Hres. unfold perturb, _slow_perturb in Hres.
  destruct (known_constraints slf) as [constraints|].
  - eapply (_slow_perturb_loop_result
              (fun row => Forall2 within_bounds (parameters (self_config slf)) row))
      in Hres as [_ Hall]; [|..|constructor]; [|..|cbn; lia].
    + eapply Forall_impl; [exact Hall|]. by intros row [? _].
    + intros g0 row g1. unfold perturb_candidate.
      destruct (perturb_candidate_within ref_sample scale (parameters (self_config slf))
                  0 [] g0 Hvalid ltac:(lia)) as (row' & g2 & Hfold & Hrow).
      rewrite (imap_ext pair (fun j p => ((0 + j)%nat, p))) by done.
      rewrite Hfold. by intros [= <- <-].
  - unfold _fast_perturb in Hres.
    destruct (_fast_perturb_within ref_sample num scale (parameters (self_config slf))
                0 [] g Hvalid ltac:(lia)) as (cols & g1 & Hfold & Hcols).
    rewrite (imap_ext pair (fun j p => ((0 + j)%nat, p))) in Hres by done.
    rewrite Hfold in Hres. cbn [bindR app] in Hres.
    assert (Hcols_ne : cols <> []).
    { intros ->. apply Forall2_nil_inv_r in Hcols.
      destruct (parameters (self_config slf)); [done|discriminate]. }
    destruct (SamplerPerturb.concatenate_axis1_columns _ num cols Hcols_ne Hcols)
      as (rows' & Hrows' & _ & Hall).
    rewrite Hrows' in Hres. cbn [bindR] in Hres. injection Hres as <- <-.
    eapply Forall_impl; [exact Hall|]. intros row Hrow. by apply Forall2_fmap_l in Hrow.
Qed.

(** X13.  Every result of the constrained [perturb] consists of exactly
    [num] vectors on each of which the feasibility predicate returned
    [True]; and on a configuration [perturb] can handle, with a reference
    sample that has an entry for every parameter, [perturb] returns such a
    result, and raises nothing, whenever its rejection loop comes to an
    end. *)
Theorem constrained_perturb_returns_count_feasible slf constraints (ref_sample : vec)
    (num : nat) (scale : R) g :
  known_constraints slf = Some constraints ->
  (forall fuel rows g',
     perturb random_sample fuel slf ref_sample num scale g = Some (Ok (rows, g')) ->
     length rows = num
     /\ Forall (fun s => constraints (sample_arrays_to_dicts (self_config slf) s) = PyBool true)
               rows)
  /\ (Forall perturbable (parameters (self_config slf)) ->
      (length (parameters (self_config slf)) <= length ref_sample)%nat ->
      forall fuel,
        perturb random_sample fuel slf ref_sample num scale g <> None ->
        exists rows g',
          perturb random_sample fuel slf ref_sample num scale g = Some (Ok (rows, g'))).
Proof.
  intros Hc. unfold perturb, _slow_perturb. rewrite Hc. split.
  - intros fuel rows g' Hres.
    eapply (_slow_perturb_loop_result (fun _ => True)) in Hres as [Hlen Hall];
      [|done|cbn; lia|constructor].
    split; [done|]. eapply Forall_impl; [exact Hall|]. by intros row [_ ?].
  - intros Hvalid Hlen fuel.
    generalize (@nil vec) as samples. revert g.
    induction fuel as [|fuel IH]; intros g samples; cbn [_slow_perturb_loop].
    + case_decide; [done|]. intros _. by eexists _, _.
    + case_decide; [|intros _; by eexists _, _].
      destruct (SamplerPerturb.perturb_candidate_kept random_sample slf ref_sample scale g
                  Hvalid Hlen) as (row & g1 & -> & _).
      destruct (is_True _); apply IH.
Qed.

End Perturbations.

(** X12 on the unit interval: two perturbations of the reference [1/2] with
    the default scale. *)
Lemma perturb_stays_within_bounds_witness :
  exists rows g',
    perturb example_random_sample 0 unconstrained_sampler [1 / 2] 2 (1 / 20) 0%nat
    = Some (Ok (rows, g'))
    /\ Forall (fun row => Forall2 within_bounds (parameters (self_config unconstrained_sampler))
                                  row) rows.
Proof.
  eexists _, _. split; [reflexivity|].
  apply (perturb_stays_within_bounds example_random_sample unconstrained_sampler
           [1 / 2] 2 (1 / 20) 0%nat) with (fuel := 0%nat) (g' := 2%nat).
  - discriminate.
  - constructor; [|constructor]. left. cbn. split_and!; [done|by eexists..].
  - cbn. lia.
  - reflexivity.
Defined.

(** An upper bound that is no number in single precision: on [[0, 0.3]]
    the reference [0.3] comes back as the cast of [0.3], which lies above
    the bound. *)
Lemma perturb_casts_the_bound :
  perturb example_random_sample 0 three_tenths_sampler [3 / 10] 1 0 0%nat
  = Some (Ok ([[10066330 / 33554432]], 1%nat))
  /\ 3 / 10 < 10066330 / 33554432.
Proof.
  split; [|lra].
  unfold perturb, _fast_perturb, _perturb_single_parameter, _draw_continuous.
  cbn [known_constraints three_tenths_sampler __init__ self_config parameters
       imap foldlR getitem lookup list_lookup bindR type specs three_tenths_interval String.eqb
       Ascii.eqb Bool.eqb draw_column].
  rewrite SamplerPerturb.example_uniform_zero.
  cbn [bindR specs_get high low fmap list_fmap np.astype_float32_2d np.astype_float32
       where_lt where_gt app concatenate_axis1].
  rewrite float32_0, mul32_zero, add32_zero, float32_three_tenths.
  rewrite (decide_False (P := _ < 0)) by lra. by rewrite decide_False by lra.
Qed.

(** X13 on the sampler that accepts the lower half of the unit interval. *)
Lemma constrained_perturb_witness :
  (forall fuel rows g',
     perturb example_random_sample fuel example_sampler [1 / 4] 1 (1 / 20) 0%nat
     = Some (Ok (rows, g')) ->
     length rows = 1%nat
     /\ Forall (fun s => lower_half (sample_arrays_to_dicts (self_config example_sampler) s)
                         = PyBool true) rows)
  /\ (Forall perturbable (parameters (self_config example_sampler)) ->
      (length (parameters (self_config example_sampler)) <= length [1 / 4])%nat ->
      forall fuel,
        perturb example_random_sample fuel example_sampler [1 / 4] 1 (1 / 20) 0%nat <> None ->
        exists rows g',
          perturb example_random_sample fuel example_sampler [1 / 4] 1 (1 / 20) 0%nat
          = Some (Ok (rows, g'))).
Proof.
  exact (constrained_perturb_returns_count_feasible example_random_sample example_sampler
           lower_half [1 / 4] 1 (1 / 20) 0%nat eq_refl).
Defined.

End SamplerDraws.

(** *** When the rejection loops end *)

Module SamplerTermination.
Import RandomSampler SamplerSpec SamplerExamples.

Section Termination.
Context {rng : Type} (random_sample : rng -> R * rng) (random_int : R -> rng -> R * rng).
Context {param_dict : Type}.
Implicit Types (slf : self param_dict) (constraints : param_dict -> pyobj) (g : rng).

Lemma is_True_false (v : pyobj) : v <> PyBool true -> is_True v = false.
Proof.
  intros Hv. destruct (is_True v) eqn:Ht; [|done]. by apply SamplerRejection.is_True_iff in Ht.
Qed.

Lemma valid_param_perturbable (p : param_settings) : valid_param p -> perturbable p.
Proof.
  intros [(Ht & Hlo & Hhi) | [(Ht & _) | (Ht & _)]].
  - by left.
  - right. by left.
  - right. by right.
Qed.

(** X14.  A feasibility predicate that never returns the object [True]
    (one that answers with [numpy.bool_] values, say) keeps the rejection
    loops of [draw] and [perturb] running for ever once a sample is asked
    for: whatever the number of rounds, neither a result nor an exception
    is reached. *)
Theorem rejection_without_True_never_ends slf constraints (num : nat) (ref_sample : vec)
    (scale : R) g :
  known_constraints slf = Some constraints ->
  (0 < num)%nat ->
  (forall param, constraints param <> PyBool true) ->
  Forall valid_param (parameters (self_config slf)) ->
  (length (parameters (self_config slf)) <= length ref_sample)%nat ->
  (forall fuel, draw random_sample random_int fuel slf num g = None)
  /\ (forall fuel, perturb random_sample fuel slf ref_sample num scale g = None).
Proof.
  intros Hc Hnum Hnever Hvalid Hlen. split.
  - intros fuel. unfold draw, _slow_draw. rewrite Hc. revert g.
    induction fuel as [|fuel IH]; intros g; cbn [_slow_draw_loop];
      rewrite decide_True by (cbn; lia); [done|].
    destruct num as [|num']; [lia|].
    destruct (SamplerRejection.draw_candidate_valid random_sample random_int slf num' g Hvalid)
      as (sample & g1 & ->).
    rewrite is_True_false by apply Hnever. apply IH.
  - assert (Hpert : Forall perturbable (parameters (self_config slf))).
    { eapply Forall_impl; [exact Hvalid|]. apply valid_param_perturbable. }
    intros fuel. unfold perturb, _slow_perturb. rewrite Hc.
    revert g. induction fuel as [|fuel IH]; intros g; cbn [_slow_perturb_loop];
      rewrite decide_True by (cbn; lia); [done|].
    destruct (SamplerPerturb.perturb_candidate_kept random_sample slf ref_sample scale g
                Hpert Hlen) as (row & g1 & -> & _).
    rewrite is_True_false by apply Hnever. apply IH.
Qed.

(** With a predicate that accepts every candidate the loop of [_slow_draw]
    needs as many rounds as samples are missing. *)
Lemma _slow_draw_loop_all_accepted slf constraints (num : nat) (samples : list vec) g :
  Forall valid_param (parameters (self_config slf)) ->
  (forall param, constraints param = PyBool true) ->
  (length samples <= num)%nat ->
  (exists rows g',
     _slow_draw_loop random_sample random_int (num - length samples) slf constraints num
                     samples g = Some (Ok (rows, g')))
  /\ (forall fuel, (fuel < num - length samples)%nat ->
        _slow_draw_loop random_sample random_int fuel slf constraints num samples g = None).
Proof.
  intros Hvalid Hall Hlen.
  remember (num - length samples)%nat as k eqn:Hk. revert samples g Hlen Hk.
  induction k as [|k IH]; intros samples g Hlen Hk.
  - split; [|intros; lia]. cbn [_slow_draw_loop]. rewrite decide_False by lia. by eexists _, _.
  - destruct num as [|num']; [lia|].
    destruct (SamplerRejection.draw_candidate_valid random_sample random_int slf num' g Hvalid)
      as (sample & g1 & Hcand).
    destruct (IH (samples ++ [sample]) g1) as [Hends Hshort].
    { rewrite length_app. cbn. lia. }
    { rewrite length_app. cbn. lia. }
    split.
    + cbn [_slow_draw_loop]. rewrite decide_True by lia. by rewrite Hcand, Hall.
    + intros [|fuel] Hfuel; cbn [_slow_draw_loop]; rewrite decide_True by lia; [done|].
      rewrite Hcand, Hall. cbn [is_True]. apply Hshort. lia.
Qed.

(** X15.  With a feasibility predicate that returns [True] on every
    candidate, the constrained [draw(num)] on a well-formed configuration
    returns after exactly [num] rounds of its loop: [num] rounds give the
    result, fewer do not. *)
Theorem rejection_with_all_True_takes_num_rounds slf constraints (num : nat) g :
  known_constraints slf = Some constraints ->
  Forall valid_param (parameters (self_config slf)) ->
  (forall param, constraints param = PyBool true) ->
  (exists rows g',
     draw random_sample random_int num slf num g = Some (Ok (rows, g')) /\ length rows = num)
  /\ (forall fuel, (fuel < num)%nat -> draw random_sample random_int fuel slf num g = None).
Proof.
  intros Hc Hvalid Hall. unfold draw, _slow_draw. rewrite Hc.
  destruct (_slow_draw_loop_all_accepted slf constraints num [] g Hvalid Hall ltac:(cbn; lia))
    as [(rows & g' & Hends) Hshort].
  cbn [length] in *. rewrite Nat.sub_0_r in *. split; [|done].
  exists rows, g'. split; [done|].
  eapply SamplerRejection._slow_draw_loop_result in Hends as [? _]; [done|cbn; lia|constructor].
Qed.

(** The loop of [_fast_perturb] and of [perturb_candidate] over a reference
    sample that is too short: the parameter without an entry raises. *)
Lemma perturb_loop_short_reference {T : Type}
    (body : T -> R -> param_settings -> rng -> result (T * rng))
    (ref_sample : vec) (params : list param_settings) (i : nat) (acc : T) g :
  (forall acc x p g, perturbable p -> exists acc' g', body acc x p g = Ok (acc', g')) ->
  Forall perturbable params ->
  (i <= length ref_sample < i + length params)%nat ->
  foldlR (fun '(acc, g) '(param_index, param_settings) =>
            let* ref_value := getitem ref_sample param_index in
            body acc ref_value param_settings g)
         (acc, g) (imap (fun j p => ((i + j)%nat, p)) params)
  = Raise IndexError.
Proof.
  intros Hbody. revert i acc g.
  induction params as [|p params IH]; intros i acc g Hvalid Hlen; [cbn in Hlen; lia|].
  apply Forall_cons in Hvalid as [Hp Hvalid]. cbn [length] in Hlen.
  cbn [imap foldlR]. unfold getitem at 1. rewrite Nat.add_0_r.
  destruct (ref_sample !! i) as [x|] eqn:Hx; cbn [bindR]; [|done].
  apply lookup_lt_Some in Hx.
  destruct (Hbody acc x p g Hp) as (acc' & g' & ->). cbn [bindR].
  rewrite (imap_ext _ (fun j p => ((S i + j)%nat, p))) by (intros; cbn; f_equal; lia).
  apply IH; [done|lia].
Qed.

(** X16.  A reference sample with fewer entries than the configuration has
    parameters makes [perturb] raise [IndexError] when it reaches the first
    parameter without an entry: at once without constraints, and in the
    first round of the rejection loop, if a sample is asked for, with
    them. *)
Theorem perturb_short_reference_raises slf (ref_sample : vec) (num : nat) (scale : R) g :
  Forall perturbable (parameters (self_config slf)) ->
  (length ref_sample < length (parameters (self_config slf)))%nat ->
  (known_constraints slf = None ->
   forall fuel, perturb random_sample fuel slf ref_sample num scale g = Some (Raise IndexError))
  /\ (is_Some (known_constraints slf) -> (0 < num)%nat ->
      forall fuel, perturb random_sample (S fuel) slf ref_sample num scale g
                   = Some (Raise IndexError)).
Proof.
  intros Hvalid Hlen. split.
  - intros Hnone fuel. unfold perturb, _fast_perturb. rewrite Hnone.
    rewrite (imap_ext pair (fun j p => ((0 + j)%nat, p))) by done.
    rewrite (perturb_loop_short_reference
               (fun perturbed_samples ref_value param_settings g =>
                  let* (perturbed_param_samples, g') :=
                    _perturb_single_parameter random_sample ref_value num
                      (type param_settings) (specs param_settings) scale g in
                  Ok (perturbed_samples ++ [perturbed_param_samples], g')));
      [done| |done|lia].
    intros acc x p g0 Hp.
    destruct (SamplerPerturb._perturb_single_parameter_kept random_sample x num p scale g0 Hp)
      as (col & g1 & -> & _).
    by eexists _, _.
  - intros [constraints Hc] Hnum fuel. unfold perturb, _slow_perturb. rewrite Hc.
    cbn [_slow_perturb_loop]. rewrite decide_True by (cbn; lia).
    unfold perturb_candidate.
    rewrite (imap_ext pair (fun j p => ((0 + j)%nat, p))) by done.
    rewrite (perturb_loop_short_reference
               (fun perturbed_sample ref_value param_settings g =>
                  let* (column, g') :=
                    _perturb_single_parameter random_sample ref_value 1
                      (type param_settings) (specs param_settings) scale g in
                  let* perturbed_param := getitem column 0 in
                  let* x := getitem perturbed_param 0 in
                  Ok (perturbed_sample ++ [x], g')));
      [done| |done|lia].
    intros acc x p g0 Hp.
    destruct (SamplerPerturb._perturb_single_parameter_kept random_sample x 1 p scale g0 Hp)
      as (col & g1 & -> & Hl & Hcol).
    destruct col as [|c [|? ?]]; try done.
    apply Forall_cons in Hcol as [(r & -> & _) _]. cbn. by eexists _, _.
Qed.

End Termination.

(** X14 on the sampler whose predicate answers with NumPy booleans. *)
Lemma rejection_without_True_witness :
  (forall fuel,
     draw example_random_sample example_random_int fuel example_sampler_numpy 1 0%nat = None)
  /\ (forall fuel,
        perturb example_random_sample fuel example_sampler_numpy [1 / 4] 1 (1 / 20) 0%nat
        = None).
Proof.
  apply (rejection_without_True_never_ends example_random_sample example_random_int
           example_sampler_numpy lower_half_numpy 1 [1 / 4] (1 / 20) 0%nat).
  - reflexivity.
  - lia.
  - intros param. discriminate.
  - exact SamplerRejection.example_config_valid.
  - cbn. lia.
Defined.

(** X15 on the sampler that accepts every candidate, for three samples. *)
Lemma rejection_with_all_True_witness :
  (exists rows g',
     draw example_random_sample example_random_int 3 accepting_sampler 3 0%nat
     = Some (Ok (rows, g')) /\ length rows = 3%nat)
  /\ (forall fuel, (fuel < 3)%nat ->
        draw example_random_sample example_random_int fuel accepting_sampler 3 0%nat = None).
Proof.
  apply (rejection_with_all_True_takes_num_rounds example_random_sample example_random_int
           accepting_sampler everywhere 3 0%nat).
  - reflexivity.
  - exact SamplerRejection.example_config_valid.
  - reflexivity.
Defined.

(** X16 on the configuration with three parameters and a reference sample
    with two entries. *)
Lemma perturb_short_reference_witness :
  (known_constraints mixed_sampler = None ->
   forall fuel,
     perturb example_random_sample fuel mixed_sampler [1 / 2; 1] 2 (1 / 20) 0%nat
     = Some (Raise IndexError))
  /\ (is_Some (known_constraints mixed_sampler) -> (0 < 2)%nat ->
      forall fuel,
        perturb example_random_sample (S fuel) mixed_sampler [1 / 2; 1] 2 (1 / 20) 0%nat
        = Some (Raise IndexError)).
Proof.
  apply (perturb_short_reference_raises example_random_sample mixed_sampler
           [1 / 2; 1] 2 (1 / 20) 0%nat).
  - repeat (apply Forall_cons; split); [| | |apply Forall_nil_2].
    + left. cbn. split_and!; [done|by eexists..].
    + right. by left.
    + right. by right.
  - cbn. lia.
Defined.

End SamplerTermination.

(** ** Normal samples *)

Module SamplerNormal.
Import RandomSampler SamplerSpec SamplerExamples OptimizerExamples.

Lemma unknown_type_eqb (param_type : string) :
  ~ known_type param_type ->
  String.eqb param_type "continuous" = false
  /\ String.eqb param_type "categorical" = false
  /\ String.eqb param_type "discrete" = false.
Proof.
  intros Hunknown. split_and!; apply String.eqb_neq; intros ->; apply Hunknown.
  - by left.
  - right. by left.
  - right. by right.
Qed.

Lemma sampler_attribute_not_own (name : string) :
  name = "categorical_sampler"%string \/ name = "discrete_sampler"%string ->
  name ∉ own_attributes.
Proof.
  intros [-> | ->]; unfold own_attributes; rewrite !not_elem_of_cons;
    split_and!; try done; apply not_elem_of_nil.
Qed.

Section Normal.
Context {rng : Type} (standard_normal : rng -> R * rng).
Variable Logger_attributes : list string.
Variable Logger_categorical_draw : nat -> nat -> rng -> result (list vec * rng).
Variable Logger_discrete_draw : R -> R -> nat -> rng -> result (list vec * rng).
Context {param_dict : Type}.
Implicit Types (slf : self param_dict) (g : rng).

Abbreviation normal_samples_step' :=
  (normal_samples_step standard_normal Logger_attributes Logger_categorical_draw
     Logger_discrete_draw).
Abbreviation normal_samples' :=
  (normal_samples standard_normal Logger_attributes Logger_categorical_draw
     Logger_discrete_draw).

(** The step for a continuous parameter: a column of [num] draws around
    [loc[param_index]]. *)
Lemma normal_samples_step_continuous (loc : vec) (scale : R) (num : nat)
    (samples : list (list vec)) (previous : option (list vec)) g
    (param_index : nat) (p : param_settings) (l : R) :
  drawable scale p ->
  loc !! param_index = Some l ->
  exists col g',
    normal_samples_step' (LocArray loc) scale num (samples, previous, g) (param_index, p)
    = Ok (samples ++ [col], Some col, g')
    /\ column_of (fun x => scale = 0 -> x = l) num col.
Proof.
  intros (Ht & lo & hi & Hlo & Hhi & Hscale) Hl.
  unfold normal_samples_step. rewrite Ht.
  assert (String.eqb "continuous" "continuous" = true) as -> by done.
  rewrite Hlo, Hhi. cbn [specs_get bindR]. unfold random_normal.
  rewrite decide_False by lra. cbn [bindR loc_getitem]. unfold getitem. rewrite Hl. cbn [bindR].
  destruct (SamplerPerturb.draw_column_shape num (normal standard_normal 0 (scale * (hi - lo)))
              (fun z => scale = 0 -> z = 0) g) as (col & g' & -> & Hcol).
  { intros g0 ->. unfold normal. destruct (standard_normal g0) as [z g1]. cbn. lra. }
  eexists _, g'. split; [done|].
  apply (SamplerPerturb.column_of_fmap _ (fun z => scale = 0 -> z = 0)); [|done].
  intros z Hz Hs. rewrite (Hz Hs). lra.
Qed.

(** The loop over continuous parameters from index [i] on. *)
Lemma normal_samples_columns (loc : vec) (scale : R) (num : nat)
    (params : list param_settings) (i : nat) (samples : list (list vec))
    (previous : option (list vec)) g :
  Forall (drawable scale) params ->
  (i + length params <= length loc)%nat ->
  exists cols final g',
    foldlR (normal_samples_step' (LocArray loc) scale num) (samples, previous, g)
           (imap (fun j p => ((i + j)%nat, p)) params)
    = Ok (samples ++ cols, final, g')
    /\ Forall2 (fun P col => column_of P num col)
               ((fun l x => scale = 0 -> x = l) <$> take (length params) (drop i loc)) cols.
Proof.
  revert i samples previous g.
  induction params as [|p params IH]; intros i samples previous g Hvalid Hlen.
  - exists [], previous, g. rewrite app_nil_r. split; [done|constructor].
  - apply Forall_cons in Hvalid as [Hp Hvalid]. cbn [length] in Hlen.
    destruct (lookup_lt_is_Some_2 loc i ltac:(lia)) as [l Hl].
    cbn [imap foldlR]. rewrite Nat.add_0_r.
    destruct (normal_samples_step_continuous loc scale num samples previous g i p l Hp Hl)
      as (col & g1 & -> & Hcol). cbn [bindR].
    destruct (IH (S i) (samples ++ [col]) (Some col) g1 Hvalid ltac:(lia))
      as (cols & final & g2 & Hfold & Hcols).
    exists (col :: cols), final, g2. split.
    + rewrite (imap_ext _ (fun j p => ((S i + j)%nat, p))) by (intros; cbn; f_equal; lia).
      rewrite Hfold. by rewrite <- app_assoc.
    + cbn [length]. rewrite (drop_S _ l) by done. cbn [take fmap list_fmap].
      by constructor.
Qed.

(** X17.  On a configuration of continuous parameters, with an array [loc]
    that has an entry for every parameter and scales that are not negative,
    [normal_samples] returns [num] samples with one entry per parameter;
    with [scale = 0] every sample is the array [loc] itself, whether or not
    it lies within the bounds of the parameters: unlike [perturb],
    [normal_samples] does not clip. *)
Theorem normal_samples_continuous slf (loc : vec) (scale : R) (num : nat) g :
  parameters (self_config slf) <> [] ->
  Forall (drawable scale) (parameters (self_config slf)) ->
  length loc = length (parameters (self_config slf)) ->
  exists rows g',
    normal_samples' slf (LocArray loc) scale num g = Ok (rows, g')
    /\ length rows = num
    /\ Forall (fun row => length row = length (parameters (self_config slf))) rows
    /\ (scale = 0 -> rows = replicate num loc).
Proof.
  intros Hne Hvalid Hlen. unfold normal_samples.
  destruct (normal_samples_columns loc scale num (parameters (self_config slf)) 0 [] None g
              Hvalid ltac:(lia)) as (cols & final & g' & Hfold & Hcols).
  rewrite (imap_ext pair (fun j p => ((0 + j)%nat, p))) by done.
  rewrite Hfold. cbn [bindR app].
  rewrite drop_0, <- Hlen, firstn_all in Hcols.
  assert (Hcols_ne : cols <> []).
  { intros ->. apply Forall2_nil_inv_r, fmap_nil_inv in Hcols. subst loc.
    destruct (parameters (self_config slf)); [done|discriminate]. }
  destruct (SamplerPerturb.concatenate_axis1_columns _ num cols Hcols_ne Hcols)
    as (rows & -> & Hrows & Hall).
  cbn [bindR]. exists rows, g'. split_and!; [done..| |].
  - eapply Forall_impl; [exact Hall|]. intros row Hrow. cbn in Hrow.
    apply Forall2_length in Hrow. rewrite length_fmap in Hrow. lia.
  - intros Hs. apply list_eq_same_length with num; [by rewrite length_replicate|done|].
    intros i row row' Hi Hrow Hrow'. apply lookup_replicate in Hrow' as [-> _].
    rewrite Forall_lookup in Hall. specialize (Hall i row Hrow). cbn in Hall.
    apply Forall2_fmap_l in Hall.
    apply list_eq_Forall2. apply Forall2_flip. eapply Forall2_impl; [exact Hall|].
    cbn. intros l x Hx. by rewrite Hx.
Qed.

(** X18.  With its default [loc], the float [0.], [normal_samples] does not
    get past its first parameter: for a continuous parameter the draw is
    made and indexing the float raises [TypeError], and for a categorical
    or a discrete parameter the samplers [self.categorical_sampler] and
    [self.discrete_sampler], which the class never creates, are missing
    ([AttributeError], unless the logger base class provides them). *)
Theorem normal_samples_default_loc_raises slf (x scale : R) (num : nat) g
    (p : param_settings) (rest : list param_settings) :
  parameters (self_config slf) = p :: rest ->
  "categorical_sampler"%string ∉ Logger_attributes ->
  "discrete_sampler"%string ∉ Logger_attributes ->
  (drawable scale p -> normal_samples' slf (LocFloat x) scale num g = Raise TypeError)
  /\ (type p = "categorical"%string \/ type p = "discrete"%string ->
      forall loc, normal_samples' slf loc scale num g = Raise AttributeError).
Proof.
  intros Hparams Hcat Hdis. unfold normal_samples. rewrite Hparams. cbn [imap foldlR].
  split.
  - intros (Ht & lo & hi & Hlo & Hhi & Hscale).
    unfold normal_samples_step at 1. rewrite Ht.
    assert (String.eqb "continuous" "continuous" = true) as -> by done.
    rewrite Hlo, Hhi. cbn [specs_get bindR]. unfold random_normal.
    rewrite decide_False by lra. cbn [bindR].
    by destruct (draw_column num _ g).
  - intros Ht loc. unfold normal_samples_step at 1. unfold getattr.
    destruct Ht as [Ht|Ht]; rewrite Ht.
    + assert (String.eqb "categorical" "continuous" = false) as -> by done.
      assert (String.eqb "categorical" "categorical" = true) as -> by done.
      rewrite decide_False; [done|].
      intros [Hown|Hlog]%elem_of_app; [|done].
      revert Hown. apply sampler_attribute_not_own. by left.
    + assert (String.eqb "discrete" "continuous" = false) as -> by done.
      assert (String.eqb "discrete" "categorical" = false) as -> by done.
      assert (String.eqb "discrete" "discrete" = true) as -> by done.
      rewrite decide_False; [done|].
      intros [Hown|Hlog]%elem_of_app; [|done].
      revert Hown. apply sampler_attribute_not_own. by right.
Qed.

(** X19.  A parameter of an unknown type is not reported by
    [normal_samples] either.  As the first parameter it ends the call with
    [UnboundLocalError]; after a continuous parameter the variable
    [sampled_values] still holds the column drawn for that parameter, and
    the column is appended a second time: every sample comes back with the
    entry of the continuous parameter repeated in place of the unknown
    one, and nothing is drawn for it. *)
Theorem normal_samples_unknown_type slf (loc : vec) (scale : R) (num : nat) g
    (p q : param_settings) :
  ~ known_type (type q) ->
  (forall rest, parameters (self_config slf) = q :: rest ->
     forall loc', normal_samples' slf loc' scale num g = Raise UnboundLocalError)
  /\ (parameters (self_config slf) = [p; q] ->
      drawable scale p ->
      (0 < length loc)%nat ->
      exists col g',
        normal_samples_step' (LocArray loc) scale num ([], None, g) (0%nat, p)
        = Ok ([col], Some col, g')
        /\ normal_samples' slf (LocArray loc) scale num g
           = Ok ((fun row => row ++ row) <$> col, g')
        /\ column_of (fun _ => True) num col).
Proof.
  intros Hq. destruct (unknown_type_eqb _ Hq) as (Hq1 & Hq2 & Hq3).
  split.
  - intros rest Hparams loc'. unfold normal_samples. rewrite Hparams. cbn [imap foldlR].
    unfold normal_samples_step at 1. by rewrite Hq1, Hq2, Hq3.
  - intros Hparams Hp Hloc.
    destruct (lookup_lt_is_Some_2 loc 0 Hloc) as [l Hl].
    destruct (normal_samples_step_continuous loc scale num [] None g 0 p l Hp Hl)
      as (col & g' & Hstep & Hlen & Hcol).
    exists col, g'. split_and!; [done| |].
    + unfold normal_samples. rewrite Hparams. cbn [imap foldlR compose]. rewrite Hstep.
      cbn [bindR app]. unfold normal_samples_step at 1. rewrite Hq1, Hq2, Hq3.
      cbn [bindR new_GryffinUnknownSettingsError app concatenate_axis1].
      do 2 f_equal. clear. induction col as [|row col IH]; [done|]. cbn. by f_equal.
    + split; [done|]. eapply Forall_impl; [exact Hcol|]. intros row (x & -> & _). by exists x.
Qed.

End Normal.

Lemma logger_has_no_samplers :
  ("categorical_sampler"%string ∉ logger_attributes)
  /\ ("discrete_sampler"%string ∉ logger_attributes).
Proof.
  unfold logger_attributes. rewrite !not_elem_of_cons.
  split_and!; try done; apply not_elem_of_nil.
Qed.

Lemma unit_interval_drawable (scale : R) : 0 <= scale -> drawable scale unit_interval.
Proof. intros Hs. split; [done|]. exists 0, 1. split_and!; [done..|lra]. Qed.

(** X17 on the unit interval, with [loc = [2]] outside of it and
    [scale = 0]. *)
Lemma normal_samples_continuous_witness :
  exists rows g',
    normal_samples example_standard_normal logger_attributes no_categorical_draw
                   no_discrete_draw unconstrained_sampler (LocArray [2]) 0 2 0%nat
    = Ok (rows, g')
    /\ length rows = 2%nat
    /\ Forall (fun row => length row = length (parameters (self_config unconstrained_sampler)))
              rows
    /\ ((0 : R) = 0 -> rows = replicate 2 [2]).
Proof.
  apply (normal_samples_continuous example_standard_normal logger_attributes
           no_categorical_draw no_discrete_draw unconstrained_sampler [2] 0 2 0%nat).
  - discriminate.
  - constructor; [|constructor]. apply unit_interval_drawable. lra.
  - reflexivity.
Defined.

(** X18 on a configuration that starts with the unit interval and on one
    that starts with a categorical parameter. *)
Lemma normal_samples_default_loc_witness :
  normal_samples example_standard_normal logger_attributes no_categorical_draw
                 no_discrete_draw mixed_sampler (LocFloat 0) 1 1 0%nat
  = Raise TypeError
  /\ normal_samples example_standard_normal logger_attributes no_categorical_draw
                    no_discrete_draw categorical_first_sampler (LocFloat 0) 1 1 0%nat
     = Raise AttributeError.
Proof.
  destruct logger_has_no_samplers as [Hcat Hdis]. split.
  - apply (normal_samples_default_loc_raises example_standard_normal logger_attributes
             no_categorical_draw no_discrete_draw mixed_sampler 0 1 1 0%nat
             unit_interval [three_options; five_to_ten] eq_refl Hcat Hdis).
    apply unit_interval_drawable. lra.
  - apply (normal_samples_default_loc_raises example_standard_normal logger_attributes
             no_categorical_draw no_discrete_draw categorical_first_sampler 0 1 1 0%nat
             three_options [unit_interval] eq_refl Hcat Hdis).
    by left.
Defined.

Lemma ordinal_unknown : ~ known_type (type ordinal_param).
Proof. by intros [?|[?|?]]. Qed.

(** X19 on the parameter of type ['ordinal'], alone and after the unit
    interval. *)
Lemma normal_samples_unknown_type_witness :
  normal_samples example_standard_normal logger_attributes no_categorical_draw
                 no_discrete_draw ordinal_first_sampler (LocArray [1 / 2]) 1 2 0%nat
  = Raise UnboundLocalError
  /\ exists col g',
       normal_samples_step example_standard_normal logger_attributes no_categorical_draw
                           no_discrete_draw (LocArray [1 / 2]) 1 2 ([], None, 0%nat)
                           (0%nat, unit_interval)
       = Ok ([col], Some col, g')
       /\ normal_samples example_standard_normal logger_attributes no_categorical_draw
                         no_discrete_draw ordinal_second_sampler (LocArray [1 / 2]) 1 2 0%nat
          = Ok ((fun row => row ++ row) <$> col, g')
       /\ column_of (fun _ => True) 2 col.
Proof.
  split.
  - apply (normal_samples_unknown_type example_standard_normal logger_attributes
             no_categorical_draw no_discrete_draw ordinal_first_sampler [1 / 2] 1 2 0%nat
             unit_interval ordinal_param ordinal_unknown) with (rest := []).
    reflexivity.
  - apply (normal_samples_unknown_type example_standard_normal logger_attributes
             no_categorical_draw no_discrete_draw ordinal_second_sampler [1 / 2] 1 2 0%nat
             unit_interval ordinal_param ordinal_unknown).
    + reflexivity.
    + apply unit_interval_drawable. lra.
    + cbn. lia.
Defined.

End SamplerNormal.

(** ** The masks of the optimizer *)

Module OptimizerMasks.
Import GradientOptimizer OptimizerSpec OptimizerExamples.

Lemma known_type_cases (feature_type : string) :
  SamplerSpec.known_type feature_type ->
  feature_type = "continuous"%string \/ feature_type = "categorical"%string
  \/ feature_type = "discrete"%string.
Proof. done. Qed.

Section Masks.
Variable Logger_attributes : list string.

(** One round of the loop of [__init__] on a feature of a known type
    within the masks. *)
Lemma parse_position_known (cfg : config) (pc pg pd : list bool) (i : nat)
    (feature_type : string) :
  SamplerSpec.known_type feature_type ->
  (i < length pc)%nat -> (i < length pg)%nat -> (i < length pd)%nat ->
  parse_position Logger_attributes cfg (pc, pg, pd) (i, feature_type)
  = Ok (if String.eqb feature_type "continuous" then <[i := true]> pc else pc,
        if String.eqb feature_type "categorical" then <[i := true]> pg else pg,
        if String.eqb feature_type "discrete" then <[i := true]> pd else pd).
Proof.
  intros Hknown Hc Hg Hd. unfold parse_position, setitem.
  destruct Hknown as [-> | [-> | ->]]; cbn [String.eqb Ascii.eqb Bool.eqb];
    rewrite decide_True by done; done.
Qed.

(** One round of the loop of [__init__] on a feature within the masks
    whose type is known or, if it is not, whose name and the attribute
    [template] of the logger are there for the message that is built and
    dropped. *)
Lemma parse_position_within (cfg : config) (pc pg pd : list bool) (i : nat)
    (feature_type : string) :
  SamplerSpec.known_type feature_type
  \/ ("template"%string ∈ Logger_attributes /\ (i < length (feature_names cfg))%nat) ->
  (i < length pc)%nat -> (i < length pg)%nat -> (i < length pd)%nat ->
  parse_position Logger_attributes cfg (pc, pg, pd) (i, feature_type)
  = Ok (if String.eqb feature_type "continuous" then <[i := true]> pc else pc,
        if String.eqb feature_type "categorical" then <[i := true]> pg else pg,
        if String.eqb feature_type "discrete" then <[i := true]> pd else pd).
Proof.
  intros [Hknown|[Htemplate Hname]] Hc Hg Hd; [by apply parse_position_known|].
  destruct (decide (feature_type = "continuous"%string)) as [Hty|H1];
    [apply parse_position_known; [by left|done..]|].
  destruct (decide (feature_type = "categorical"%string)) as [Hty|H2];
    [apply parse_position_known; [right; by left|done..]|].
  destruct (decide (feature_type = "discrete"%string)) as [Hty|H3];
    [apply parse_position_known; [right; by right|done..]|].
  apply String.eqb_neq in H1, H2, H3.
  unfold parse_position, getitem, getattr. rewrite H1, H2, H3.
  destruct (lookup_lt_is_Some_2 (feature_names cfg) i Hname) as [name ->]. cbn [bindR].
  rewrite decide_True by (apply elem_of_app; by right). done.
Qed.

(** X20.  For a configuration with no more feature types than
    [num_features], the constructor returns an optimizer whose three masks
    have [num_features] entries and sort the features by their type: the
    feature at index [i] is marked in the continuous mask exactly when its
    type is ['continuous'], and likewise for the categorical and the
    discrete mask; so no feature is marked in two masks, and a feature of
    an unknown type, for which the constructor only builds a message from
    the name of the feature and the attribute [template] of the logger, is
    marked in none. *)
Theorem init_masks_sort_features (cfg : config) :
  (forall i feature_type, feature_types cfg !! i = Some feature_type ->
     SamplerSpec.known_type feature_type
     \/ ("template"%string ∈ Logger_attributes /\ (i < length (feature_names cfg))%nat)) ->
  (length (feature_types cfg) <= num_features cfg)%nat ->
  exists slf,
    __init__ Logger_attributes cfg = Ok slf
    /\ self_config slf = cfg
    /\ length (pos_continuous slf) = num_features cfg
    /\ length (pos_categories slf) = num_features cfg
    /\ length (pos_discrete slf) = num_features cfg
    /\ forall i, (i < num_features cfg)%nat ->
         pos_continuous slf !! i
         = Some (bool_decide (feature_types cfg !! i = Some "continuous"%string))
         /\ pos_categories slf !! i
            = Some (bool_decide (feature_types cfg !! i = Some "categorical"%string))
         /\ pos_discrete slf !! i
            = Some (bool_decide (feature_types cfg !! i = Some "discrete"%string)).
Proof.
  intros Hknown Hlen. unfold __init__.
  set (n := num_features cfg).
  destruct (foldlR_total (parse_position Logger_attributes cfg)
              (fun k pos =>
                 length pos.1.1 = n /\ length pos.1.2 = n /\ length pos.2 = n
                 /\ forall i, (i < n)%nat ->
                      pos.1.1 !! i
                      = Some (bool_decide ((i < k)%nat
                                           /\ feature_types cfg !! i = Some "continuous"%string))
                      /\ pos.1.2 !! i
                         = Some (bool_decide ((i < k)%nat
                                              /\ feature_types cfg !! i = Some "categorical"%string))
                      /\ pos.2 !! i
                         = Some (bool_decide ((i < k)%nat
                                              /\ feature_types cfg !! i = Some "discrete"%string)))
              (imap pair (feature_types cfg))
              (replicate n false, replicate n false, replicate n false))
    as ([[pc pg] pd] & -> & Hc & Hg & Hd & Hmasks).
  { cbn. rewrite !length_replicate. split_and!; [done..|].
    intros i Hi. rewrite !lookup_replicate_2 by done.
    rewrite !bool_decide_eq_false_2 by (intros [? _]; lia). done. }
  { intros k [i ty] [[pc pg] pd] Hk (Hc & Hg & Hd & Hmasks). cbn [fst snd] in *.
    rewrite list_lookup_imap in Hk.
    destruct (feature_types cfg !! k) as [ty'|] eqn:Hty; [|done]. injection Hk as <- <-.
    assert (k < n)%nat by (apply lookup_lt_Some in Hty; lia).
    rewrite parse_position_within by (by apply Hknown || lia).
    eexists. split; [done|]. cbn.
    split_and!; [by destruct (String.eqb _ _); rewrite ?length_insert..|].
    intros i Hi. destruct (Hmasks i Hi) as (Hci & Hgi & Hdi).
    destruct (decide (i = k)) as [->|Hne].
    - rewrite Hty.
      split_and!.
      + destruct (String.eqb_spec ty' "continuous") as [->|Hne].
        * rewrite list_lookup_insert_eq by lia.
          by rewrite bool_decide_eq_true_2 by (split; [lia|done]).
        * rewrite Hci. f_equal. rewrite !bool_decide_eq_false_2; [done| |intros [? _]; lia].
          intros [_ [= ?]]. done.
      + destruct (String.eqb_spec ty' "categorical") as [->|Hne].
        * rewrite list_lookup_insert_eq by lia.
          by rewrite bool_decide_eq_true_2 by (split; [lia|done]).
        * rewrite Hgi. f_equal. rewrite !bool_decide_eq_false_2; [done| |intros [? _]; lia].
          intros [_ [= ?]]. done.
      + destruct (String.eqb_spec ty' "discrete") as [->|Hne].
        * rewrite list_lookup_insert_eq by lia.
          by rewrite bool_decide_eq_true_2 by (split; [lia|done]).
        * rewrite Hdi. f_equal. rewrite !bool_decide_eq_false_2; [done| |intros [? _]; lia].
          intros [_ [= ?]]. done.
    - assert (Hiff : (i < S k)%nat <-> (i < k)%nat) by lia.
      destruct (String.eqb ty' "continuous"), (String.eqb ty' "categorical"),
        (String.eqb ty' "discrete");
        rewrite ?list_lookup_insert_ne by done; rewrite Hci, Hgi, Hdi;
        split_and!; f_equal; apply bool_decide_ext; by rewrite Hiff. }
  cbn [bindR]. rewrite length_imap in Hmasks. cbn in *.
  eexists. split; [done|]. cbn. split_and!; [done..|].
  intros i Hi. destruct (Hmasks i Hi) as (Hci & Hgi & Hdi). rewrite Hci, Hgi, Hdi.
  split_and!; f_equal; apply bool_decide_ext; split; try (by intros [_ ?]);
    (intros Hty; split; [by eapply lookup_lt_Some|done]).
Qed.

(** The loop of [__init__] over more features than the masks have
    entries. *)
Lemma parse_positions_overflow (cfg : config) (types : list string) (i n : nat)
    (pos : list bool * list bool * list bool) :
  Forall SamplerSpec.known_type types ->
  length pos.1.1 = n -> length pos.1.2 = n -> length pos.2 = n ->
  (i <= n < i + length types)%nat ->
  foldlR (parse_position Logger_attributes cfg) pos (imap (fun j ty => ((i + j)%nat, ty)) types)
  = Raise IndexError.
Proof.
  revert i pos. induction types as [|ty types IH]; intros i [[pc pg] pd] Hknown Hc Hg Hd Hlen;
    [cbn in Hlen; lia|].
  apply Forall_cons in Hknown as [Hty Hknown]. cbn in Hc, Hg, Hd. cbn [length] in Hlen.
  cbn [imap foldlR]. rewrite Nat.add_0_r.
  destruct (decide (i < n)%nat) as [Hi|Hi].
  - rewrite parse_position_known by (done || lia). cbn [bindR].
    rewrite (imap_ext _ (fun j ty => ((S i + j)%nat, ty))) by (intros; cbn; f_equal; lia).
    apply IH; [done|cbn..|lia];
      destruct (String.eqb _ _); by rewrite ?length_insert.
  - assert (i = n) as -> by lia.
    unfold parse_position, setitem.
    destruct Hty as [-> | [-> | ->]]; cbn [String.eqb Ascii.eqb Bool.eqb];
      rewrite decide_False by lia; done.
Qed.

(** X21.  A configuration that lists more feature types than
    [num_features] cannot be built: the constructor raises [IndexError]
    when it marks the first feature beyond the masks. *)
Theorem init_more_types_than_features_raises (cfg : config) :
  Forall SamplerSpec.known_type (feature_types cfg) ->
  (num_features cfg < length (feature_types cfg))%nat ->
  __init__ Logger_attributes cfg = Raise IndexError.
Proof.
  intros Hknown Hlen. unfold __init__.
  rewrite (imap_ext pair (fun j ty => ((0 + j)%nat, ty))) by done.
  rewrite (parse_positions_overflow cfg (feature_types cfg) 0 (num_features cfg));
    [done|done|cbn; by rewrite length_replicate..|lia].
Qed.

End Masks.

Lemma four_features_handled (i : nat) (feature_type : string) :
  feature_types four_features_config !! i = Some feature_type ->
  SamplerSpec.known_type feature_type
  \/ ("template"%string ∈ logger_attributes_with_template
      /\ (i < length (feature_names four_features_config))%nat).
Proof.
  intros Hi. right. split; [by left|]. apply lookup_lt_Some in Hi. cbn in *. lia.
Qed.

(** X20 on the space with a feature of each type and one of the unknown
    type ['ordinal']. *)
Lemma init_masks_witness :
  exists slf,
    __init__ logger_attributes_with_template four_features_config = Ok slf
    /\ self_config slf = four_features_config
    /\ length (pos_continuous slf) = num_features four_features_config
    /\ length (pos_categories slf) = num_features four_features_config
    /\ length (pos_discrete slf) = num_features four_features_config
    /\ forall i, (i < num_features four_features_config)%nat ->
         pos_continuous slf !! i
         = Some (bool_decide (feature_types four_features_config !! i
                              = Some "continuous"%string))
         /\ pos_categories slf !! i
            = Some (bool_decide (feature_types four_features_config !! i
                                 = Some "categorical"%string))
         /\ pos_discrete slf !! i
            = Some (bool_decide (feature_types four_features_config !! i
                                 = Some "discrete"%string)).
Proof.
  apply (init_masks_sort_features logger_attributes_with_template four_features_config).
  - exact four_features_handled.
  - cbn. lia.
Defined.

(** X21 on two feature types for one feature. *)
Lemma init_more_types_witness :
  __init__ logger_attributes overfull_config = Raise IndexError.
Proof.
  apply (init_more_types_than_features_raises logger_attributes overfull_config).
  - repeat (apply Forall_cons; split); [| |apply Forall_nil_2].
    + by left.
    + right. by right.
  - cbn. lia.
Defined.

(** ** The projection at the start of [optimize] *)

Section Projection.
Variable Logger_attributes : list string.
Variable Logger_within_bounds : vec -> result bool.
Context {opt_state : Type}.
Variable opt_con_get_update opt_dis_get_update opt_cat_get_update :
  vec -> opt_state -> vec * opt_state.

Abbreviation optimize_loop' := (optimize_loop Logger_attributes Logger_within_bounds
  opt_con_get_update opt_dis_get_update opt_cat_get_update).
Abbreviation optimize' := (optimize Logger_attributes Logger_within_bounds
  opt_con_get_update opt_dis_get_update opt_cat_get_update).

(** Without an active feature the loop leaves the vector as it is. *)
Lemma optimize_loop_idle (slf : self) (remaining done_iter : nat) (sample_copy optimized : vec)
    (st : opt_state) :
  ((0 < remaining)%nat ->
   any (pos_continuous slf) = false /\ any (pos_categories slf) = false
   /\ any (pos_discrete slf) = false) ->
  optimize_loop' slf remaining done_iter sample_copy optimized st
  = Ok (optimized, st, (done_iter + remaining)%nat).
Proof.
  revert done_iter sample_copy.
  induction remaining as [|remaining IH]; intros done_iter sample_copy Hidle;
    cbn [optimize_loop].
  - by rewrite Nat.add_0_r.
  - destruct (Hidle ltac:(lia)) as (Hc & Hg & Hd).
    unfold optimize_step. rewrite Hc, Hg, Hd. cbn [bindR andb].
    rewrite IH by done. do 2 f_equal. lia.
Qed.

(** X22.  Before its loop [optimize] moves a sample that violates a bound
    into the bounds, entry by entry: below the lower bound to the lower
    bound, above the upper bound to the upper bound; it then casts the
    sample to single precision.  A sample within the bounds is left as it
    is, without a cast.  The cast keeps every entry between the casts of its
    bounds, so that the sample the loop starts from lies within bounds
    that are numbers in single precision themselves.  With a budget of
    zero iterations, or with no feature of a known type to optimize, this
    projection is what [optimize] returns. *)
Theorem optimize_projects_into_bounds (slf : self) (sample : vec) (max_iter : nat)
    (st : opt_state) :
  ordered_bounds (self_config slf) sample ->
  ((0 < max_iter)%nat ->
   any (pos_continuous slf) = false /\ any (pos_categories slf) = false
   /\ any (pos_discrete slf) = false) ->
  exists v,
    optimize' slf sample max_iter st = Ok (v, st, max_iter)
    /\ length v = length sample
    /\ (_within_bounds slf sample = true -> v = sample)
    /\ (_within_bounds slf sample = false ->
        forall i x l u,
          sample !! i = Some x ->
          feature_lowers (self_config slf) !! i = Some l ->
          feature_uppers (self_config slf) !! i = Some u ->
          v !! i = Some (np.float32 (SamplerSpec.clip l u x))
          /\ np.float32 l <= np.float32 (SamplerSpec.clip l u x) <= np.float32 u)
    /\ (float32_bounds (self_config slf) -> _within_bounds slf v = true).
Proof.
  intros (Hlow & Hupp & Hord) Hidle. unfold optimize.
  rewrite optimize_loop_idle by done. cbn [Nat.add].
  destruct (_within_bounds slf sample) eqn:Hin; cbn [negb].
  - exists sample. by split_and!.
  - eexists. split_and!; [done| |done| |].
    + unfold np.astype_float32. rewrite length_fmap, !length_zip_with. lia.
    + intros _ i x l u Hx Hl Hu. split.
      * unfold np.astype_float32, SamplerSpec.clip. rewrite list_lookup_fmap.
        apply fmap_Some. eexists. split; [|done].
        apply lookup_zip_with_Some. eexists _, u. split_and!; [done| |done].
        apply lookup_zip_with_Some. by exists x, l.
      * specialize (Hord i l u Hl Hu). unfold SamplerSpec.clip.
        split; apply float32_le; repeat case_decide; lra.
    + intros Hf32. by apply OptimizerFacts.clamped_within_bounds.
Qed.

End Projection.

Lemma three_features_float32_bounds : float32_bounds three_features_config.
Proof.
  split; cbn; repeat (apply Forall_cons; split); try apply Forall_nil_2;
    try apply float32_0; first [apply (float32_IZR 1)|apply (float32_IZR 2)|apply (float32_IZR 4)];
    lia.
Qed.

(** X22 on the space with a feature of each type, for a sample outside the
    bounds and a budget of zero iterations. *)
Lemma optimize_projects_witness :
  exists v,
    optimize logger_attributes (fun _ => Ok true) no_update no_update no_update
             three_features_optimizer [2; 1; -1] 0 tt = Ok (v, tt, 0%nat)
    /\ length v = length ([2; 1; -1] : vec)
    /\ (_within_bounds three_features_optimizer [2; 1; -1] = true -> v = [2; 1; -1])
    /\ (_within_bounds three_features_optimizer [2; 1; -1] = false ->
        forall i x l u,
          ([2; 1; -1] : vec) !! i = Some x ->
          feature_lowers (self_config three_features_optimizer) !! i = Some l ->
          feature_uppers (self_config three_features_optimizer) !! i = Some u ->
          v !! i = Some (np.float32 (SamplerSpec.clip l u x))
          /\ np.float32 l <= np.float32 (SamplerSpec.clip l u x) <= np.float32 u)
    /\ _within_bounds three_features_optimizer v = true.
Proof.
  destruct (optimize_projects_into_bounds logger_attributes (fun _ => Ok true)
              no_update no_update no_update three_features_optimizer [2; 1; -1] 0 tt)
    as (v & Hv & Hlen & Hsame & Hclip & Hin).
  - split_and!; [done..|].
    intros [|[|[|i]]] l u; cbn; intros [= <-] [= <-]; lra.
  - lia.
  - exists v. split_and!; [done..|]. apply Hin, three_features_float32_bounds.
Defined.

(** An upper bound that is no number in single precision: on [[0, 0.3]]
    the sample [1] is moved to the cast of [0.3], which lies above the
    bound. *)
Lemma optimize_casts_the_bound :
  optimize logger_attributes (fun _ => Ok true) no_update no_update no_update
           three_tenths_optimizer [1] 0 tt
  = Ok ([10066330 / 33554432], tt, 0%nat)
  /\ _within_bounds three_tenths_optimizer [10066330 / 33554432] = false.
Proof.
  assert (Hout : _within_bounds three_tenths_optimizer [1] = false).
  { unfold _within_bounds. cbn. rewrite bool_decide_eq_false_2 by lra.
    by rewrite bool_decide_eq_true_2 by lra. }
  split.
  - unfold optimize. rewrite Hout. cbn.
    rewrite (decide_False (P := 1 < 0)) by lra. rewrite decide_True by lra.
    by rewrite float32_three_tenths.
  - unfold _within_bounds. cbn. rewrite bool_decide_eq_false_2 by lra.
    by rewrite bool_decide_eq_true_2 by lra.
Qed.

End OptimizerMasks.

(** ** The positions [set_func] hands to the sub-optimizers *)

Module OptimizerPositions.
Import GradientOptimizer OptimizerSpec OptimizerExamples.

Lemma elem_of_select_mask {A} (a : list A) (mask : list bool) (x : A) :
  x ∈ select_mask a mask <-> exists j, a !! j = Some x /\ mask !! j = Some true.
Proof.
  revert mask. induction a as [|y a IH]; intros [|b mask]; cbn [select_mask].
  - split; [by intros ?%elem_of_nil|by intros (j & ? & _)].
  - split; [by intros ?%elem_of_nil|by intros (j & ? & _)].
  - split; [by intros ?%elem_of_nil|by intros (j & _ & ?)].
  - destruct b.
    + rewrite elem_of_cons, IH. split.
      * intros [->|(j & Hj & Hm)]; [by exists 0%nat|by exists (S j)].
      * intros ([|j] & Hj & Hm); cbn in *; [left; congruence|right; by exists j].
    + rewrite IH. split.
      * intros (j & Hj & Hm). by exists (S j).
      * intros ([|j] & Hj & Hm); cbn in *; [done|by exists j].
Qed.

Lemma length_select_mask {A} (a : list A) (mask : list bool) :
  length mask = length a -> length (select_mask a mask) = count_true mask.
Proof.
  unfold count_true. revert mask. induction a as [|y a IH]; intros [|b mask] Hlen; try done.
  cbn [select_mask]. injection Hlen as Hlen. destruct b.
  - rewrite filter_cons_True by done. cbn. f_equal. by apply IH.
  - rewrite filter_cons_False by done. by apply IH.
Qed.

(** A mask that has lost entries selects fewer. *)
Lemma count_true_le (mask mask' : list bool) :
  length mask' = length mask ->
  (forall i, mask' !! i = Some true -> mask !! i = Some true) ->
  (count_true mask' <= count_true mask)%nat
  /\ ((exists i, mask !! i = Some true /\ mask' !! i = Some false) ->
      (count_true mask' < count_true mask)%nat).
Proof.
  unfold count_true. revert mask'.
  induction mask as [|b mask IH]; intros [|b' mask'] Hlen Hsub; try done.
  - split; [done|]. by intros (i & ? & _).
  - injection Hlen as Hlen.
    destruct (IH mask' Hlen) as [Hle Hlt]; [intros i; apply (Hsub (S i))|].
    assert (Hcons : forall (b : bool) (l : list bool),
              length (filter (fun b => b = true) (b :: l))
              = ((if b then 1 else 0) + length (filter (fun b => b = true) l))%nat).
    { intros [] l; [by rewrite filter_cons_True|by rewrite filter_cons_False]. }
    rewrite !Hcons. split.
    + destruct b, b'; try lia. by specialize (Hsub 0%nat eq_refl).
    + intros ([|i] & Hi & Hi'); cbn in Hi, Hi'.
      * injection Hi as ->. injection Hi' as ->. lia.
      * assert (length (filter (fun b => b = true) mask')
                < length (filter (fun b => b = true) mask))%nat by (apply Hlt; by exists i).
        destruct b, b'; try lia. by specialize (Hsub 0%nat eq_refl).
Qed.

(** The loop over [ignores]: an ignored feature is taken out of the three
    copies of the masks. *)
Lemma ignore_loop (ignores : list bool) (n : nat) (pc pd pg : list bool) :
  length pc = n -> length pd = n -> length pg = n ->
  (length ignores <= n)%nat ->
  exists pc' pd' pg',
    foldlR ignore_step (pc, pd, pg) (imap pair ignores) = Ok (pc', pd', pg')
    /\ length pc' = n /\ length pd' = n /\ length pg' = n
    /\ forall i,
         (pc' !! i = Some true <-> pc !! i = Some true /\ ~ ignored ignores i)
         /\ (pd' !! i = Some true <-> pd !! i = Some true /\ ~ ignored ignores i)
         /\ (pg' !! i = Some true <-> pg !! i = Some true /\ ~ ignored ignores i)
         /\ (pd !! i = Some true -> ignored ignores i -> pd' !! i = Some false)
         /\ (pg !! i = Some true -> ignored ignores i -> pg' !! i = Some false).
Proof.
  intros Hc Hd Hg Hlen.
  destruct (foldlR_total ignore_step
              (fun k pos =>
                 length pos.1.1 = n /\ length pos.1.2 = n /\ length pos.2 = n
                 /\ forall i,
                      pos.1.1 !! i = (if decide ((i < k)%nat /\ ignores !! i = Some true)
                                      then (fun _ => false) <$> pc !! i else pc !! i)
                      /\ pos.1.2 !! i = (if decide ((i < k)%nat /\ ignores !! i = Some true)
                                         then (fun _ => false) <$> pd !! i else pd !! i)
                      /\ pos.2 !! i = (if decide ((i < k)%nat /\ ignores !! i = Some true)
                                       then (fun _ => false) <$> pg !! i else pg !! i))
              (imap pair ignores) (pc, pd, pg))
    as ([[pc' pd'] pg'] & Hfold & Hc' & Hd' & Hg' & Hmasks).
  { cbn. split_and!; [done..|]. intros i. by rewrite decide_False by (intros [? _]; lia). }
  { intros k [i ignore] [[qc qd] qg] Hk (Hqc & Hqd & Hqg & Hq). cbn [fst snd] in *.
    rewrite list_lookup_imap in Hk.
    destruct (ignores !! k) as [b|] eqn:Hb; [|done]. injection Hk as <- <-.
    assert (k < n)%nat by (apply lookup_lt_Some in Hb; lia).
    unfold ignore_step, setitem. destruct b.
    - rewrite !decide_True by lia. cbn [bindR]. eexists. split; [done|]. cbn [fst snd].
      rewrite !length_insert. split_and!; [done..|].
      intros i. destruct (Hq i) as (Hci & Hdi & Hgi).
      destruct (decide (i = k)) as [->|Hne].
      + rewrite !list_lookup_insert_eq by lia.
        rewrite !decide_True by (split; [lia|done]).
        assert (is_Some (pc !! k)) as [xc Hxc] by (apply lookup_lt_is_Some_2; lia).
        assert (is_Some (pd !! k)) as [xd Hxd] by (apply lookup_lt_is_Some_2; lia).
        assert (is_Some (pg !! k)) as [xg Hxg] by (apply lookup_lt_is_Some_2; lia).
        by rewrite Hxc, Hxd, Hxg.
      + rewrite !list_lookup_insert_ne by done. rewrite Hci, Hdi, Hgi.
        split_and!; apply decide_ext; intuition lia.
    - cbn [bindR]. eexists. split; [done|]. cbn [fst snd]. split_and!; [done..|].
      intros i. destruct (Hq i) as (Hci & Hdi & Hgi). rewrite Hci, Hdi, Hgi.
      split_and!; apply decide_ext; split; intros [Hi Hign]; (split; [|done]);
        try lia; destruct (decide (i = k)) as [->|]; try lia;
        unfold ignored in Hign; congruence. }
  cbn [fst snd] in *. rewrite length_imap in Hmasks.
  exists pc', pd', pg'. split_and!; [done..|].
  intros i. destruct (Hmasks i) as (Hci & Hdi & Hgi). rewrite Hci, Hdi, Hgi.
  assert (Hin : ignored ignores i -> (i < length ignores)%nat).
  { intros Hign. by eapply lookup_lt_Some. }
  split_and!.
  - case_decide as Hcase.
    + destruct Hcase as [_ Hign]. destruct (pc !! i); cbn; split; try done; by intros [_ []].
    + split; [intros ?; split; [done|]; intros ?; apply Hcase; auto|by intros [? _]].
  - case_decide as Hcase.
    + destruct Hcase as [_ Hign]. destruct (pd !! i); cbn; split; try done; by intros [_ []].
    + split; [intros ?; split; [done|]; intros ?; apply Hcase; auto|by intros [? _]].
  - case_decide as Hcase.
    + destruct Hcase as [_ Hign]. destruct (pg !! i); cbn; split; try done; by intros [_ []].
    + split; [intros ?; split; [done|]; intros ?; apply Hcase; auto|by intros [? _]].
  - intros Hd0 Hign. rewrite decide_True by auto. by rewrite Hd0.
  - intros Hg0 Hign. rewrite decide_True by auto. by rewrite Hg0.
Qed.

Lemma elem_of_select_mask_seq (n : nat) (mask : list bool) (i : nat) :
  length mask = n ->
  i ∈ select_mask (seq 0 n) mask <-> mask !! i = Some true.
Proof.
  intros Hlen. rewrite elem_of_select_mask. split.
  - intros (j & Hj & Hm). apply lookup_seq in Hj as [-> _]. done.
  - intros Hm. exists i. split; [|done]. apply lookup_seq. split; [done|].
    rewrite <- Hlen. by eapply lookup_lt_Some.
Qed.

Lemma select_mask_sublist {A} (a : list A) (mask : list bool) :
  select_mask a mask `sublist_of` a.
Proof.
  revert mask. induction a as [|x a IH]; intros [|b mask]; cbn [select_mask];
    try apply sublist_nil_l.
  destruct b; [by apply sublist_skip|by apply sublist_cons].
Qed.

(** What [set_func] computes on masks of the size of the configuration. *)
Lemma set_func_inv (slf : self) (feature_sizes : vec) (ignores_arg : option (list bool)) :
  length (pos_continuous slf) = num_features (self_config slf) ->
  length (pos_discrete slf) = num_features (self_config slf) ->
  length (pos_categories slf) = num_features (self_config slf) ->
  length feature_sizes = num_features (self_config slf) ->
  (length (default [] ignores_arg) <= num_features (self_config slf))%nat ->
  exists pc' pd' pg',
    set_func slf feature_sizes ignores_arg
    = Ok {| con_pos := select_mask (seq 0 (num_features (self_config slf))) pc';
            dis_pos := select_mask (seq 0 (num_features (self_config slf))) pd';
            dis_highest := select_mask feature_sizes (pos_discrete slf);
            cat_pos := select_mask (seq 0 (num_features (self_config slf))) pg';
            cat_highest := select_mask feature_sizes (pos_categories slf) |}
    /\ length pc' = num_features (self_config slf)
    /\ length pd' = num_features (self_config slf)
    /\ length pg' = num_features (self_config slf)
    /\ forall i,
         (pc' !! i = Some true <->
          pos_continuous slf !! i = Some true /\ ~ ignored (default [] ignores_arg) i)
         /\ (pd' !! i = Some true <->
             pos_discrete slf !! i = Some true /\ ~ ignored (default [] ignores_arg) i)
         /\ (pg' !! i = Some true <->
             pos_categories slf !! i = Some true /\ ~ ignored (default [] ignores_arg) i)
         /\ (pos_discrete slf !! i = Some true -> ignored (default [] ignores_arg) i ->
             pd' !! i = Some false)
         /\ (pos_categories slf !! i = Some true -> ignored (default [] ignores_arg) i ->
             pg' !! i = Some false).
Proof.
  intros Hc Hd Hg Hsizes Hlen.
  destruct (ignore_loop (default [] ignores_arg) (num_features (self_config slf))
              (pos_continuous slf) (pos_discrete slf) (pos_categories slf) Hc Hd Hg Hlen)
    as (pc' & pd' & pg' & Hfold & Hc' & Hd' & Hg' & Hmasks).
  exists pc', pd', pg'. split_and!; [|done..].
  unfold set_func.
  replace (match ignores_arg with
           | Some ignores => foldlR ignore_step _ (imap pair ignores)
           | None => Ok _
           end)
    with (foldlR ignore_step (pos_continuous slf, pos_discrete slf, pos_categories slf)
                 (imap pair (default [] ignores_arg)))
    by (by destruct ignores_arg).
  rewrite Hfold. cbn [bindR]. unfold mask_index.
  rewrite !length_seq. rewrite !decide_True by congruence. done.
Qed.

(** X23.  On an optimizer whose masks have the size of the configuration,
    with no more [ignores] than features, [set_func] hands every
    sub-optimizer the positions of the features of its type that are not
    ignored, in increasing order: an ignored feature is among the positions
    of no sub-optimizer. *)
Theorem set_func_positions (slf : self) (feature_sizes : vec)
    (ignores_arg : option (list bool)) :
  length (pos_continuous slf) = num_features (self_config slf) ->
  length (pos_discrete slf) = num_features (self_config slf) ->
  length (pos_categories slf) = num_features (self_config slf) ->
  length feature_sizes = num_features (self_config slf) ->
  (length (default [] ignores_arg) <= num_features (self_config slf))%nat ->
  exists calls,
    set_func slf feature_sizes ignores_arg = Ok calls
    /\ (forall i, i ∈ con_pos calls <->
          pos_continuous slf !! i = Some true /\ ~ ignored (default [] ignores_arg) i)
    /\ (forall i, i ∈ dis_pos calls <->
          pos_discrete slf !! i = Some true /\ ~ ignored (default [] ignores_arg) i)
    /\ (forall i, i ∈ cat_pos calls <->
          pos_categories slf !! i = Some true /\ ~ ignored (default [] ignores_arg) i)
    /\ con_pos calls `sublist_of` seq 0 (num_features (self_config slf))
    /\ dis_pos calls `sublist_of` seq 0 (num_features (self_config slf))
    /\ cat_pos calls `sublist_of` seq 0 (num_features (self_config slf)).
Proof.
  intros Hc Hd Hg Hsizes Hlen.
  destruct (set_func_inv slf feature_sizes ignores_arg Hc Hd Hg Hsizes Hlen)
    as (pc' & pd' & pg' & -> & Hc' & Hd' & Hg' & Hmasks).
  eexists. split; [done|]. cbn [con_pos dis_pos cat_pos].
  split_and!; try apply select_mask_sublist; intros i;
    rewrite elem_of_select_mask_seq by done; apply Hmasks.
Qed.

(** X24.  The sizes [set_func] hands to the discrete and to the categorical
    sub-optimizer as [highest] are taken with the masks of the optimizer,
    not with the copies the ignored features were removed from: they cover
    every feature of the type, and an ignored discrete or categorical
    feature leaves the sub-optimizer with fewer positions than sizes. *)
Theorem set_func_highest_covers_ignored (slf : self) (feature_sizes : vec)
    (ignores_arg : option (list bool)) :
  length (pos_continuous slf) = num_features (self_config slf) ->
  length (pos_discrete slf) = num_features (self_config slf) ->
  length (pos_categories slf) = num_features (self_config slf) ->
  length feature_sizes = num_features (self_config slf) ->
  (length (default [] ignores_arg) <= num_features (self_config slf))%nat ->
  exists calls,
    set_func slf feature_sizes ignores_arg = Ok calls
    /\ length (dis_highest calls) = count_true (pos_discrete slf)
    /\ length (cat_highest calls) = count_true (pos_categories slf)
    /\ (length (dis_pos calls) <= length (dis_highest calls))%nat
    /\ (length (cat_pos calls) <= length (cat_highest calls))%nat
    /\ ((exists i, pos_discrete slf !! i = Some true /\ ignored (default [] ignores_arg) i) ->
        (length (dis_pos calls) < length (dis_highest calls))%nat)
    /\ ((exists i, pos_categories slf !! i = Some true /\ ignored (default [] ignores_arg) i) ->
        (length (cat_pos calls) < length (cat_highest calls))%nat).
Proof.
  intros Hc Hd Hg Hsizes Hlen.
  destruct (set_func_inv slf feature_sizes ignores_arg Hc Hd Hg Hsizes Hlen)
    as (pc' & pd' & pg' & -> & Hc' & Hd' & Hg' & Hmasks).
  eexists. split; [done|]. cbn [dis_pos dis_highest cat_pos cat_highest].
  rewrite !length_select_mask by (rewrite ?length_seq; congruence).
  destruct (count_true_le (pos_discrete slf) pd') as [Hdle Hdlt]; [congruence| |].
  { intros i Hi. by apply Hmasks in Hi as [? _]. }
  destruct (count_true_le (pos_categories slf) pg') as [Hgle Hglt]; [congruence| |].
  { intros i Hi. by apply Hmasks in Hi as [? _]. }
  split_and!; [done..| |].
  - intros (i & Hi & Hign). apply Hdlt. exists i. split; [done|]. by apply Hmasks.
  - intros (i & Hi & Hign). apply Hglt. exists i. split; [done|]. by apply Hmasks.
Qed.

(** The loop over [ignores] with an ignored index beyond the masks. *)
Lemma ignore_loop_overflow (ignores : list bool) (n k : nat)
    (pos : list bool * list bool * list bool) :
  length pos.1.1 = n -> length pos.1.2 = n -> length pos.2 = n ->
  (exists j, ignores !! j = Some true /\ (n <= k + j)%nat) ->
  foldlR ignore_step pos (imap (fun j b => ((k + j)%nat, b)) ignores) = Raise IndexError.
Proof.
  revert k pos. induction ignores as [|b ignores IH]; intros k [[pc pd] pg] Hc Hd Hg (j & Hj & Hn).
  { by rewrite lookup_nil in Hj. }
  cbn [fst snd] in *. cbn [imap foldlR]. rewrite Nat.add_0_r.
  assert (Htail : forall pos' : list bool * list bool * list bool,
            length pos'.1.1 = n -> length pos'.1.2 = n -> length pos'.2 = n ->
            j <> 0%nat ->
            foldlR ignore_step pos' (imap ((fun j b => ((k + j)%nat, b)) ∘ S) ignores)
            = Raise IndexError).
  { intros pos' ? ? ? Hj0. destruct j as [|j']; [done|].
    rewrite (imap_ext _ (fun j b => ((S k + j)%nat, b))) by (intros; cbn; f_equal; lia).
    apply IH; [done..|]. exists j'. split; [done|lia]. }
  unfold ignore_step at 1. unfold setitem. destruct b.
  - destruct (decide (k < n)%nat) as [Hk|Hk].
    + rewrite !decide_True by lia. cbn [bindR].
      apply Htail; cbn; rewrite ?length_insert; try done.
      intros ->. lia.
    + by rewrite decide_False by lia.
  - cbn [bindR]. apply Htail; try done. intros ->. done.
Qed.

(** X25.  An entry of [ignores] that holds for an index beyond the features
    of the configuration makes [set_func] raise [IndexError]; entries that
    do not hold are skipped wherever they are. *)
Theorem set_func_ignores_beyond_features_raises (slf : self) (feature_sizes : vec)
    (ignores : list bool) (i : nat) :
  length (pos_continuous slf) = num_features (self_config slf) ->
  length (pos_discrete slf) = num_features (self_config slf) ->
  length (pos_categories slf) = num_features (self_config slf) ->
  ignored ignores i ->
  (num_features (self_config slf) <= i)%nat ->
  set_func slf feature_sizes (Some ignores) = Raise IndexError.
Proof.
  intros Hc Hd Hg Hi Hn. unfold set_func.
  rewrite (imap_ext pair (fun j b => ((0 + j)%nat, b))) by done.
  rewrite (ignore_loop_overflow ignores (num_features (self_config slf)) 0); [done..|].
  exists i. split; [done|lia].
Qed.

(** X23 on the space with a feature of each type, the discrete feature
    being ignored. *)
Lemma set_func_positions_witness :
  exists calls,
    set_func three_features_optimizer [1; 3; 5] (Some [false; false; true]) = Ok calls
    /\ (forall i, i ∈ con_pos calls <->
          pos_continuous three_features_optimizer !! i = Some true
          /\ ~ ignored (default [] (Some [false; false; true])) i)
    /\ (forall i, i ∈ dis_pos calls <->
          pos_discrete three_features_optimizer !! i = Some true
          /\ ~ ignored (default [] (Some [false; false; true])) i)
    /\ (forall i, i ∈ cat_pos calls <->
          pos_categories three_features_optimizer !! i = Some true
          /\ ~ ignored (default [] (Some [false; false; true])) i)
    /\ con_pos calls `sublist_of` seq 0 (num_features (self_config three_features_optimizer))
    /\ dis_pos calls `sublist_of` seq 0 (num_features (self_config three_features_optimizer))
    /\ cat_pos calls `sublist_of` seq 0 (num_features (self_config three_features_optimizer)).
Proof.
  apply (set_func_positions three_features_optimizer [1; 3; 5] (Some [false; false; true]));
    [reflexivity..|cbn; lia].
Defined.

(** X24 on the same call: no position and one size for the discrete
    sub-optimizer. *)
Lemma set_func_highest_witness :
  exists calls,
    set_func three_features_optimizer [1; 3; 5] (Some [false; false; true]) = Ok calls
    /\ length (dis_highest calls) = count_true (pos_discrete three_features_optimizer)
    /\ length (cat_highest calls) = count_true (pos_categories three_features_optimizer)
    /\ (length (dis_pos calls) <= length (dis_highest calls))%nat
    /\ (length (cat_pos calls) <= length (cat_highest calls))%nat
    /\ ((exists i, pos_discrete three_features_optimizer !! i = Some true
                   /\ ignored (default [] (Some [false; false; true])) i) ->
        (length (dis_pos calls) < length (dis_highest calls))%nat)
    /\ ((exists i, pos_categories three_features_optimizer !! i = Some true
                   /\ ignored (default [] (Some [false; false; true])) i) ->
        (length (cat_pos calls) < length (cat_highest calls))%nat).
Proof.
  apply (set_func_highest_covers_ignored three_features_optimizer [1; 3; 5]
           (Some [false; false; true])); [reflexivity..|cbn; lia].
Defined.

(** X25 on four entries of [ignores] for three features. *)
Lemma set_func_ignores_beyond_witness :
  set_func three_features_optimizer [1; 3; 5] (Some [false; false; false; true])
  = Raise IndexError.
Proof.
  apply (set_func_ignores_beyond_features_raises three_features_optimizer [1; 3; 5]
           [false; false; false; true] 3); [reflexivity..|cbn; lia].
Defined.

End OptimizerPositions.
